(** * Plan engine, reasoning engine and response validator

    A shallow embedding of the three engines of [packages/core]:
    - [planning/hierarchical-planner.ts]  (module [Planner]),
    - [reasoning/reasoning-engine.ts]     (module [Reasoning]),
    - [validation/response-validator.ts]  (module [Validator]).

    Conventions of the embedding.
    - A JavaScript [number] is an IEEE-754 binary64 value: Rocq's primitive
      [float], whose operations the kernel evaluates bit for bit like the
      JavaScript ones.  Array lengths are [nat] and enter the arithmetic
      through [of_nat].
    - A JavaScript [string] is a [string]; the text helpers ([toLowerCase],
      [split_ws], ...) cover the ASCII range: they are those of JavaScript
      on the texts of ASCII characters ([JS.is_ascii]).
    - [Set<string>] is [gset string], [Map<string, V>] is [gmap string V].
    - A function that can throw returns [Try].  The depth-first searches
      of the planner are not structurally recursive: they take fuel, and
      they and their callers return [option] or [Res], with a theorem that
      the fuel the caller passes is enough.
    - An [async] function is its synchronous body: nothing here yields
      between a read and a write of the engine state. *)

From Stdlib Require Import PrimFloat Uint63 ZArith Ascii String List.
From stdpp Require Import gmap strings list relations pretty.

#[local] Set Warnings "-inexact-float,-clear-no-such-hyp,-register-all".

Local Open Scope string_scope.
Local Open Scope list_scope.
Local Open Scope nat_scope.

(** ** Results of functions that can throw *)

(** Results of the planner, whose searches take fuel ... *)
Inductive Res (A : Type) : Type :=
  | Ok (a : A)
  | Throw (message : string)
  | OutOfFuel.
Arguments Ok {A} a.
Arguments Throw {A} message.
Arguments OutOfFuel {A}.

(** ... and of functions that can throw and take no fuel. *)
Inductive Try (A : Type) : Type :=
  | Returns (a : A)
  | Throws (error : string).
Arguments Returns {A} a.
Arguments Throws {A} error.

(** ** The JavaScript runtime functions the engines call *)

Module JS.

(** [String.prototype.toLowerCase], on ASCII letters. *)
Definition lower_ascii (c : ascii) : ascii :=
  let n := nat_of_ascii c in
  if (65 <=? n) && (n <=? 90) then ascii_of_nat (n + 32) else c.

Fixpoint toLowerCase (s : string) : string :=
  match s with
  | EmptyString => EmptyString
  | String c r => String (lower_ascii c) (toLowerCase r)
  end.

(** [String.prototype.startsWith]. *)
Fixpoint startsWith (s p : string) : bool :=
  match p, s with
  | EmptyString, _ => true
  | String _ _, EmptyString => false
  | String a p', String b s' => Ascii.eqb a b && startsWith s' p'
  end.

(** [String.prototype.includes]: [p] occurs in [s]. *)
Fixpoint includes (s p : string) : bool :=
  startsWith s p ||
  match s with
  | EmptyString => false
  | String _ s' => includes s' p
  end.

(** [Array.prototype.includes] on an array of strings. *)
Definition arr_includes (l : list string) (x : string) : bool :=
  existsb (String.eqb x) l.

(** [Array.prototype.join]. *)
Fixpoint join (sep : string) (l : list string) : string :=
  match l with
  | [] => ""
  | [x] => x
  | x :: r => x +:+ sep +:+ join sep r
  end.

(** The white space of the regular expression [\s], ASCII range. *)
Definition is_space (c : ascii) : bool :=
  let n := nat_of_ascii c in
  ((9 <=? n) && (n <=? 13)) || (n =? 32).

(** [s.split(/\s+/)]: [cur] is the token being read, [in_sep] tells
    that the previous character was white space. *)
Fixpoint split_ws_go (s : string) (cur : string) (in_sep : bool) : list string :=
  match s with
  | EmptyString => [cur]
  | String c r =>
      if is_space c
      then if in_sep then split_ws_go r cur true
           else cur :: split_ws_go r "" true
      else split_ws_go r (cur +:+ String c "") false
  end.

Definition split_ws (s : string) : list string := split_ws_go s "" false.

(** [s.split(' ')[0]]: the text before the first space. *)
Fixpoint before_space (s : string) : string :=
  match s with
  | EmptyString => ""
  | String c r => if Ascii.eqb c " " then "" else String c (before_space r)
  end.

(** Decimal rendering of an array length inside a template string. *)
Definition string_of_nat (n : nat) : string := pretty (N.of_nat n).

(** An array length as a [number]. *)
Definition of_nat (n : nat) : float := PrimFloat.of_uint63 (Uint63.of_Z (Z.of_nat n)).

Definition is_nan (x : float) : bool := negb (PrimFloat.eqb x x).

(** [Math.min] and [Math.max] of two numbers: NaN if either is NaN, and
    [-0] counts as smaller than [+0]. *)
Definition Math_min (a b : float) : float :=
  if is_nan a || is_nan b then nan
  else if PrimFloat.ltb a b then a
  else if PrimFloat.ltb b a then b
  else if PrimFloat.ltb (1 / a) (1 / b) then a else b.

Definition Math_max (a b : float) : float :=
  if is_nan a || is_nan b then nan
  else if PrimFloat.ltb a b then b
  else if PrimFloat.ltb b a then a
  else if PrimFloat.ltb (1 / a) (1 / b) then b else a.

(** Truthiness of a [number] and of a [string]. *)
Definition truthy_num (x : float) : bool :=
  negb (is_nan x) && negb (PrimFloat.eqb x 0).

Definition truthy_str (s : string) : bool :=
  match s with EmptyString => false | _ => true end.

Definition truthy_opt_str (s : option string) : bool :=
  match s with Some t => truthy_str t | None => false end.

(** The word characters of the regular expression [\w]. *)
Definition is_word_char (c : ascii) : bool :=
  let n := nat_of_ascii c in
  ((48 <=? n) && (n <=? 57)) || ((65 <=? n) && (n <=? 90)) ||
  ((97 <=? n) && (n <=? 122)) || (n =? 95).

(** [w] stands at the head of [s] and a word boundary follows it;
    [fold] is applied to the characters of [s] first ([lower_ascii] for a
    regular expression with the [i] flag, the identity without). *)
Fixpoint word_at (fold : ascii → ascii) (w s : string) : bool :=
  match w, s with
  | EmptyString, EmptyString => true
  | EmptyString, String c _ => negb (is_word_char c)
  | String _ _, EmptyString => false
  | String a w', String b s' => Ascii.eqb a (fold b) && word_at fold w' s'
  end.

Fixpoint test_words_go (words : list string) (s : string) (prev_word : bool) : bool :=
  match s with
  | EmptyString => false
  | String c r =>
      (negb prev_word && existsb (λ w, word_at lower_ascii w s) words)
      || test_words_go words r (is_word_char c)
  end.

(** [/\b(w1|w2|...)\b/i.test(s)] for lower-case words [w1], [w2], ... made
    of word characters. *)
Definition test_words (words : list string) (s : string) : bool :=
  test_words_go words s false.

(** [s.split('.')[0]], [String.prototype.trim] and [s.substring(0, n)]. *)
Fixpoint before_dot (s : string) : string :=
  match s with
  | EmptyString => ""
  | String c r => if Ascii.eqb c "." then "" else String c (before_dot r)
  end.

Fixpoint trim_start (s : string) : string :=
  match s with
  | String c r => if is_space c then trim_start r else s
  | EmptyString => ""
  end.

Fixpoint trim_end (s : string) : string :=
  match s with
  | EmptyString => ""
  | String c r =>
      match trim_end r with
      | EmptyString => if is_space c then "" else String c ""
      | r' => String c r'
      end
  end.

Definition trim (s : string) : string := trim_end (trim_start s).

Fixpoint take_chars (n : nat) (s : string) : string :=
  match n, s with
  | S n', String c r => String c (take_chars n' r)
  | _, _ => ""
  end.

(** The maximal runs of word characters of [s], in order: [cur] is the run
    being read. *)
Fixpoint words_go (s : string) (cur : string) : list string :=
  match s with
  | EmptyString => if truthy_str cur then [cur] else []
  | String c r =>
      if is_word_char c then words_go r (cur +:+ String c "")
      else if truthy_str cur then cur :: words_go r "" else words_go r ""
  end.

Definition words_of (s : string) : list string := words_go s "".

(** [s.match(/\b(w1|w2|...|mcp_\w+)\b/g) || []] for words [w1], [w2], ...
    made of word characters: between two word boundaries the pattern can
    only match a whole maximal run of word characters, so the matches are
    the runs that are one of the words or are [mcp_] followed by at least
    one more word character. *)
Definition match_tool_words (words : list string) (s : string) : list string :=
  List.filter (λ w, arr_includes words w
                    || (startsWith w "mcp_" && (4 <? String.length w)))
    (words_of s).

(** [[...new Set(l)]]: the distinct elements, first occurrences kept. *)
Fixpoint distinct (l : list string) : list string :=
  match l with
  | [] => []
  | x :: r => x :: List.filter (λ y, negb (String.eqb x y)) (distinct r)
  end.

(** [Array.prototype.sort] with a comparator.  The sort is stable, and
    for a consistent comparator the result is the one sorted arrangement
    that keeps equal elements in their order; insertion from the right
    computes it.  [x] is moved behind [y] when [compare x y > 0]. *)
Fixpoint sort_insert {A} (compare : A → A → float) (x : A) (l : list A) : list A :=
  match l with
  | [] => [x]
  | y :: r =>
      if PrimFloat.ltb 0 (compare x y) then y :: sort_insert compare x r
      else x :: l
  end.

Definition sort {A} (compare : A → A → float) (l : list A) : list A :=
  foldr (sort_insert compare) [] l.



End JS.

(** ** The plan engine: [hierarchical-planner.ts] *)

Module Planner.

Inductive StepType := analysis | tool_call | verification | decision | synthesis.
Inductive Complexity := low | medium | high.
Inductive RiskLevel := risk_low | risk_medium | risk_high.

Record PlanStep := {
  ps_id : string;
  ps_title : string;
  ps_description : string;
  ps_type : StepType;
  ps_dependencies : list string;
  ps_estimatedComplexity : Complexity;
  ps_requiredTools : list string;
  ps_expectedOutput : option string;
  ps_validationCriteria : option (list string);
  ps_fallbackStrategy : option string
}.

Record StepResult := {
  sr_stepId : string;
  sr_success : bool;
  sr_output : string;
  sr_toolsUsed : list string;
  sr_validationPassed : bool;
  sr_executionTime : Z;
  sr_confidence : float;
  sr_warnings : list string;
  sr_errors : list string
}.

Record HierarchicalPlan := {
  hp_id : string;
  hp_title : string;
  hp_description : string;
  hp_goal : string;
  hp_steps : list PlanStep;
  hp_estimatedDuration : Z;
  hp_riskLevel : RiskLevel;
  hp_createdAt : Z;
  hp_availableTools : list string;
  hp_contextConstraints : list string
}.

Record ValidationResult := {
  vr_isValid : bool;
  vr_errors : list string;
  vr_warnings : list string;
  vr_suggestions : list string
}.

(** [steps.find(s => s.id === stepId)] *)
Definition find_step (steps : list PlanStep) (stepId : string) : option PlanStep :=
  List.find (λ s, String.eqb (ps_id s) stepId) steps.

(** *** [hasCyclicDependencies] *)

(** The two sets the closure [hasCycle] captures. *)
Record CycleSearch := {
  visited : gset string;
  recursionStack : gset string
}.

(** [for (const dep of deps) { if (hasCycle(dep)) return true; }],
    threading the captured sets; [false] when the loop runs to its end. *)
Fixpoint first_cycle (hasCycle : string → CycleSearch → option (bool * CycleSearch))
    (deps : list string) (st : CycleSearch) : option (bool * CycleSearch) :=
  match deps with
  | [] => Some (false, st)
  | dep :: rest =>
      match hasCycle dep st with
      | Some (false, st') => first_cycle hasCycle rest st'
      | r => r
      end
  end.

Fixpoint hasCycle (fuel : nat) (steps : list PlanStep) (stepId : string)
    (st : CycleSearch) : option (bool * CycleSearch) :=
  match fuel with
  | O => None
  | S fuel' =>
      if bool_decide (stepId ∈ recursionStack st) then Some (true, st)
      else if bool_decide (stepId ∈ visited st) then Some (false, st)
      else
        let st1 := {| visited := {[stepId]} ∪ visited st;
                      recursionStack := {[stepId]} ∪ recursionStack st |} in
        match find_step steps stepId with
        | Some step =>
            match first_cycle (hasCycle fuel' steps) (ps_dependencies step) st1 with
            | Some (false, st2) =>
                Some (false, {| visited := visited st2;
                                recursionStack := recursionStack st2 ∖ {[stepId]} |})
            | r => r
            end
        | None =>
            Some (false, {| visited := visited st1;
                            recursionStack := recursionStack st1 ∖ {[stepId]} |})
        end
  end.

Definition search_start : CycleSearch := {| visited := ∅; recursionStack := ∅ |}.

(** Every nested call of [hasCycle] marks a step id that was not marked
    before, so the nesting is at most one deeper than the number of
    steps (lemma [hasCyclicDependencies_total]). *)
Definition hasCyclicDependencies (steps : list PlanStep) : option bool :=
  fst <$> first_cycle (hasCycle (S (length steps)) steps) (map ps_id steps) search_start.

(** *** The planner and its tool registry *)

(** The tool registry is an external collaborator; the planner reads the
    names of the registered tools ([getAllTools().map(t => t.name)]) and
    asks whether a name is registered ([getTool(name)]). *)
Definition ToolRegistry := list string.

Definition getTool (registry : ToolRegistry) (name : string) : option string :=
  List.find (String.eqb name) registry.

Record HierarchicalPlanner := {
  toolRegistry : ToolRegistry;
  activePlans : gmap string HierarchicalPlan;
  executionResults : gmap string (list StepResult)
}.

(** *** [decomposeGoal] *)

Definition isFileSystemTask (goal : string) : bool :=
  JS.test_words ["file"; "directory"; "folder"; "create"; "delete"; "move";
                 "copy"; "read"; "write"] goal.

Definition isCodeTask (goal : string) : bool :=
  JS.test_words ["code"; "function"; "class"; "method"; "debug"; "refactor";
                 "test"; "compile"] goal.

Definition isAnalysisTask (goal : string) : bool :=
  JS.test_words ["analyze"; "review"; "examine"; "inspect"; "understand";
                 "explain"] goal.

Definition createFileSystemSteps (goal : string) (availableTools : list string) : list PlanStep :=
  [ {| ps_id := "fs-1";
       ps_title := "Check File System State";
       ps_description := "Examine current file system state";
       ps_type := tool_call;
       ps_dependencies := ["verification-1"];
       ps_estimatedComplexity := low;
       ps_requiredTools := ["ls"; "read_file"];
       ps_expectedOutput := Some "Current file system state";
       ps_validationCriteria := Some ["File system state is clear"];
       ps_fallbackStrategy := None |} ].

Definition createCodeSteps (goal : string) (availableTools : list string) : list PlanStep :=
  [ {| ps_id := "code-1";
       ps_title := "Analyze Code Structure";
       ps_description := "Examine existing code structure";
       ps_type := tool_call;
       ps_dependencies := ["verification-1"];
       ps_estimatedComplexity := medium;
       ps_requiredTools := ["read_file"; "grep"];
       ps_expectedOutput := Some "Code structure analysis";
       ps_validationCriteria := Some ["Code structure is understood"];
       ps_fallbackStrategy := None |} ].

Definition createAnalysisSteps (goal : string) (availableTools : list string) : list PlanStep :=
  [ {| ps_id := "analysis-2";
       ps_title := "Deep Analysis";
       ps_description := "Perform detailed analysis of the target";
       ps_type := analysis;
       ps_dependencies := ["verification-1"];
       ps_estimatedComplexity := medium;
       ps_requiredTools := ["read_file"; "grep"; "ls"];
       ps_expectedOutput := Some "Detailed analysis results";
       ps_validationCriteria := Some ["Analysis is thorough and accurate"];
       ps_fallbackStrategy := None |} ].

Definition createGeneralSteps (goal : string) (availableTools : list string) : list PlanStep :=
  [ {| ps_id := "general-1";
       ps_title := "Execute General Task";
       ps_description := "Execute the requested task";
       ps_type := tool_call;
       ps_dependencies := ["verification-1"];
       ps_estimatedComplexity := medium;
       ps_requiredTools := firstn 3 availableTools;
       ps_expectedOutput := Some "Task execution results";
       ps_validationCriteria := Some ["Task completed successfully"];
       ps_fallbackStrategy := None |} ].

(** The argument of the last [steps.push] is built before the push, so
    [steps.slice(0, -1)] is the list pushed so far without its last step. *)
Definition decomposeGoal (goal context : string) (availableTools constraints : list string)
    : list PlanStep :=
  let steps0 :=
    [ {| ps_id := "analysis-1";
         ps_title := "Analyze Request";
         ps_description := "Understand the user's goal and current context";
         ps_type := analysis;
         ps_dependencies := [];
         ps_estimatedComplexity := low;
         ps_requiredTools := ["read_file"; "ls"; "grep"];
         ps_expectedOutput := Some "Understanding of current state and requirements";
         ps_validationCriteria := Some ["Goal is clearly understood"; "Context is analyzed"];
         ps_fallbackStrategy := Some "Ask for clarification if goal is unclear" |};
      {| ps_id := "verification-1";
         ps_title := "Verify Tool Availability";
         ps_description := "Confirm all required tools are available and accessible";
         ps_type := verification;
         ps_dependencies := ["analysis-1"];
         ps_estimatedComplexity := low;
         ps_requiredTools := [];
         ps_expectedOutput := Some "List of available and missing tools";
         ps_validationCriteria := Some ["All required tools are available"];
         ps_fallbackStrategy := Some "Suggest alternative tools or approaches" |} ] in
  let steps1 :=
    steps0 ++
    (if isFileSystemTask goal then createFileSystemSteps goal availableTools
     else if isCodeTask goal then createCodeSteps goal availableTools
     else if isAnalysisTask goal then createAnalysisSteps goal availableTools
     else createGeneralSteps goal availableTools) in
  steps1 ++
  [ {| ps_id := "synthesis-1";
       ps_title := "Synthesize Results";
       ps_description := "Combine results from all steps and provide final answer";
       ps_type := synthesis;
       ps_dependencies := map ps_id (removelast steps1);
       ps_estimatedComplexity := medium;
       ps_requiredTools := [];
       ps_expectedOutput := Some "Complete answer to user's goal";
       ps_validationCriteria := Some ["All steps completed successfully"; "Goal achieved"];
       ps_fallbackStrategy := Some "Provide partial results with explanation" |} ].

(** *** [validatePlan] *)

Definition circular_error : string := "Plan contains circular dependencies".

Definition missing_tool_error (tool stepId : string) : string :=
  "Required tool '" +:+ tool +:+ "' is not available for step '" +:+ stepId +:+ "'".

Definition missing_step_error (stepId dep : string) : string :=
  "Step '" +:+ stepId +:+ "' depends on non-existent step '" +:+ dep +:+ "'".

Definition tool_errors (allTools : list string) (steps : list PlanStep) : list string :=
  flat_map (λ step,
    flat_map (λ tool,
      if negb (JS.arr_includes allTools tool)
      then [missing_tool_error tool (ps_id step)] else [])
      (ps_requiredTools step)) steps.

Definition orphan_errors (steps : list PlanStep) : list string :=
  let stepIds : gset string := list_to_set (map ps_id steps) in
  flat_map (λ step,
    flat_map (λ dep,
      if bool_decide (dep ∈ stepIds) then []
      else [missing_step_error (ps_id step) dep])
      (ps_dependencies step)) steps.

Definition is_high (step : PlanStep) : bool :=
  match ps_estimatedComplexity step with high => true | _ => false end.

Definition plan_warnings (steps : list PlanStep) : list string :=
  (if (3 <? length (List.filter is_high steps))
   then ["Plan has many high-complexity steps, consider breaking down further"]
   else []) ++
  flat_map (λ step,
    match ps_validationCriteria step with
    | Some (_ :: _) => []
    | _ => ["Step '" +:+ ps_id step +:+ "' lacks validation criteria"]
    end) steps.

Definition validatePlan (self : HierarchicalPlanner) (plan : HierarchicalPlan)
    : option ValidationResult :=
  cyc ← hasCyclicDependencies (hp_steps plan);
  let errors :=
    (if cyc : bool then [circular_error] else []) ++
    tool_errors (toolRegistry self) (hp_steps plan) ++
    orphan_errors (hp_steps plan) in
  Some {| vr_isValid := (length errors =? 0);
          vr_errors := errors;
          vr_warnings := plan_warnings (hp_steps plan);
          vr_suggestions := [] |}.

(** *** [createPlan] *)

Definition extractPlanTitle (goal : string) : string :=
  JS.take_chars 50 (JS.trim (JS.before_dot goal)).

Definition calculateEstimatedDuration (steps : list PlanStep) : Z :=
  fold_left (λ total step,
    match ps_estimatedComplexity step with
    | low => total + 30
    | medium => total + 120
    | high => total + 300
    end)%Z steps 0%Z.

Definition assessRiskLevel (steps : list PlanStep) : RiskLevel :=
  let highComplexityCount := length (List.filter is_high steps) in
  if (2 <? highComplexityCount) then risk_high
  else if (0 <? highComplexityCount) then risk_medium
  else risk_low.

(** [planId] is the identifier [generatePlanId] draws from the clock and
    the random generator, [now] the time [new Date()] reads. *)
Definition createPlan (self : HierarchicalPlanner) (planId : string) (now : Z)
    (goal context : string) (constraints : list string)
    : Res (HierarchicalPlanner * HierarchicalPlan) :=
  let availableTools := toolRegistry self in
  let steps := decomposeGoal goal context availableTools constraints in
  let plan0 :=
    {| hp_id := planId;
       hp_title := extractPlanTitle goal;
       hp_description := goal;
       hp_goal := goal;
       hp_steps := steps;
       hp_estimatedDuration := 0;
       hp_riskLevel := risk_medium;
       hp_createdAt := now;
       hp_availableTools := availableTools;
       hp_contextConstraints := constraints |} in
  match validatePlan self plan0 with
  | None => OutOfFuel
  | Some validation =>
      if negb (vr_isValid validation)
      then Throw ("Invalid plan: " +:+ JS.join ", " (vr_errors validation))
      else
        let plan :=
          {| hp_id := planId;
             hp_title := extractPlanTitle goal;
             hp_description := goal;
             hp_goal := goal;
             hp_steps := steps;
             hp_estimatedDuration := calculateEstimatedDuration steps;
             hp_riskLevel := assessRiskLevel steps;
             hp_createdAt := now;
             hp_availableTools := availableTools;
             hp_contextConstraints := constraints |} in
        Ok ({| toolRegistry := toolRegistry self;
               activePlans := <[planId := plan]> (activePlans self);
               executionResults := executionResults self |}, plan)
  end.

(** *** [topologicalSort] *)

(** The list and the two sets the closure [visit] captures. *)
Record TopoSort := {
  sorted : list PlanStep;
  ts_visited : gset string;
  ts_visiting : gset string
}.

(** [for (const dep of deps) { visit(dep); }]: a throw ends the loop. *)
Fixpoint visit_each (visit : string → TopoSort → Res TopoSort)
    (deps : list string) (st : TopoSort) : Res TopoSort :=
  match deps with
  | [] => Ok st
  | dep :: rest =>
      match visit dep st with
      | Ok st' => visit_each visit rest st'
      | r => r
      end
  end.

Fixpoint visit (fuel : nat) (steps : list PlanStep) (stepId : string)
    (st : TopoSort) : Res TopoSort :=
  match fuel with
  | O => OutOfFuel
  | S fuel' =>
      if bool_decide (stepId ∈ ts_visited st) then Ok st
      else if bool_decide (stepId ∈ ts_visiting st) then Throw "Circular dependency detected"
      else
        let st1 := {| sorted := sorted st;
                      ts_visited := ts_visited st;
                      ts_visiting := {[stepId]} ∪ ts_visiting st |} in
        match find_step steps stepId with
        | Some step =>
            match visit_each (visit fuel' steps) (ps_dependencies step) st1 with
            | Ok st2 =>
                Ok {| sorted := sorted st2 ++ [step];
                      ts_visited := {[stepId]} ∪ ts_visited st2;
                      ts_visiting := ts_visiting st2 ∖ {[stepId]} |}
            | r => r
            end
        | None =>
            Ok {| sorted := sorted st1;
                  ts_visited := ts_visited st1;
                  ts_visiting := ts_visiting st1 ∖ {[stepId]} |}
        end
  end.

Definition sort_start : TopoSort :=
  {| sorted := []; ts_visited := ∅; ts_visiting := ∅ |}.

(** Every nested call of [visit] puts on [visiting] a step id that was not
    there, so the nesting is at most one deeper than the number of steps
    (lemma [topologicalSort_total]). *)
Definition topologicalSort (steps : list PlanStep) : Res (list PlanStep) :=
  match visit_each (visit (S (length steps)) steps) (map ps_id steps) sort_start with
  | Ok st => Ok (sorted st)
  | Throw m => Throw m
  | OutOfFuel => OutOfFuel
  end.

(** *** [executeStep] *)

Record PlanExecutionContext := {
  ctx_currentStep : nat;
  ctx_completedSteps : list StepResult;
  ctx_availableTools : list string;
  ctx_toolRegistry : ToolRegistry;
  ctx_userGoal : string;
  ctx_workingDirectory : string;
  ctx_timeoutMs : Z
}.

Definition validateStepOutput (step : PlanStep) (output : string) : bool :=
  match ps_validationCriteria step with
  | None => true
  | Some criteria =>
      forallb (λ c, JS.includes (JS.toLowerCase output)
                      (JS.before_space (JS.toLowerCase c))) criteria
  end.

Definition calculateStepConfidence (step : PlanStep) (output : string)
    (validationPassed : bool) : float :=
  let confidence := 0.5%float in
  let confidence := if validationPassed then (confidence + 0.3)%float else confidence in
  let confidence :=
    if (50 <? String.length output) then (confidence + 0.1)%float else confidence in
  let confidence :=
    match ps_estimatedComplexity step with
    | low => (confidence + 0.1)%float
    | _ => confidence
    end in
  JS.Math_min confidence 1.0.

(** The text and the tools of the body the step's type selects. *)
Definition step_body (step : PlanStep) (previousResults : list StepResult)
    : string * list string :=
  match ps_type step with
  | analysis => ("Analysis completed for step: " +:+ ps_title step, [])
  | tool_call => ("Tool call completed for step: " +:+ ps_title step, ps_requiredTools step)
  | verification => ("Verification completed for step: " +:+ ps_title step, [])
  | decision => ("Decision completed for step: " +:+ ps_title step, [])
  | synthesis =>
      ("Synthesis completed. Successfully executed "
         +:+ JS.string_of_nat (length (List.filter sr_success previousResults))
         +:+ " out of " +:+ JS.string_of_nat (length previousResults) +:+ " steps.", [])
  end.

(** [elapsed] is what [Date.now() - startTime] measures.  None of the step
    bodies throws, so the [catch] branch of the source is never taken. *)
Definition executeStep (step : PlanStep) (context : PlanExecutionContext)
    (previousResults : list StepResult) (elapsed : Z) : StepResult :=
  let errors :=
    flat_map (λ toolName,
      match getTool (ctx_toolRegistry context) toolName with
      | Some _ => []
      | None => ["Required tool '" +:+ toolName +:+ "' not available"]
      end) (ps_requiredTools step) in
  match errors with
  | _ :: _ =>
      {| sr_stepId := ps_id step;
         sr_success := false;
         sr_output := "Tool validation failed: " +:+ JS.join ", " errors;
         sr_toolsUsed := [];
         sr_validationPassed := false;
         sr_executionTime := elapsed;
         sr_confidence := 0;
         sr_warnings := [];
         sr_errors := errors |}
  | [] =>
      let '(output, toolsUsed) := step_body step previousResults in
      let validationPassed := validateStepOutput step output in
      {| sr_stepId := ps_id step;
         sr_success := true;
         sr_output := output;
         sr_toolsUsed := toolsUsed;
         sr_validationPassed := validationPassed;
         sr_executionTime := elapsed;
         sr_confidence := calculateStepConfidence step output validationPassed;
         sr_warnings := [];
         sr_errors := [] |}
  end.

(** *** [executePlan] *)

Definition depsSatisfied (step : PlanStep) (results : list StepResult) : bool :=
  forallb (λ depId,
    existsb (λ r, String.eqb (sr_stepId r) depId && sr_success r) results)
    (ps_dependencies step).

Definition failedResult (step : PlanStep) : StepResult :=
  {| sr_stepId := ps_id step;
     sr_success := false;
     sr_output := "Dependencies not satisfied: " +:+ JS.join ", " (ps_dependencies step);
     sr_toolsUsed := [];
     sr_validationPassed := false;
     sr_executionTime := 0;
     sr_confidence := 0;
     sr_warnings := [];
     sr_errors := ["Dependencies not satisfied"] |}.

(** What the loop did, beside the results it returns: the calls of
    [executeStep] (the step and the results it was handed) and whether the
    [break] was taken.  Neither is in the source; they are kept so that
    "the step body is never invoked unless ..." and "the loop halts early"
    can be stated. *)
Record Invocation := {
  inv_step : PlanStep;
  inv_previousResults : list StepResult
}.

Record Execution := {
  ex_results : list StepResult;
  ex_invoked : list Invocation;
  ex_halted : bool
}.

Definition execution_start : Execution :=
  {| ex_results := []; ex_invoked := []; ex_halted := false |}.

(** The [for (const step of sortedSteps)] loop; [elapsed step] is the time
    the clock measures around the body of [step]. *)
Fixpoint run_steps (context : PlanExecutionContext) (elapsed : PlanStep → Z)
    (todo : list PlanStep) (acc : Execution) : Execution :=
  match todo with
  | [] => acc
  | step :: rest =>
      let results := ex_results acc in
      if negb (depsSatisfied step results) then
        run_steps context elapsed rest
          {| ex_results := results ++ [failedResult step];
             ex_invoked := ex_invoked acc;
             ex_halted := false |}
      else
        let stepResult := executeStep step context results (elapsed step) in
        let results' := results ++ [stepResult] in
        let invoked' :=
          ex_invoked acc ++ [{| inv_step := step; inv_previousResults := results |}] in
        if negb (sr_success stepResult) && negb (JS.truthy_opt_str (ps_fallbackStrategy step))
        then {| ex_results := results'; ex_invoked := invoked'; ex_halted := true |}
        else run_steps context elapsed rest
               {| ex_results := results'; ex_invoked := invoked'; ex_halted := false |}
  end.

Definition executePlan (self : HierarchicalPlanner) (planId : string)
    (context : PlanExecutionContext) (elapsed : PlanStep → Z)
    : Res (HierarchicalPlanner * Execution) :=
  match activePlans self !! planId with
  | None => Throw ("Plan " +:+ planId +:+ " not found")
  | Some plan =>
      match topologicalSort (hp_steps plan) with
      | Ok sortedSteps =>
          let run := run_steps context elapsed sortedSteps execution_start in
          Ok ({| toolRegistry := toolRegistry self;
                 activePlans := activePlans self;
                 executionResults := <[planId := ex_results run]> (executionResults self) |},
              run)
      | Throw m => Throw m
      | OutOfFuel => OutOfFuel
      end
  end.

(** *** The public accessors *)

Definition getPlan (self : HierarchicalPlanner) (planId : string) : option HierarchicalPlan :=
  activePlans self !! planId.

Definition getExecutionResults (self : HierarchicalPlanner) (planId : string)
    : option (list StepResult) :=
  executionResults self !! planId.

(** [Map.prototype.delete] answers whether the key was there. *)
Definition deletePlan (self : HierarchicalPlanner) (planId : string)
    : HierarchicalPlanner * bool :=
  ({| toolRegistry := toolRegistry self;
      activePlans := delete planId (activePlans self);
      executionResults := delete planId (executionResults self) |},
   bool_decide (is_Some (activePlans self !! planId))).

End Planner.

(** ** The reasoning engine: [reasoning-engine.ts] *)

Module Reasoning.

Inductive StepType := observation | hypothesis | verification | conclusion | action.
Inductive ValidationStatus := pending | validated | rejected.
Inductive ChainStatus := active | completed | failed | paused.
Inductive IssueType :=
  | logical_inconsistency | missing_evidence | weak_assumption
  | circular_reasoning | tool_availability | constraint_violation.
Inductive Severity := low | medium | high | critical.
Inductive RiskLevel := risk_low | risk_medium | risk_high.

Record ReasoningStep := {
  rs_id : string;
  rs_type : StepType;
  rs_content : string;
  rs_confidence : float;
  rs_evidence : list string;
  rs_assumptions : list string;
  rs_alternatives : list string;
  rs_validationStatus : ValidationStatus;
  rs_timestamp : Z
}.

Record ReasoningContext := {
  rc_availableTools : list string;
  rc_workingDirectory : string;
  rc_previousChains : list string;
  rc_constraints : list string;
  rc_timeoutMs : Z;
  rc_maxSteps : Z;
  rc_validationRequired : bool
}.

Record ReasoningChain := {
  ch_id : string;
  ch_goal : string;
  ch_steps : list ReasoningStep;
  ch_currentStep : Z;
  ch_overallConfidence : float;
  ch_status : ChainStatus;
  ch_createdAt : Z;
  ch_updatedAt : Z;
  ch_context : ReasoningContext
}.

Record ReasoningIssue := {
  ri_type : IssueType;
  ri_severity : Severity;
  ri_stepId : string;
  ri_description : string;
  ri_suggestedFix : string
}.

Record ReasoningValidation := {
  rv_isValid : bool;
  rv_confidence : float;
  rv_issues : list ReasoningIssue;
  rv_suggestions : list string
}.

Record DecisionOption := {
  do_id : string;
  do_description : string;
  do_pros : list string;
  do_cons : list string;
  do_riskLevel : RiskLevel;
  do_feasibilityScore : float;
  do_requiredTools : list string
}.

Record DecisionPoint := {
  dp_id : string;
  dp_question : string;
  dp_options : list DecisionOption;
  dp_selectedOption : option string;
  dp_rationale : string;
  dp_confidence : float;
  dp_timestamp : Z
}.

(** The engine: the names of the registered tools and the live chains.
    The rule list is fixed by the constructor ([validationRules] below). *)
Record ReasoningEngine := {
  toolRegistry : list string;
  activeChains : gmap string ReasoningChain
}.

(** *** The validation rules *)

Definition ValidationRule : Type :=
  ReasoningStep → ReasoningChain → list string → ReasoningValidation.

Definition rule_result (issues : list ReasoningIssue) : ReasoningValidation :=
  {| rv_isValid := (length issues =? 0);
     rv_confidence := 1.0;
     rv_issues := issues;
     rv_suggestions := [] |}.

Definition EvidenceValidationRule : ValidationRule := λ step chain toolRegistry,
  rule_result
    (match rs_type step, rs_evidence step with
     | conclusion, [] =>
         [ {| ri_type := missing_evidence; ri_severity := high; ri_stepId := rs_id step;
              ri_description := "Conclusion lacks supporting evidence";
              ri_suggestedFix := "Add evidence from previous steps" |} ]
     | _, _ => []
     end).

Definition AssumptionValidationRule : ValidationRule := λ step chain toolRegistry,
  rule_result
    (if 3 <? length (rs_assumptions step)
     then [ {| ri_type := weak_assumption; ri_severity := medium; ri_stepId := rs_id step;
               ri_description := "Too many assumptions";
               ri_suggestedFix := "Reduce assumptions or provide more evidence" |} ]
     else []).

(** [chain.steps[chain.steps.length - 2]], read when the chain has more
    than one step. *)
Definition second_to_last (chain : ReasoningChain) : option ReasoningStep :=
  if 1 <? length (ch_steps chain)
  then ch_steps chain !! (length (ch_steps chain) - 2)
  else None.

Definition LogicalConsistencyRule : ValidationRule := λ step chain toolRegistry,
  rule_result
    (match second_to_last chain with
     | Some prevStep =>
         match rs_type prevStep, rs_type step with
         | conclusion, hypothesis =>
             [ {| ri_type := logical_inconsistency; ri_severity := medium;
                  ri_stepId := rs_id step;
                  ri_description := "New hypothesis after conclusion";
                  ri_suggestedFix := "Consider if new hypothesis is necessary" |} ]
         | _, _ => []
         end
     | None => []
     end).

Definition ConstraintValidationRule : ValidationRule := λ step chain toolRegistry,
  rule_result
    (flat_map (λ constraint,
       if JS.includes (JS.toLowerCase (rs_content step)) (JS.toLowerCase constraint)
       then [ {| ri_type := constraint_violation; ri_severity := high;
                 ri_stepId := rs_id step;
                 ri_description := "Violates constraint: " +:+ constraint;
                 ri_suggestedFix := "Modify approach to respect constraints" |} ]
       else [])
       (rc_constraints (ch_context chain))).

Definition validationRules : list ValidationRule :=
  [EvidenceValidationRule; AssumptionValidationRule;
   LogicalConsistencyRule; ConstraintValidationRule].

(** *** Helpers of the engine *)

Definition extractToolsFromContent (content : string) : list string :=
  JS.match_tool_words
    ["read_file"; "write_file"; "edit"; "ls"; "grep"; "shell"; "web_fetch";
     "web_search"; "glob"] content.

Definition calculateSimilarity (text1 text2 : string) : float :=
  let words1 := JS.split_ws text1 in
  let words2 := JS.split_ws text2 in
  let intersection := List.filter (λ word, JS.arr_includes words2 word) words1 in
  let union := JS.distinct (words1 ++ words2) in
  (JS.of_nat (length intersection) / JS.of_nat (length union))%float.

(** The loop runs over [chain.steps[0 .. length - 2]]. *)
Definition hasCircularReasoning (step : ReasoningStep) (chain : ReasoningChain) : bool :=
  let currentContent := JS.toLowerCase (rs_content step) in
  existsb (λ prevStep,
    PrimFloat.ltb 0.8
      (calculateSimilarity currentContent (JS.toLowerCase (rs_content prevStep))))
    (firstn (length (ch_steps chain) - 1) (ch_steps chain)).

Definition calculateValidationConfidence (issues : list ReasoningIssue) : float :=
  JS.Math_max
    (fold_left (λ confidence issue,
       match ri_severity issue with
       | critical => confidence - 0.4
       | high => confidence - 0.2
       | medium => confidence - 0.1
       | low => confidence - 0.05
       end)%float issues 1.0%float)
    0.

Definition isLogicallyConsistent (prevStep currentStep : ReasoningStep) : bool :=
  match rs_type prevStep, rs_type currentStep with
  | hypothesis, verification => true
  | observation, hypothesis => true
  | verification, conclusion => true
  | _, _ => false
  end.

Definition calculateStepConfidence (step : ReasoningStep) (chain : ReasoningChain) : float :=
  let confidence := 0.5%float in
  let confidence :=
    if 0 <? length (rs_evidence step)
    then (confidence + JS.Math_min (JS.of_nat (length (rs_evidence step)) * 0.1) 0.3)%float
    else confidence in
  let confidence :=
    if length (rs_assumptions step) =? 0
    then (confidence + 0.1)%float
    else (confidence - JS.Math_min (JS.of_nat (length (rs_assumptions step)) * 0.05) 0.2)%float in
  let confidence :=
    match rs_type step with
    | observation => (confidence + 0.1)%float
    | verification => (confidence + 0.2)%float
    | conclusion => (confidence + 0.1)%float
    | _ => confidence
    end in
  let confidence :=
    match second_to_last chain with
    | Some previousStep =>
        if isLogicallyConsistent previousStep step
        then (confidence + 0.1)%float else confidence
    | None => confidence
    end in
  JS.Math_min confidence 1.0.

Definition is_validated (s : ReasoningStep) : bool :=
  match rs_validationStatus s with validated => true | _ => false end.

Definition is_rejected (s : ReasoningStep) : bool :=
  match rs_validationStatus s with rejected => true | _ => false end.

Definition calculateOverallConfidence (chain : ReasoningChain) : float :=
  match ch_steps chain with
  | [] => 0%float
  | _ =>
      let validSteps := List.filter is_validated (ch_steps chain) in
      let avgConfidence :=
        (fold_left (λ sum step, sum + rs_confidence step) validSteps 0
         / JS.of_nat (length validSteps))%float in
      let rejectedSteps := List.filter is_rejected (ch_steps chain) in
      let rejectionPenalty := (JS.of_nat (length rejectedSteps) * 0.1)%float in
      JS.Math_max (avgConfidence - rejectionPenalty) 0
  end.

(** *** [validateReasoningStep] *)

Definition is_severity (sev : Severity) (i : ReasoningIssue) : bool :=
  match ri_severity i, sev with
  | low, low | medium, medium | high, high | critical, critical => true
  | _, _ => false
  end.

Definition circular_issue (step : ReasoningStep) : ReasoningIssue :=
  {| ri_type := circular_reasoning; ri_severity := high; ri_stepId := rs_id step;
     ri_description := "Circular reasoning detected";
     ri_suggestedFix := "Provide new evidence or approach" |}.

Definition validateReasoningStep (self : ReasoningEngine) (step : ReasoningStep)
    (chain : ReasoningChain) : ReasoningValidation :=
  let ruleResults :=
    List.filter (λ r, negb (rv_isValid r))
      (map (λ rule : ValidationRule, rule step chain (toolRegistry self)) validationRules) in
  let ruleIssues := flat_map rv_issues ruleResults in
  let suggestions := flat_map rv_suggestions ruleResults in
  let toolIssues :=
    match rs_type step with
    | action =>
        let availableTools := toolRegistry self in
        flat_map (λ tool,
          if negb (JS.arr_includes availableTools tool)
          then [ {| ri_type := tool_availability; ri_severity := high;
                    ri_stepId := rs_id step;
                    ri_description := "Tool '" +:+ tool +:+ "' is not available";
                    ri_suggestedFix :=
                      "Use available tools: " +:+ JS.join ", " availableTools |} ]
          else [])
          (extractToolsFromContent (rs_content step))
    | _ => []
    end in
  let circularIssues :=
    if hasCircularReasoning step chain then [circular_issue step] else [] in
  let issues := ruleIssues ++ toolIssues ++ circularIssues in
  {| rv_isValid :=
       (length (List.filter (is_severity critical) issues) =? 0)
       && (length (List.filter (is_severity high) issues) =? 0);
     rv_confidence := calculateValidationConfidence issues;
     rv_issues := issues;
     rv_suggestions := suggestions |}.

(** *** [startReasoning], [addReasoningStep], [makeDecision] *)

(** [chainId] is the identifier [generateChainId] draws from the clock and
    the random generator, [now] the time [new Date()] reads. *)
Definition startReasoning (self : ReasoningEngine) (chainId : string) (now : Z)
    (goal : string) (context : ReasoningContext) : ReasoningEngine * ReasoningChain :=
  let initialStep :=
    {| rs_id := "step-0"; rs_type := observation;
       rs_content := "Starting reasoning for goal: " +:+ goal;
       rs_confidence := 0.9;
       rs_evidence := ["Goal: " +:+ goal];
       rs_assumptions := []; rs_alternatives := [];
       rs_validationStatus := validated; rs_timestamp := now |} in
  let chain :=
    {| ch_id := chainId; ch_goal := goal; ch_steps := [initialStep];
       ch_currentStep := 0; ch_overallConfidence := 0; ch_status := active;
       ch_createdAt := now; ch_updatedAt := now; ch_context := context |} in
  ({| toolRegistry := toolRegistry self;
      activeChains := <[chainId := chain]> (activeChains self) |}, chain).

(** The step as [addReasoningStep] builds it before validating it. *)
Definition new_step (chain : ReasoningChain) (stepType : StepType) (content : string)
    (evidence assumptions alternatives : list string) (now : Z) : ReasoningStep :=
  let step :=
    {| rs_id := "step-" +:+ JS.string_of_nat (length (ch_steps chain));
       rs_type := stepType; rs_content := content; rs_confidence := 0;
       rs_evidence := evidence; rs_assumptions := assumptions;
       rs_alternatives := alternatives;
       rs_validationStatus := pending; rs_timestamp := now |} in
  {| rs_id := rs_id step; rs_type := stepType; rs_content := content;
     rs_confidence := calculateStepConfidence step chain;
     rs_evidence := evidence; rs_assumptions := assumptions;
     rs_alternatives := alternatives;
     rs_validationStatus := pending; rs_timestamp := now |}.

Definition addReasoningStep (self : ReasoningEngine) (chainId : string)
    (stepType : StepType) (content : string)
    (evidence assumptions alternatives : list string) (now : Z)
    : Try (ReasoningEngine * ReasoningStep) :=
  match activeChains self !! chainId with
  | None => Throws ("Reasoning chain " +:+ chainId +:+ " not found")
  | Some chain =>
      let step0 := new_step chain stepType content evidence assumptions alternatives now in
      let validation := validateReasoningStep self step0 chain in
      let step :=
        {| rs_id := rs_id step0; rs_type := stepType; rs_content := content;
           rs_confidence := rs_confidence step0;
           rs_evidence :=
             if rv_isValid validation then evidence
             else evidence ++
                  ["Validation issues: " +:+
                     JS.join ", " (map ri_description (rv_issues validation))];
           rs_assumptions := assumptions; rs_alternatives := alternatives;
           rs_validationStatus := if rv_isValid validation then validated else rejected;
           rs_timestamp := now |} in
      let steps := ch_steps chain ++ [step] in
      let chain1 :=
        {| ch_id := ch_id chain; ch_goal := ch_goal chain; ch_steps := steps;
           ch_currentStep := Z.of_nat (length steps) - 1;
           ch_overallConfidence := ch_overallConfidence chain;
           ch_status := ch_status chain; ch_createdAt := ch_createdAt chain;
           ch_updatedAt := now; ch_context := ch_context chain |} in
      let chain2 :=
        {| ch_id := ch_id chain; ch_goal := ch_goal chain; ch_steps := steps;
           ch_currentStep := Z.of_nat (length steps) - 1;
           ch_overallConfidence := calculateOverallConfidence chain1;
           ch_status := ch_status chain; ch_createdAt := ch_createdAt chain;
           ch_updatedAt := now; ch_context := ch_context chain |} in
      Returns ({| toolRegistry := toolRegistry self;
             activeChains := <[chainId := chain2]> (activeChains self) |}, step)
  end.

(** [toFixed2] is [Number.prototype.toFixed] at two digits, a function of
    the JavaScript runtime.  Reading [id] of [options[0]] throws a
    [TypeError] when the array is empty. *)
Definition makeDecision (toFixed2 : float → string)
    (self : ReasoningEngine) (chainId : string) (decisionPoint : DecisionPoint)
    (rationale : option string) (now : Z)
    : Try (ReasoningEngine * DecisionPoint * DecisionOption) :=
  match dp_options decisionPoint !! 0 with
  | None => Throws "TypeError: Cannot read properties of undefined (reading 'id')"
  | Some selectedOption =>
      let score := toFixed2 (do_feasibilityScore selectedOption) in
      let rationale' :=
        match rationale with
        | Some r => if JS.truthy_str r then r
                    else "Selected based on highest feasibility score (" +:+ score +:+ ")"
        | None => "Selected based on highest feasibility score (" +:+ score +:+ ")"
        end in
      let decisionPoint' :=
        {| dp_id := dp_id decisionPoint; dp_question := dp_question decisionPoint;
           dp_options := dp_options decisionPoint;
           dp_selectedOption := Some (do_id selectedOption);
           dp_rationale := rationale';
           dp_confidence := do_feasibilityScore selectedOption;
           dp_timestamp := dp_timestamp decisionPoint |} in
      match addReasoningStep self chainId conclusion
              ("Decision made: " +:+ do_description selectedOption)
              ["Feasibility score: " +:+ score; "Rationale: " +:+ rationale']
              ["Option is feasible with available tools"] [] now with
      | Returns (self', _) => Returns (self', decisionPoint', selectedOption)
      | Throws m => Throws m
      end
  end.

(** *** [createDecisionPoint] *)

Definition calculateFeasibilityScore (self : ReasoningEngine) (option : DecisionOption)
    (chain : ReasoningChain) : float :=
  let score := 0.5%float in
  let availableTools := toolRegistry self in
  let toolsAvailable :=
    forallb (λ tool, JS.arr_includes availableTools tool) (do_requiredTools option) in
  let score := if toolsAvailable then (score + 0.3)%float else (score - 0.2)%float in
  let score :=
    match do_riskLevel option with
    | risk_low => (score + 0.2)%float
    | risk_medium => (score + 0.0)%float
    | risk_high => (score - 0.1)%float
    end in
  let prosCount := length (do_pros option) in
  let consCount := length (do_cons option) in
  let score :=
    if consCount <? prosCount then (score + 0.1)%float
    else if prosCount <? consCount then (score - 0.1)%float
    else score in
  JS.Math_min (JS.Math_max score 0) 1.0.

(** [option.feasibilityScore = ...] *)
Definition with_score (option : DecisionOption) (score : float) : DecisionOption :=
  {| do_id := do_id option; do_description := do_description option;
     do_pros := do_pros option; do_cons := do_cons option;
     do_riskLevel := do_riskLevel option; do_feasibilityScore := score;
     do_requiredTools := do_requiredTools option |}.

Definition by_feasibility (a b : DecisionOption) : float :=
  (do_feasibilityScore b - do_feasibilityScore a)%float.

(** [now] is the time all the clock reads of the call return; the
    decision point shares the sorted array with the caller. *)
Definition createDecisionPoint (self : ReasoningEngine) (chainId question : string)
    (options : list DecisionOption) (now : Z)
    : Try (ReasoningEngine * DecisionPoint) :=
  match activeChains self !! chainId with
  | None => Throws ("Reasoning chain " +:+ chainId +:+ " not found")
  | Some chain =>
      let scored :=
        map (λ option, with_score option (calculateFeasibilityScore self option chain))
          options in
      let options' := JS.sort by_feasibility scored in
      let decisionPoint :=
        {| dp_id := "decision-" +:+ pretty now;
           dp_question := question;
           dp_options := options';
           dp_selectedOption := None;
           dp_rationale := "";
           dp_confidence := 0;
           dp_timestamp := now |} in
      match addReasoningStep self chainId action
              ("Decision point: " +:+ question)
              [JS.string_of_nat (length options') +:+ " options evaluated"]
              ["Best option will be selected based on feasibility"]
              (map do_description options') now with
      | Returns (self', _) => Returns (self', decisionPoint)
      | Throws m => Throws m
      end
  end.

(** *** [completeReasoning] and [validateChain] *)

Definition with_status (chain : ReasoningChain) (status : ChainStatus) : ReasoningChain :=
  {| ch_id := ch_id chain; ch_goal := ch_goal chain; ch_steps := ch_steps chain;
     ch_currentStep := ch_currentStep chain;
     ch_overallConfidence := ch_overallConfidence chain;
     ch_status := status; ch_createdAt := ch_createdAt chain;
     ch_updatedAt := ch_updatedAt chain; ch_context := ch_context chain |}.

(** [chain] is the object stored under [chainId]: [addReasoningStep] has
    updated it in place when [chain.status] is assigned. *)
Definition completeReasoning (self : ReasoningEngine) (chainId finalConclusion : string)
    (now : Z) : Try (ReasoningEngine * ReasoningChain) :=
  match activeChains self !! chainId with
  | None => Throws ("Reasoning chain " +:+ chainId +:+ " not found")
  | Some chain =>
      match addReasoningStep self chainId conclusion finalConclusion
              ["Chain completed with " +:+ JS.string_of_nat (length (ch_steps chain))
                 +:+ " steps"]
              ["All critical steps validated"] [] now with
      | Returns (self1, _) =>
          let chain1 := default chain (activeChains self1 !! chainId) in
          let chain2 := with_status chain1 completed in
          Returns ({| toolRegistry := toolRegistry self1;
                      activeChains := <[chainId := chain2]> (activeChains self1) |},
                   chain2)
      | Throws m => Throws m
      end
  end.

Definition is_conclusion (s : ReasoningStep) : bool :=
  match rs_type s with conclusion => true | _ => false end.

Definition too_short_issue : ReasoningIssue :=
  {| ri_type := logical_inconsistency; ri_severity := medium; ri_stepId := "chain";
     ri_description := "Reasoning chain is too short";
     ri_suggestedFix := "Add more detailed reasoning steps" |}.

Definition no_conclusion_issue : ReasoningIssue :=
  {| ri_type := logical_inconsistency; ri_severity := high; ri_stepId := "chain";
     ri_description := "No conclusion step found";
     ri_suggestedFix := "Add a conclusion step" |}.

(** Every step is validated against the chain it already belongs to. *)
Definition validateChain (self : ReasoningEngine) (chainId : string)
    : Try ReasoningValidation :=
  match activeChains self !! chainId with
  | None => Throws ("Reasoning chain " +:+ chainId +:+ " not found")
  | Some chain =>
      let validations :=
        map (λ step, validateReasoningStep self step chain) (ch_steps chain) in
      let allIssues :=
        flat_map rv_issues validations ++
        (if length (ch_steps chain) <? 3 then [too_short_issue] else []) ++
        (if existsb is_conclusion (ch_steps chain) then [] else [no_conclusion_issue]) in
      let allSuggestions := flat_map rv_suggestions validations in
      Returns
        {| rv_isValid :=
             (length (List.filter (λ i, is_severity critical i || is_severity high i)
                        allIssues) =? 0);
           rv_confidence := ch_overallConfidence chain;
           rv_issues := allIssues;
           rv_suggestions := JS.distinct allSuggestions |}
  end.

(** *** The public accessors *)

Definition getReasoningChain (self : ReasoningEngine) (chainId : string)
    : option ReasoningChain :=
  activeChains self !! chainId.

Definition deleteChain (self : ReasoningEngine) (chainId : string)
    : ReasoningEngine * bool :=
  ({| toolRegistry := toolRegistry self;
      activeChains := delete chainId (activeChains self) |},
   bool_decide (is_Some (activeChains self !! chainId))).

Definition pauseChain (self : ReasoningEngine) (chainId : string)
    : ReasoningEngine * bool :=
  match activeChains self !! chainId with
  | Some chain =>
      ({| toolRegistry := toolRegistry self;
          activeChains := <[chainId := with_status chain paused]> (activeChains self) |},
       true)
  | None => (self, false)
  end.

Definition resumeChain (self : ReasoningEngine) (chainId : string)
    : ReasoningEngine * bool :=
  match activeChains self !! chainId with
  | Some chain =>
      match ch_status chain with
      | paused =>
          ({| toolRegistry := toolRegistry self;
              activeChains := <[chainId := with_status chain active]> (activeChains self) |},
           true)
      | _ => (self, false)
      end
  | None => (self, false)
  end.

End Reasoning.

(** ** The response validator: [response-validator.ts] *)

Module Validator.

(** The values a tool-call parameter ([unknown]) can hold. *)
Inductive JsValue :=
  | VUndefined
  | VNull
  | VBool (b : bool)
  | VNum (x : float)
  | VStr (s : string)
  | VArr (items : list JsValue)
  | VObj.

Definition truthy (v : JsValue) : bool :=
  match v with
  | VUndefined | VNull => false
  | VBool b => b
  | VNum x => JS.truthy_num x
  | VStr s => JS.truthy_str s
  | VArr _ | VObj => true
  end.

Record ToolCall := {
  tc_name : string;
  tc_parameters : gmap string JsValue;
  tc_id : option string;
  tc_reasoning : option string
}.

Inductive ReasoningType :=
  | observation | analysis | hypothesis | verification | decision | action | conclusion.

Record ReasoningStep := {
  st_type : ReasoningType;
  st_content : string;
  st_evidence : list string;
  st_confidence : float
}.

Record AIResponse := {
  content : string;
  toolCalls : list ToolCall;
  reasoning : option (list ReasoningStep);
  confidence : option float;
  timestamp : Z
}.

Inductive ValidationIssueType :=
  | tool_not_available | invalid_parameters | constraint_violation
  | logical_inconsistency | insufficient_evidence | hallucination_detected
  | circular_reasoning | unsafe_operation | missing_reasoning | low_confidence
  | factual_error | parameter_mismatch.

Inductive Severity := low | medium | high | critical.

Record ValidationIssue := {
  vi_type : ValidationIssueType;
  vi_severity : Severity;
  vi_message : string;
  vi_location : string;
  vi_suggestedFix : option string;
  vi_evidence : option (list string)
}.

Record ValidationResult := {
  isValid : bool;
  score : float;
  issues : list ValidationIssue;
  suggestions : list string;
  correctedResponse : option AIResponse;
  allowExecution : bool
}.

Record ValidationConstraints := {
  minimumConfidence : float;
  allowedTools : list string;
  forbiddenOperations : list string;
  requireReasoning : bool;
  requireEvidence : bool;
  safetyChecks : bool;
  factChecking : bool;
  maxToolCalls : Z;
  timeoutMs : Z
}.

Inductive ConversationType :=
  | code_assistance | conv_analysis | planning | general | debugging | mcp_tool_usage.

(** [PromptContext] of the prompt system. *)
Record PromptContext := {
  conversationType : ConversationType;
  userGoal : string;
  workingDirectory : string;
  availableTools : list string;
  projectType : option string;
  constraints : list string;
  previousInteractions : list string;
  confidenceThreshold : float;
  requiresPlanning : bool;
  requiresReasoning : bool
}.

Record ValidationRule := {
  rule_name : string;
  rule_description : string;
  rule_severity : Severity;
  validate : AIResponse → PromptContext → ValidationConstraints → Try (list ValidationIssue)
}.

Record ResponseValidator := {
  validationRules : list ValidationRule
}.

Definition is_type (t : ValidationIssueType) (i : ValidationIssue) : bool :=
  match vi_type i, t with
  | tool_not_available, tool_not_available
  | invalid_parameters, invalid_parameters
  | constraint_violation, constraint_violation
  | logical_inconsistency, logical_inconsistency
  | insufficient_evidence, insufficient_evidence
  | hallucination_detected, hallucination_detected
  | circular_reasoning, circular_reasoning
  | unsafe_operation, unsafe_operation
  | missing_reasoning, missing_reasoning
  | low_confidence, low_confidence
  | factual_error, factual_error
  | parameter_mismatch, parameter_mismatch => true
  | _, _ => false
  end.

Definition is_severity (sev : Severity) (i : ValidationIssue) : bool :=
  match vi_severity i, sev with
  | low, low | medium, medium | high, high | critical, critical => true
  | _, _ => false
  end.

Section rules.
(** [Number.prototype.toFixed] at two digits and the conversion of a
    number inside a template string, functions of the JavaScript runtime. *)
Variable toFixed2 : float → string.
Variable toString : float → string.

(** *** The rules *)

Definition tool_not_available_issue (name : string) (available : list string)
    : ValidationIssue :=
  {| vi_type := tool_not_available; vi_severity := critical;
     vi_message := "Tool '" +:+ name +:+ "' is not available";
     vi_location := "tool_calls";
     vi_suggestedFix := Some ("Use available tools: " +:+ JS.join ", " available);
     vi_evidence := Some ["Available tools: " +:+ JS.join ", " available] |}.

Definition ToolAvailabilityRule : ValidationRule :=
  {| rule_name := "ToolAvailability";
     rule_description := "Checks if all requested tools are available";
     rule_severity := critical;
     validate := λ response context constraints,
       Returns (flat_map (λ toolCall,
             if negb (JS.arr_includes (availableTools context) (tc_name toolCall))
             then [tool_not_available_issue (tc_name toolCall) (availableTools context)]
             else [])
             (toolCalls response)) |}.

Definition ParameterValidationRule : ValidationRule :=
  {| rule_name := "ParameterValidation";
     rule_description := "Validates tool call parameters";
     rule_severity := high;
     validate := λ response context constraints,
       Returns (flat_map (λ toolCall,
             if bool_decide (tc_parameters toolCall = ∅)
             then [ {| vi_type := invalid_parameters; vi_severity := high;
                       vi_message :=
                         "Tool '" +:+ tc_name toolCall +:+ "' called without parameters";
                       vi_location := "tool_calls";
                       vi_suggestedFix := Some "Provide required parameters for tool call";
                       vi_evidence := None |} ]
             else [])
             (toolCalls response)) |}.

(** [command && command.includes('rm -rf')]: a string and an array have an
    [includes] method; calling it on a number, on [true] or on a plain
    object throws. *)
Definition dangerous_command (command : JsValue) : Try bool :=
  if negb (truthy command) then Returns false
  else match command with
       | VStr s => Returns (JS.includes s "rm -rf")
       | VArr items =>
           Returns (existsb (λ v, match v with VStr s => String.eqb s "rm -rf" | _ => false end)
                 items)
       | _ => Throws "TypeError: command.includes is not a function"
       end.

(** The text of a value inside a template string; inside an array,
    [undefined] and [null] are rendered as the empty string. *)
Fixpoint command_text (command : JsValue) : string :=
  match command with
  | VUndefined => "undefined"
  | VNull => "null"
  | VBool b => if b then "true" else "false"
  | VNum x => toString x
  | VStr s => s
  | VArr items =>
      JS.join ","
        (map (λ v, match v with
                   | VUndefined | VNull => ""
                   | _ => command_text v
                   end) items)
  | VObj => "[object Object]"
  end.

Fixpoint safety_issues (calls : list ToolCall) : Try (list ValidationIssue) :=
  match calls with
  | [] => Returns []
  | toolCall :: rest =>
      let here :=
        if String.eqb (tc_name toolCall) "shell" then
          let command := default VUndefined (tc_parameters toolCall !! "command") in
          match dangerous_command command with
          | Returns true =>
              Returns [ {| vi_type := unsafe_operation; vi_severity := high;
                      vi_message := "Potentially dangerous shell command detected";
                      vi_location := "tool_calls";
                      vi_suggestedFix :=
                        Some "Use safer file operations or add confirmation";
                      vi_evidence := Some ["Command: " +:+ command_text command] |} ]
          | Returns false => Returns []
          | Throws m => Throws m
          end
        else Returns [] in
      match here, safety_issues rest with
      | Returns a, Returns b => Returns (a ++ b)
      | Returns _, r => r
      | r, _ => r
      end
  end.

Definition SafetyCheckRule : ValidationRule :=
  {| rule_name := "SafetyCheck";
     rule_description := "Checks for potentially unsafe operations";
     rule_severity := high;
     validate := λ response context constraints,
       if negb (safetyChecks constraints) then Returns []
       else safety_issues (toolCalls response) |}.

Definition has_reasoning (response : AIResponse) : bool :=
  match reasoning response with
  | Some (_ :: _) => true
  | _ => false
  end.

Definition ReasoningValidationRule : ValidationRule :=
  {| rule_name := "ReasoningValidation";
     rule_description := "Validates reasoning chain quality";
     rule_severity := medium;
     validate := λ response context constraints,
       Returns (if requireReasoning constraints && negb (has_reasoning response)
           then [ {| vi_type := missing_reasoning; vi_severity := high;
                     vi_message := "Reasoning is required but not provided";
                     vi_location := "reasoning";
                     vi_suggestedFix := Some "Add explicit reasoning steps";
                     vi_evidence := None |} ]
           else []) |}.

(** [response.confidence && response.confidence < t]. *)
Definition confidence_below (response : AIResponse) (t : float) : bool :=
  match confidence response with
  | Some c => JS.truthy_num c && PrimFloat.ltb c t
  | None => false
  end.

Definition confidence_above (response : AIResponse) (t : float) : bool :=
  match confidence response with
  | Some c => JS.truthy_num c && PrimFloat.ltb t c
  | None => false
  end.

Definition ConfidenceValidationRule : ValidationRule :=
  {| rule_name := "ConfidenceValidation";
     rule_description := "Validates confidence levels";
     rule_severity := medium;
     validate := λ response context constraints,
       Returns (if confidence_below response (minimumConfidence constraints)
           then
             let c := default 0%float (confidence response) in
             [ {| vi_type := low_confidence; vi_severity := medium;
                  vi_message :=
                    "Response confidence (" +:+ toFixed2 c +:+ ") below threshold ("
                      +:+ toString (minimumConfidence constraints) +:+ ")";
                  vi_location := "response";
                  vi_suggestedFix :=
                    Some "Provide more evidence or acknowledge uncertainty";
                  vi_evidence :=
                    Some ["Confidence: " +:+ toString c;
                          "Threshold: " +:+ toString (minimumConfidence constraints)] |} ]
           else []) |}.

Definition ConstraintComplianceRule : ValidationRule :=
  {| rule_name := "ConstraintCompliance";
     rule_description := "Checks compliance with specified constraints";
     rule_severity := high;
     validate := λ response context constraints,
       Returns (flat_map (λ forbidden,
             if JS.includes (JS.toLowerCase (content response)) (JS.toLowerCase forbidden)
             then [ {| vi_type := constraint_violation; vi_severity := high;
                       vi_message :=
                         "Response contains forbidden operation: " +:+ forbidden;
                       vi_location := "content";
                       vi_suggestedFix := Some "Remove or replace forbidden operation";
                       vi_evidence := Some ["Forbidden: " +:+ forbidden] |} ]
             else [])
             (forbiddenOperations constraints)) |}.

Definition HallucinationDetectionRule : ValidationRule :=
  {| rule_name := "HallucinationDetection";
     rule_description := "Detects potential hallucinations";
     rule_severity := high;
     validate := λ response context constraints,
       Returns (flat_map (λ toolCall,
             if negb (JS.arr_includes (availableTools context) (tc_name toolCall))
             then [ {| vi_type := hallucination_detected; vi_severity := high;
                       vi_message := "Hallucinated tool call: " +:+ tc_name toolCall;
                       vi_location := "tool_calls";
                       vi_suggestedFix := Some "Use only verified available tools";
                       vi_evidence :=
                         Some ["Non-existent tool: " +:+ tc_name toolCall] |} ]
             else [])
             (toolCalls response)) |}.

Definition areContradictory (step1 step2 : ReasoningStep) : bool :=
  let content1 := JS.toLowerCase (st_content step1) in
  let content2 := JS.toLowerCase (st_content step2) in
  existsb (λ '(positive, negative),
    (JS.includes content1 positive && JS.includes content2 negative)
    || (JS.includes content1 negative && JS.includes content2 positive))
    [("exists", "does not exist"); ("true", "false");
     ("valid", "invalid"); ("possible", "impossible")].

(** The loop over [i = 0 .. length - 2], from index [i] on. *)
Fixpoint contradictions (i : nat) (steps : list ReasoningStep) : list ValidationIssue :=
  match steps with
  | current :: ((next :: _) as rest) =>
      (if areContradictory current next
       then [ {| vi_type := logical_inconsistency; vi_severity := medium;
                 vi_message := "Contradictory reasoning steps detected";
                 vi_location := "reasoning_step_" +:+ JS.string_of_nat i;
                 vi_suggestedFix := Some "Resolve contradiction in reasoning";
                 vi_evidence :=
                   Some ["Step " +:+ JS.string_of_nat i +:+ ": " +:+ st_content current;
                         "Step " +:+ JS.string_of_nat (i + 1) +:+ ": "
                           +:+ st_content next] |} ]
       else []) ++ contradictions (S i) rest
  | _ => []
  end.

Definition LogicalConsistencyRule : ValidationRule :=
  {| rule_name := "LogicalConsistency";
     rule_description := "Checks for logical consistency in reasoning";
     rule_severity := medium;
     validate := λ response context constraints,
       Returns (match reasoning response with
           | None => []
           | Some steps => contradictions 0 steps
           end) |}.

(** [initializeValidationRules], run by the constructor. *)
Definition newResponseValidator : ResponseValidator :=
  {| validationRules :=
       [ToolAvailabilityRule; ParameterValidationRule; SafetyCheckRule;
        ReasoningValidationRule; ConfidenceValidationRule; ConstraintComplianceRule;
        HallucinationDetectionRule; LogicalConsistencyRule] |}.

(** *** Scoring and the execution gate *)

Definition generateSuggestions (issues : list ValidationIssue) : list string :=
  JS.distinct (
    (if 0 <? length (List.filter (is_severity critical) issues)
     then ["Address critical issues before proceeding";
           "Verify tool availability and parameter correctness"] else []) ++
    (if 0 <? length (List.filter (is_severity high) issues)
     then ["Review high-severity issues for safety and accuracy";
           "Consider alternative approaches for flagged operations"] else []) ++
    (if 0 <? length (List.filter (is_type tool_not_available) issues)
     then ["Use only verified available tools";
           "Check tool registry before attempting tool calls"] else []) ++
    (if 0 <? length (List.filter (is_type missing_reasoning) issues)
     then ["Provide explicit reasoning for complex decisions";
           "Include evidence to support conclusions"] else [])).

Definition calculateValidationScore (issues : list ValidationIssue)
    (response : AIResponse) : float :=
  let score :=
    fold_left (λ score issue,
      match vi_severity issue with
      | critical => score - 0.4
      | high => score - 0.2
      | medium => score - 0.1
      | low => score - 0.05
      end)%float issues 1.0%float in
  let score := if has_reasoning response then (score + 0.1)%float else score in
  let score := if confidence_above response 0.8 then (score + 0.05)%float else score in
  JS.Math_max score 0.

Definition shouldAllowExecution (issues : list ValidationIssue) (score : float)
    (constraints : ValidationConstraints) : bool :=
  let criticalIssues := List.filter (is_severity critical) issues in
  let unsafeIssues := List.filter (is_type unsafe_operation) issues in
  if 0 <? length criticalIssues then false
  else if safetyChecks constraints && (0 <? length unsafeIssues) then false
  else PrimFloat.leb 0.6 score.

Definition generateCorrectedResponse (original : AIResponse)
    (issues : list ValidationIssue) (context : PromptContext) : option AIResponse :=
  let toolIssues :=
    List.filter (λ i,
      JS.includes (vi_location i) "tool_call"
      && (is_type tool_not_available i || is_type unsafe_operation i)) issues in
  let validToolCalls :=
    List.filter (λ toolCall,
      negb (existsb (λ issue, JS.includes (vi_message issue) (tc_name toolCall)) toolIssues))
      (toolCalls original) in
  if negb (length validToolCalls =? length (toolCalls original))
  then Some {| content := content original +:+ String "010" (String "010" "")
                 +:+ "[Note: Some tool calls were removed due to validation issues]";
               toolCalls := validToolCalls;
               reasoning := reasoning original;
               confidence := confidence original;
               timestamp := timestamp original |}
  else None.

(** *** [validateResponse] *)

(** One round of the loop over the rules: the issues of the rule, or the
    issue that records that the rule threw. *)
Definition run_rule (rule : ValidationRule) (response : AIResponse)
    (context : PromptContext) (constraints : ValidationConstraints)
    : list ValidationIssue :=
  match validate rule response context constraints with
  | Returns ruleIssues => ruleIssues
  | Throws error =>
      [ {| vi_type := factual_error; vi_severity := medium;
           vi_message := "Validation rule '" +:+ rule_name rule +:+ "' failed: " +:+ error;
           vi_location := "validator";
           vi_suggestedFix := None;
           vi_evidence := Some [error] |} ]
  end.

Definition validateResponse (self : ResponseValidator) (response : AIResponse)
    (context : PromptContext) (constraints : ValidationConstraints) : ValidationResult :=
  let issues :=
    flat_map (λ rule, run_rule rule response context constraints) (validationRules self) in
  let score := calculateValidationScore issues response in
  {| isValid :=
       (length (List.filter (λ i, is_severity critical i || is_severity high i) issues) =? 0);
     score := score;
     issues := issues;
     suggestions := generateSuggestions issues;
     correctedResponse := generateCorrectedResponse response issues context;
     allowExecution := shouldAllowExecution issues score constraints |}.

(** *** [validateReasoning] *)








End rules.

(** *** The rule list *)

Definition addValidationRule (self : ResponseValidator) (rule : ValidationRule)
    : ResponseValidator :=
  {| validationRules := validationRules self ++ [rule] |}.

(** [findIndex] by name and [splice(index, 1)]: the first rule of that
    name goes. *)
Fixpoint remove_first (ruleName : string) (rules : list ValidationRule)
    : option (list ValidationRule) :=
  match rules with
  | [] => None
  | rule :: rest =>
      if String.eqb (rule_name rule) ruleName then Some rest
      else cons rule <$> remove_first ruleName rest
  end.

Definition removeValidationRule (self : ResponseValidator) (ruleName : string)
    : ResponseValidator * bool :=
  match remove_first ruleName (validationRules self) with
  | Some rules => ({| validationRules := rules |}, true)
  | None => (self, false)
  end.

Definition getValidationRules (self : ResponseValidator) : list ValidationRule :=
  validationRules self.

(** *** [validateToolCalls] *)

(** The tools of the registry, as far as the validator reads them:
    [tool.name] and [tool.schema.parameters] with its [required] names
    and the [type] of each of its [properties]. *)
Record ParameterSchema := {
  prm_type : option string
}.

Record ParametersSchema := {
  required : option (list string);
  properties : option (gmap string ParameterSchema)
}.

Record ToolSchema := {
  parameters : option ParametersSchema
}.

Record Tool := {
  tool_name : string;
  schema : option ToolSchema
}.

(** [typeof value]. *)
Definition typeof (value : JsValue) : string :=
  match value with
  | VUndefined => "undefined"
  | VNull | VArr _ | VObj => "object"
  | VBool _ => "boolean"
  | VNum _ => "number"
  | VStr _ => "string"
  end.

Definition isArray (value : JsValue) : bool :=
  match value with VArr _ => true | _ => false end.

Definition isNaN (value : JsValue) : bool :=
  match value with VNum x => JS.is_nan x | _ => false end.

Definition isValidParameterType (actualType expectedType : string) (value : JsValue)
    : bool :=
  if String.eqb expectedType "string" then String.eqb actualType "string"
  else if String.eqb expectedType "number"
       then String.eqb actualType "number" && negb (isNaN value)
  else if String.eqb expectedType "boolean" then String.eqb actualType "boolean"
  else if String.eqb expectedType "array" then isArray value
  else if String.eqb expectedType "object"
       then String.eqb actualType "object"
            && negb (match value with VNull => true | _ => false end)
            && negb (isArray value)
  else true.

(** [param in parameters]: an own property, or one that a plain object
    inherits from [Object.prototype]. *)
Definition in_object (param : string) (object : gmap string JsValue) : bool :=
  bool_decide (is_Some (object !! param))
  || JS.arr_includes
       ["constructor"; "__defineGetter__"; "__defineSetter__"; "hasOwnProperty";
        "__lookupGetter__"; "__lookupSetter__"; "isPrototypeOf"; "propertyIsEnumerable";
        "toString"; "valueOf"; "__proto__"; "toLocaleString"] param.

Section tool_calls.
(** [JSON.stringify], [Object.entries] (the own properties in the order
    the runtime keeps them) and the message of the [TypeError] for a call
    of a method that the value does not have. *)
Variable stringify : gmap string JsValue → string.
Variable entries : gmap string JsValue → list (string * JsValue).
Variable not_a_function : string → string.

Definition validateToolParameters (tool : Tool) (params : gmap string JsValue)
    : list ValidationIssue :=
  match schema tool with
  | None => []
  | Some toolSchema =>
      match parameters toolSchema with
      | None => []
      | Some paramsSchema =>
          let requiredNames := default [] (required paramsSchema) in
          flat_map (λ param,
            if negb (in_object param params)
            then [ {| vi_type := invalid_parameters; vi_severity := critical;
                      vi_message := "Missing required parameter: " +:+ param;
                      vi_location := "parameters";
                      vi_suggestedFix := Some ("Add required parameter: " +:+ param);
                      vi_evidence :=
                        Some ["Required parameters: " +:+ JS.join ", " requiredNames] |} ]
            else []) requiredNames ++
          match properties paramsSchema with
          | None => []
          | Some props =>
              flat_map (λ '(paramName, paramValue),
                match props !! paramName with
                | Some {| prm_type := Some expectedType |} =>
                    if JS.truthy_str expectedType
                       && negb (isValidParameterType (typeof paramValue) expectedType
                                  paramValue)
                    then [ {| vi_type := parameter_mismatch; vi_severity := high;
                              vi_message :=
                                "Parameter '" +:+ paramName +:+ "' type mismatch: expected "
                                  +:+ expectedType +:+ ", got " +:+ typeof paramValue;
                              vi_location := "parameters";
                              vi_suggestedFix :=
                                Some ("Correct parameter type for " +:+ paramName);
                              vi_evidence :=
                                Some ["Expected: " +:+ expectedType;
                                      "Actual: " +:+ typeof paramValue] |} ]
                    else []
                | _ => []
                end) (entries params)
          end
      end
  end.

(** [list.some(dangerous => value?.toLowerCase().test(dangerous.toLowerCase()))]
    for [test] one of [includes] and [startsWith]: [undefined] and [null]
    end the optional chain, a string is tested, and every other value
    has no [toLowerCase]. *)
Definition some_dangerous (test : string → string → bool) (dangerous : list string)
    (value : JsValue) : Try bool :=
  match dangerous with
  | [] => Returns false
  | _ :: _ =>
      match value with
      | VUndefined | VNull => Returns false
      | VStr s =>
          Returns (existsb (λ d, test (JS.toLowerCase s) (JS.toLowerCase d)) dangerous)
      | _ => Throws (not_a_function "toLowerCase")
      end
  end.

Definition isUnsafeOperation (toolCall : ToolCall) (context : PromptContext) : Try bool :=
  if String.eqb (tc_name toolCall) "shell" then
    some_dangerous JS.includes
      ["rm -rf"; "sudo"; "chmod 777"; "mkfs"; "dd if="; "kill -9"]
      (default VUndefined (tc_parameters toolCall !! "command"))
  else if String.eqb (tc_name toolCall) "write_file" || String.eqb (tc_name toolCall) "edit"
  then
    some_dangerous JS.startsWith
      ["/etc/"; "/usr/bin/"; "/boot/"; "/sys/"; "/proc/"]
      (default VUndefined (tc_parameters toolCall !! "file_path"))
  else Returns false.

Definition with_location (location : string) (issue : ValidationIssue) : ValidationIssue :=
  {| vi_type := vi_type issue; vi_severity := vi_severity issue;
     vi_message := vi_message issue; vi_location := location;
     vi_suggestedFix := vi_suggestedFix issue; vi_evidence := vi_evidence issue |}.

(** The body of the loop for [toolCalls[i]]. *)
Definition tool_call_issues (availableTools : list Tool) (context : PromptContext)
    (constraints : ValidationConstraints) (i : nat) (toolCall : ToolCall)
    : Try (list ValidationIssue) :=
  let location := "tool_call_" +:+ JS.string_of_nat i in
  let availableToolNames := map tool_name availableTools in
  if negb (JS.arr_includes availableToolNames (tc_name toolCall)) then
    Returns [ {| vi_type := tool_not_available; vi_severity := critical;
                 vi_message := "Tool '" +:+ tc_name toolCall +:+ "' is not available";
                 vi_location := location;
                 vi_suggestedFix :=
                   Some ("Use available tools: " +:+ JS.join ", " availableToolNames);
                 vi_evidence :=
                   Some ["Available tools: " +:+ JS.join ", " availableToolNames] |} ]
  else if (0 <? length (allowedTools constraints))
          && negb (JS.arr_includes (allowedTools constraints) (tc_name toolCall)) then
    Returns [ {| vi_type := constraint_violation; vi_severity := high;
                 vi_message :=
                   "Tool '" +:+ tc_name toolCall +:+ "' is not in allowed tools list";
                 vi_location := location;
                 vi_suggestedFix :=
                   Some ("Use allowed tools: " +:+ JS.join ", " (allowedTools constraints));
                 vi_evidence :=
                   Some ["Allowed tools: " +:+ JS.join ", " (allowedTools constraints)] |} ]
  else
    let paramValidation :=
      match List.find (λ t, String.eqb (tool_name t) (tc_name toolCall)) availableTools with
      | Some tool =>
          map (with_location location)
            (validateToolParameters tool (tc_parameters toolCall))
      | None => []
      end in
    match isUnsafeOperation toolCall context with
    | Returns true =>
        Returns (paramValidation ++
          [ {| vi_type := unsafe_operation; vi_severity := high;
               vi_message := "Tool call '" +:+ tc_name toolCall +:+ "' may be unsafe";
               vi_location := location;
               vi_suggestedFix := Some "Use safer alternatives or add safety checks";
               vi_evidence :=
                 Some ["Tool: " +:+ tc_name toolCall;
                       "Parameters: " +:+ stringify (tc_parameters toolCall)] |} ])
    | Returns false => Returns paramValidation
    | Throws error => Throws error
    end.

Fixpoint tool_calls_issues (availableTools : list Tool) (context : PromptContext)
    (constraints : ValidationConstraints) (i : nat) (calls : list ToolCall)
    : Try (list ValidationIssue) :=
  match calls with
  | [] => Returns []
  | toolCall :: rest =>
      match tool_call_issues availableTools context constraints i toolCall with
      | Throws error => Throws error
      | Returns here =>
          match tool_calls_issues availableTools context constraints (S i) rest with
          | Throws error => Throws error
          | Returns later => Returns (here ++ later)
          end
      end
  end.

(** [availableTools] is [this.toolRegistry.getAllTools()]. *)
Definition validateToolCalls (availableTools : list Tool) (calls : list ToolCall)
    (context : PromptContext) (constraints : ValidationConstraints)
    : Try (list ValidationIssue) :=
  match tool_calls_issues availableTools context constraints 0 calls with
  | Throws error => Throws error
  | Returns found =>
      Returns (found ++
        if (maxToolCalls constraints <? Z.of_nat (length calls))%Z
        then [ {| vi_type := constraint_violation; vi_severity := medium;
                  vi_message :=
                    "Too many tool calls (" +:+ JS.string_of_nat (length calls) +:+ " > "
                      +:+ pretty (maxToolCalls constraints) +:+ ")";
                  vi_location := "tool_calls";
                  vi_suggestedFix :=
                    Some "Reduce number of tool calls or break into multiple interactions";
                  vi_evidence :=
                    Some ["Tool call count: " +:+ JS.string_of_nat (length calls);
                          "Limit: " +:+ pretty (maxToolCalls constraints)] |} ]
        else [])
  end.

End tool_calls.

End Validator.

(** ** The prompt system: [ImprovedPromptSystem] of [hierarchical-planner.ts] *)

Module PromptSystem.
Import Validator.

(** The prompt system, by the names of the tools of its registry. *)
Record ImprovedPromptSystem := {
  toolRegistry : list string
}.





Definition createReasoningContext (self : ImprovedPromptSystem)
    (promptContext : PromptContext) : Reasoning.ReasoningContext :=
  {| Reasoning.rc_availableTools := availableTools promptContext;
     Reasoning.rc_workingDirectory := workingDirectory promptContext;
     Reasoning.rc_previousChains := previousInteractions promptContext;
     Reasoning.rc_constraints := constraints promptContext;
     Reasoning.rc_timeoutMs := 300000;
     Reasoning.rc_maxSteps := 20;
     Reasoning.rc_validationRequired := true |}.

Definition createPlanExecutionContext (self : ImprovedPromptSystem)
    (promptContext : PromptContext) : Planner.PlanExecutionContext :=
  {| Planner.ctx_currentStep := 0;
     Planner.ctx_completedSteps := [];
     Planner.ctx_availableTools := availableTools promptContext;
     Planner.ctx_toolRegistry := toolRegistry self;
     Planner.ctx_userGoal := userGoal promptContext;
     Planner.ctx_workingDirectory := workingDirectory promptContext;
     Planner.ctx_timeoutMs := 600000 |}.

End PromptSystem.

(** ** Facts about the plan engine *)

Module PlannerFacts.
Import Planner.

Section cycle_search.
Variable steps : list PlanStep.

(** The dependency graph of a plan: [a] points to [b] when the step that
    [steps.find] returns for [a] lists [b] among its dependencies. *)
Definition edge (a b : string) : Prop :=
  ∃ s, find_step steps a = Some s ∧ b ∈ ps_dependencies s.

(** A step id reachable from itself through one or more dependency edges. *)
Definition cyclic : Prop := ∃ a, tc edge a a.

(** A node the search has left: marked and no longer on the stack. *)
Definition finished (st : CycleSearch) (x : string) : Prop :=
  x ∈ visited st ∧ x ∉ recursionStack st.

(** The finished nodes are closed under dependency edges and none of them
    lies on a cycle. *)
Definition settled (st : CycleSearch) : Prop :=
  (∀ x y, finished st x → edge x y → finished st y) ∧
  (∀ x, finished st x → ¬ tc edge x x).

(** What a search over [targets] from [st] that answers [r] in [st']
    guarantees. *)
Definition cycle_post (st : CycleSearch) (targets : list string)
    (r : bool) (st' : CycleSearch) : Prop :=
  visited st ⊆ visited st' ∧
  ((∀ x d, x ∈ recursionStack st → d ∈ targets → tc edge x d) → r = true → cyclic) ∧
  (r = false →
     recursionStack st' = recursionStack st ∧
     (∀ d, d ∈ targets → finished st' d) ∧
     (settled st → settled st')).

Lemma find_step_Some a s :
  find_step steps a = Some s → s ∈ steps ∧ ps_id s = a.
Proof.
  unfold find_step. intros H. apply find_some in H as [Hin Heq].
  split; [by apply list_elem_of_In | by apply String.eqb_eq].
Qed.

Lemma edge_source a b : edge a b → a ∈ map ps_id steps.
Proof.
  intros (s & Hs & _). apply find_step_Some in Hs as [Hin <-].
  apply list_elem_of_fmap. eauto.
Qed.

Lemma tc_source a b : tc edge a b → ∃ c, edge a c.
Proof. destruct 1; eauto. Qed.

Lemma settled_tc st x y : settled st → finished st x → tc edge x y → finished st y.
Proof.
  intros [Hcl _] Hx Htc. induction Htc; eauto.
Qed.

Lemma first_cycle_post visit :
  (∀ id st r st', visit id st = Some (r, st') → cycle_post st [id] r st') →
  ∀ deps st r st',
    first_cycle visit deps st = Some (r, st') → cycle_post st deps r st'.
Proof.
  intros Hvisit. induction deps as [|d ds IH]; intros st r st' Hrun; simpl in Hrun.
  - inversion Hrun; subst. split; [done|]. split; [by intros _ ?|].
    intros _. split; [done|]. split; [|done].
    intros d' Hd'. by apply elem_of_nil in Hd'.
  - destruct (visit d st) as [[[] st1]|] eqn:Hd; try done.
    + inversion Hrun; subst. apply Hvisit in Hd as (Hsub & Hsound & _).
      repeat split; try done.
      intros Hpre _. apply Hsound; [|done].
      intros x d' Hx Hd'. apply list_elem_of_singleton in Hd'. subst.
      apply Hpre; [done | left].
    + apply Hvisit in Hd as (Hsub1 & _ & Hfalse1).
      destruct (Hfalse1 eq_refl) as (Hrs1 & Hfin1 & Hset1).
      apply IH in Hrun as (Hsub2 & Hsound2 & Hfalse2).
      split; [set_solver|]. split.
      * intros Hpre Hr. apply Hsound2; [|done].
        intros x d' Hx Hd'. apply Hpre; [by rewrite <- Hrs1 | by right].
      * intros Hr. destruct (Hfalse2 Hr) as (Hrs2 & Hfin2 & Hset2).
        split; [congruence|]. split; [|tauto].
        intros d' Hd'. apply elem_of_cons in Hd' as [->|Hd']; [|by apply Hfin2].
        destruct (Hfin1 d) as [Hv Hn]; [left|].
        split; [set_solver | congruence].
Qed.

Lemma finished_mark st id :
  id ∉ visited st →
  ∀ x, finished {| visited := {[id]} ∪ visited st;
                   recursionStack := {[id]} ∪ recursionStack st |} x ↔ finished st x.
Proof.
  intros Hid x. unfold finished; simpl. split.
  - intros [Hv Hn]. split; set_solver.
  - intros [Hv Hn]. split; [set_solver|].
    intros [->%elem_of_singleton|?]%elem_of_union; done.
Qed.

Lemma settled_mark st id :
  id ∉ visited st → settled st →
  settled {| visited := {[id]} ∪ visited st;
             recursionStack := {[id]} ∪ recursionStack st |}.
Proof.
  intros Hid [Hcl Hac]. split.
  - intros x y Hx He. apply finished_mark; [done|]. apply finished_mark in Hx; eauto.
  - intros x Hx. apply finished_mark in Hx; eauto.
Qed.

(** Leaving [id]: its dependencies are finished, so it joins the finished
    nodes without closing a cycle. *)
Lemma settled_leave st id :
  id ∈ visited st → id ∈ recursionStack st →
  (∀ y, edge id y → finished st y) →
  settled st →
  settled {| visited := visited st; recursionStack := recursionStack st ∖ {[id]} |}.
Proof.
  intros Hv Hrs Hdeps Hset.
  assert (Hold : ∀ x, finished st x →
    finished {| visited := visited st; recursionStack := recursionStack st ∖ {[id]} |} x).
  { intros x [??]. split; simpl; set_solver. }
  assert (Hnew : ∀ x,
    finished {| visited := visited st; recursionStack := recursionStack st ∖ {[id]} |} x →
    x = id ∨ finished st x).
  { intros x [Hxv Hxn]; simpl in *. destruct (decide (x = id)) as [->|Hne]; [by left|].
    right. split; [done|]. set_solver. }
  assert (Hnot : ¬ finished st id) by (intros [_ ?]; done).
  split.
  - intros x y Hx He. apply Hold. apply Hnew in Hx as [->|Hx]; [by apply Hdeps|].
    destruct Hset as [Hcl _]. eauto.
  - intros x Hx Htc. apply Hnew in Hx as [->|Hx].
    + apply Hnot. inversion Htc as [? ? He|? y ? He Hrest]; subst.
      * by apply Hdeps.
      * eapply settled_tc; [done | by apply Hdeps | done].
    + destruct Hset as [_ Hac]. by apply (Hac x).
Qed.

Lemma hasCycle_post fuel :
  ∀ id st r st',
    hasCycle fuel steps id st = Some (r, st') → cycle_post st [id] r st'.
Proof.
  induction fuel as [|fuel IH]; intros id st r st' Hrun; [done|].
  simpl in Hrun.
  case_bool_decide as Hstack.
  { inversion Hrun; subst. split; [done|]. split; [|done].
    intros Hpre _. exists id. apply Hpre; [done | left]. }
  case_bool_decide as Hvis.
  { inversion Hrun; subst. split; [done|]. split; [by intros _ ?|].
    intros _. split; [done|]. split; [|done].
    intros d ->%list_elem_of_singleton. by split. }
  destruct (find_step steps id) as [step|] eqn:Hfind.
  - destruct (first_cycle _ _ _) as [[[] st2]|] eqn:Hloop; try done.
    + inversion Hrun; subst.
      apply (first_cycle_post _ IH) in Hloop as (Hsub & Hsound & _); simpl in *.
      split; [set_solver|]. split; [|done].
      intros Hpre _. apply Hsound; [|done].
      intros x d Hx Hd.
      assert (He : edge id d) by (exists step; done).
      apply elem_of_union in Hx as [->%elem_of_singleton|Hx]; [by apply tc_once|].
      eapply tc_r; [|done]. apply Hpre; [done | left].
    + inversion Hrun; subst.
      apply (first_cycle_post _ IH) in Hloop as (Hsub & _ & Hfalse); simpl in *.
      destruct (Hfalse eq_refl) as (Hrs & Hfin & Hset).
      split; [set_solver|]. split; [by intros _ ?|].
      intros _. simpl. split; [rewrite Hrs; set_solver|]. split.
      * intros d ->%list_elem_of_singleton. split; simpl; set_solver.
      * intros Hst. apply settled_leave.
        -- set_solver.
        -- rewrite Hrs. set_solver.
        -- intros y (s & Hs & Hy). rewrite Hfind in Hs. inversion Hs; subst. by apply Hfin.
        -- apply Hset. by apply settled_mark.
  - inversion Hrun; subst.
    split; [simpl; set_solver|]. split; [by intros _ ?|].
    intros _. split; [simpl; set_solver|]. split.
    + intros d ->%list_elem_of_singleton. split; simpl; set_solver.
    + intros Hst.
      pose proof (settled_leave {| visited := {[id]} ∪ visited st;
                                   recursionStack := {[id]} ∪ recursionStack st |} id)
        as Hleave.
      simpl in Hleave. apply Hleave; [set_solver | set_solver | | by apply settled_mark].
      intros y (s & Hs & _). by rewrite Hfind in Hs.
Qed.

(** *** The fuel of [hasCyclicDependencies] is enough *)

Definition step_ids : gset string := list_to_set (map ps_id steps).

Definition unmarked (st : CycleSearch) : nat := size (step_ids ∖ visited st).

Lemma size_list_to_set_le (l : list string) :
  size (list_to_set l : gset string) ≤ length l.
Proof.
  induction l as [|x l IH].
  - by rewrite list_to_set_nil, size_empty.
  - rewrite list_to_set_cons, size_union_alt, size_singleton. simpl length.
    assert (size (list_to_set l ∖ {[x]} : gset string) ≤ size (list_to_set l : gset string))
      by (apply subseteq_size; set_solver).
    lia.
Qed.

Lemma unmarked_start : unmarked search_start < S (length steps).
Proof.
  unfold unmarked, step_ids. simpl.
  pose proof (size_list_to_set_le (map ps_id steps)) as Hle.
  rewrite length_map in Hle.
  assert (size (list_to_set (map ps_id steps) ∖ ∅ : gset string)
          ≤ size (list_to_set (map ps_id steps) : gset string))
    by (apply subseteq_size; set_solver).
  lia.
Qed.

Lemma unmarked_mono st st' : visited st ⊆ visited st' → unmarked st' ≤ unmarked st.
Proof. intros Hsub. unfold unmarked. apply subseteq_size. set_solver. Qed.

Lemma unmarked_mark st id :
  id ∈ step_ids → id ∉ visited st →
  unmarked {| visited := {[id]} ∪ visited st;
              recursionStack := {[id]} ∪ recursionStack st |} < unmarked st.
Proof.
  intros Hin Hnot. unfold unmarked. apply subset_size. simpl. set_solver.
Qed.

Lemma first_cycle_enough visit n :
  (∀ id st, unmarked st < n → is_Some (visit id st)) →
  (∀ id st r st', visit id st = Some (r, st') → visited st ⊆ visited st') →
  ∀ deps st, unmarked st < n → is_Some (first_cycle visit deps st).
Proof.
  intros Hsome Hmono. induction deps as [|d ds IH]; intros st Hlt; simpl; [done|].
  destruct (Hsome d st Hlt) as [[[] st1] Hd]; rewrite Hd; [done|].
  apply IH. apply Hmono in Hd. apply unmarked_mono in Hd. lia.
Qed.

Lemma hasCycle_enough fuel :
  ∀ id st, unmarked st < fuel → is_Some (hasCycle fuel steps id st).
Proof.
  induction fuel as [|fuel IH]; intros id st Hlt; [lia|].
  simpl. repeat case_bool_decide; try done.
  destruct (find_step steps id) as [step|] eqn:Hfind; [|done].
  assert (Hin : id ∈ step_ids).
  { apply find_step_Some in Hfind as [Hin <-]. unfold step_ids.
    apply elem_of_list_to_set, list_elem_of_fmap. eauto. }
  pose proof (unmarked_mark st id Hin ltac:(done)) as Hless.
  assert (Hlt1 : unmarked {| visited := {[id]} ∪ visited st;
                             recursionStack := {[id]} ∪ recursionStack st |} < fuel)
    by lia.
  destruct (first_cycle_enough (hasCycle fuel steps) fuel IH
              (λ id st r st' H, proj1 (hasCycle_post fuel id st r st' H))
              (ps_dependencies step) _ Hlt1) as [[[] st2] ->]; done.
Qed.

(** [hasCyclicDependencies] always returns, and returns [true] exactly
    for the plans whose dependency graph has a cycle. *)
Lemma hasCyclicDependencies_total : ∃ b, hasCyclicDependencies steps = Some b.
Proof.
  unfold hasCyclicDependencies.
  destruct (first_cycle_enough (hasCycle (S (length steps)) steps) (S (length steps))
              (hasCycle_enough _)
              (λ id st r st' H, proj1 (hasCycle_post _ id st r st' H))
              (map ps_id steps) search_start unmarked_start) as [[b st] ->].
  by exists b.
Qed.

Lemma hasCyclicDependencies_true : hasCyclicDependencies steps = Some true → cyclic.
Proof.
  unfold hasCyclicDependencies. intros H.
  destruct (first_cycle _ _ _) as [[b st]|] eqn:Hrun; simpl in H; [|done].
  injection H as ->.
  apply (first_cycle_post _ (hasCycle_post _)) in Hrun as (_ & Hsound & _).
  apply Hsound; [|done]. intros x d Hx. simpl in Hx. set_solver.
Qed.

Lemma hasCyclicDependencies_false : hasCyclicDependencies steps = Some false → ¬ cyclic.
Proof.
  unfold hasCyclicDependencies. intros H [a Ha].
  destruct (first_cycle _ _ _) as [[b st]|] eqn:Hrun; simpl in H; [|done].
  injection H as ->.
  apply (first_cycle_post _ (hasCycle_post _)) in Hrun as (_ & _ & Hfalse).
  destruct (Hfalse eq_refl) as (_ & Hfin & Hset).
  assert (Hstart : settled search_start).
  { split; [intros x y [Hx _] | intros x [Hx _]]; simpl in Hx; set_solver. }
  destruct (Hset Hstart) as [_ Hac].
  apply (Hac a); [|done].
  destruct (tc_source _ _ Ha) as [c Hc]. apply Hfin. by eapply edge_source.
Qed.

Lemma hasCyclicDependencies_spec :
  ∃ b, hasCyclicDependencies steps = Some b ∧ (b = true ↔ cyclic).
Proof.
  destruct hasCyclicDependencies_total as [b Hb]. exists b. split; [done|].
  destruct b.
  - split; [intros _; by apply hasCyclicDependencies_true | done].
  - split; [done | intros Hc; by apply hasCyclicDependencies_false in Hc].
Qed.

(** With distinct step ids, [steps.find] resolves an id to the one step
    that carries it, and the edges are the declared dependencies. *)
Definition depends_on (a b : string) : Prop :=
  ∃ s, s ∈ steps ∧ ps_id s = a ∧ b ∈ ps_dependencies s.

Lemma find_step_unique s :
  NoDup (map ps_id steps) → s ∈ steps → find_step steps (ps_id s) = Some s.
Proof.
  unfold find_step. induction steps as [|x l IH]; intros Hnd Hin.
  - by apply elem_of_nil in Hin.
  - simpl in *. apply NoDup_cons in Hnd as [Hx Hnd].
    apply elem_of_cons in Hin as [->|Hin]; [by rewrite String.eqb_refl|].
    destruct (String.eqb_spec (ps_id x) (ps_id s)) as [Heq|Hne]; [|by apply IH].
    destruct Hx. rewrite Heq. apply list_elem_of_fmap. eauto.
Qed.

Lemma edge_depends_on a b : NoDup (map ps_id steps) → edge a b ↔ depends_on a b.
Proof.
  intros Hnd. split.
  - intros (s & Hs & Hb). apply find_step_Some in Hs as [Hin Hid]. by exists s.
  - intros (s & Hin & <- & Hb). exists s. split; [by apply find_step_unique | done].
Qed.

Lemma cyclic_depends_on :
  NoDup (map ps_id steps) → cyclic ↔ ∃ a, tc depends_on a a.
Proof.
  intros Hnd. split; intros [a Ha]; exists a.
  - eapply (tc_congruence (λ x, x)); [|exact Ha]. intros x y. by apply edge_depends_on.
  - eapply (tc_congruence (λ x, x)); [|exact Ha]. intros x y. by apply edge_depends_on.
Qed.

End cycle_search.

(** *** The fuel of [topologicalSort] is enough *)

Section topological_sort.
Variable steps : list PlanStep.

Definition not_visiting (st : TopoSort) : nat := size (step_ids steps ∖ ts_visiting st).

Definition returns (r : Res TopoSort) : Prop := r ≠ OutOfFuel.

Lemma visit_each_visiting visit :
  (∀ id st st', visit id st = Ok st' → ts_visiting st' = ts_visiting st) →
  ∀ deps st st', visit_each visit deps st = Ok st' → ts_visiting st' = ts_visiting st.
Proof.
  intros Hvisit. induction deps as [|d ds IH]; intros st st' Hrun; simpl in Hrun.
  - by inversion Hrun.
  - destruct (visit d st) as [st1| |] eqn:Hd; try done.
    apply Hvisit in Hd. apply IH in Hrun. congruence.
Qed.

Lemma visit_visiting fuel :
  ∀ id st st', visit fuel steps id st = Ok st' → ts_visiting st' = ts_visiting st.
Proof.
  induction fuel as [|fuel IH]; intros id st st' Hrun; [done|].
  simpl in Hrun. repeat case_bool_decide; try by inversion Hrun.
  destruct (find_step steps id) as [step|] eqn:Hfind.
  - destruct (visit_each _ _ _) as [st2| |] eqn:Hloop; try done.
    inversion Hrun; subst; simpl.
    apply (visit_each_visiting _ IH) in Hloop. rewrite Hloop. simpl. set_solver.
  - inversion Hrun; subst; simpl. set_solver.
Qed.

Lemma visit_each_enough visit n :
  (∀ id st, not_visiting st < n → returns (visit id st)) →
  (∀ id st st', visit id st = Ok st' → ts_visiting st' = ts_visiting st) →
  ∀ deps st, not_visiting st < n → returns (visit_each visit deps st).
Proof.
  intros Hret Hsame. induction deps as [|d ds IH]; intros st Hlt; simpl; [done|].
  pose proof (Hret d st Hlt) as Hd.
  destruct (visit d st) as [st1| |] eqn:Hrun; try done.
  apply IH. unfold not_visiting in *. by rewrite (Hsame _ _ _ Hrun).
Qed.

Lemma visit_enough fuel :
  ∀ id st, not_visiting st < fuel → returns (visit fuel steps id st).
Proof.
  induction fuel as [|fuel IH]; intros id st Hlt; [lia|].
  simpl. repeat case_bool_decide; try done.
  destruct (find_step steps id) as [step|] eqn:Hfind; [|done].
  assert (Hin : id ∈ step_ids steps).
  { apply find_step_Some in Hfind as [Hin <-]. unfold step_ids.
    apply elem_of_list_to_set, list_elem_of_fmap. eauto. }
  assert (Hlt1 : not_visiting {| sorted := sorted st; ts_visited := ts_visited st;
                                 ts_visiting := {[id]} ∪ ts_visiting st |} < fuel).
  { assert (not_visiting {| sorted := sorted st; ts_visited := ts_visited st;
                            ts_visiting := {[id]} ∪ ts_visiting st |} < not_visiting st);
      [|lia].
    unfold not_visiting. apply subset_size. simpl. set_solver. }
  pose proof (visit_each_enough (visit fuel steps) fuel IH (visit_visiting fuel)
                (ps_dependencies step) _ Hlt1) as Hloop.
  destruct (visit_each _ _ _); done.
Qed.

(** [topologicalSort] returns a list or throws; it never runs out of fuel. *)
Lemma topologicalSort_total : topologicalSort steps ≠ OutOfFuel.
Proof.
  unfold topologicalSort.
  assert (Hstart : not_visiting sort_start < S (length steps)).
  { pose proof (unmarked_start steps) as H. unfold unmarked in H. simpl in H.
    unfold not_visiting. simpl. lia. }
  pose proof (visit_each_enough (visit (S (length steps)) steps) (S (length steps))
                (visit_enough _) (visit_visiting _) (map ps_id steps) _ Hstart) as Hloop.
  destruct (visit_each _ _ _); done.
Qed.

End topological_sort.

(** *** The execution loop *)

Lemma depsSatisfied_spec step results :
  depsSatisfied step results = true ↔
  ∀ dep, dep ∈ ps_dependencies step →
    ∃ r, r ∈ results ∧ sr_stepId r = dep ∧ sr_success r = true.
Proof.
  unfold depsSatisfied. rewrite forallb_forall. split.
  - intros H dep Hdep. apply list_elem_of_In in Hdep.
    apply H, existsb_exists in Hdep as (r & Hr & Hb).
    apply andb_true_iff in Hb as [Hid Hs]. apply String.eqb_eq in Hid.
    exists r. by rewrite list_elem_of_In.
  - intros H dep Hdep. apply list_elem_of_In, H in Hdep as (r & Hr & Hid & Hs).
    apply existsb_exists. exists r. rewrite <- list_elem_of_In.
    split; [done|]. apply andb_true_iff. by rewrite String.eqb_eq.
Qed.

Section execution.
Variable context : PlanExecutionContext.
Variable elapsed : PlanStep → Z.

(** The result the loop appends for [step] when [results] are the results
    so far, and whether it leaves the loop after appending it. *)
Definition step_result (step : PlanStep) (results : list StepResult) : StepResult :=
  if depsSatisfied step results
  then executeStep step context results (elapsed step)
  else failedResult step.

Definition breaks (step : PlanStep) (results : list StepResult) : bool :=
  depsSatisfied step results
  && negb (sr_success (executeStep step context results (elapsed step)))
  && negb (JS.truthy_opt_str (ps_fallbackStrategy step)).

(** [Ran prior todo new halted]: from the results [prior] the loop over
    [todo] appends [new] and leaves by [break] iff [halted]. *)
Inductive Ran : list StepResult → list PlanStep → list StepResult → bool → Prop :=
  | Ran_done prior : Ran prior [] [] false
  | Ran_break prior step rest :
      breaks step prior = true →
      Ran prior (step :: rest) [step_result step prior] true
  | Ran_next prior step rest new halted :
      breaks step prior = false →
      Ran (prior ++ [step_result step prior]) rest new halted →
      Ran prior (step :: rest) (step_result step prior :: new) halted.

Lemma run_steps_Ran todo :
  ∀ acc, ex_halted acc = false →
    ∃ new,
      ex_results (run_steps context elapsed todo acc) = ex_results acc ++ new ∧
      Ran (ex_results acc) todo new (ex_halted (run_steps context elapsed todo acc)).
Proof.
  induction todo as [|step rest IH]; intros acc Hacc; simpl.
  - exists []. rewrite app_nil_r, Hacc. split; [done | constructor].
  - destruct (depsSatisfied step (ex_results acc)) eqn:Hdeps; simpl.
    + destruct (negb (sr_success _) && negb _) eqn:Hstop; simpl.
      * exists [step_result step (ex_results acc)]. unfold step_result. rewrite Hdeps.
        split; [done|]. pose proof (Ran_break (ex_results acc) step rest) as Hb.
        unfold step_result, breaks in Hb. rewrite Hdeps in Hb. by apply Hb.
      * edestruct IH as (new & Hres & Hran); [|rewrite Hres; simpl]; [done|].
        exists (step_result step (ex_results acc) :: new).
        unfold step_result at 1. rewrite Hdeps, <- app_assoc. split; [done|].
        apply Ran_next; [by unfold breaks; rewrite Hdeps|].
        unfold step_result. by rewrite Hdeps.
    + edestruct IH as (new & Hres & Hran); [|rewrite Hres; simpl]; [done|].
      exists (step_result step (ex_results acc) :: new).
      unfold step_result at 1. rewrite Hdeps, <- app_assoc. split; [done|].
      apply Ran_next; [by unfold breaks; rewrite Hdeps|].
      unfold step_result. by rewrite Hdeps.
Qed.

Lemma Ran_length prior todo new halted :
  Ran prior todo new halted → length new ≤ length todo.
Proof. induction 1; simpl; lia. Qed.

Lemma Ran_lookup prior todo new halted :
  Ran prior todo new halted →
  ∀ i r, new !! i = Some r →
    ∃ step, todo !! i = Some step ∧ r = step_result step (prior ++ take i new).
Proof.
  induction 1 as [|prior step rest Hb|prior step rest new halted Hb Hran IH];
    intros i r Hi.
  - done.
  - destruct i as [|i]; [|done]. simpl in Hi. inversion Hi; subst.
    exists step. by rewrite take_0, app_nil_r.
  - destruct i as [|i]; simpl in Hi.
    + inversion Hi; subst. exists step. by rewrite take_0, app_nil_r.
    + apply IH in Hi as (step' & Hs & ->). exists step'. split; [done|].
      simpl. by rewrite <- app_assoc.
Qed.

Lemma Ran_halted prior todo new :
  Ran prior todo new true →
  ∃ i step, length new = S i ∧ todo !! i = Some step ∧
            breaks step (prior ++ take i new) = true.
Proof.
  intros H. remember true as halted eqn:Hh.
  induction H as [|prior step rest Hb|prior step rest new halted Hb Hran IH]; [done| |].
  - exists 0, step. by rewrite take_0, app_nil_r.
  - destruct (IH Hh) as (i & step' & Hlen & Hs & Hbr).
    exists (S i), step'. simpl. rewrite Hlen. split; [done|]. split; [done|].
    by rewrite <- app_assoc in Hbr.
Qed.

Lemma Ran_completed prior todo new :
  Ran prior todo new false → length new = length todo.
Proof.
  intros H. remember false as halted eqn:Hh.
  induction H; simpl; [done | done | auto].
Qed.

Lemma Ran_breaks prior todo new halted :
  Ran prior todo new halted →
  ∀ i step, todo !! i = Some step → i < length new →
    breaks step (prior ++ take i new) = true → halted = true ∧ length new = S i.
Proof.
  induction 1 as [|prior step rest Hb|prior step rest new halted Hb Hran IH];
    intros i st Hs Hi Hbr.
  - simpl in Hi. lia.
  - simpl in Hi. assert (i = 0) as -> by lia. done.
  - destruct i as [|i]; simpl in *.
    + inversion Hs; subst. rewrite app_nil_r in Hbr. congruence.
    + replace (prior ++ step_result step prior :: take i new)
        with ((prior ++ [step_result step prior]) ++ take i new) in Hbr
        by (by rewrite <- app_assoc).
      destruct (IH i st Hs ltac:(lia) Hbr) as [-> ->]. done.
Qed.

Lemma executeStep_id step ctx results t :
  sr_stepId (executeStep step ctx results t) = ps_id step.
Proof.
  unfold executeStep. destruct (flat_map _ _); [by destruct (step_body _ _) | done].
Qed.

Lemma step_result_id step results : sr_stepId (step_result step results) = ps_id step.
Proof.
  unfold step_result. destruct (depsSatisfied step results); [apply executeStep_id | done].
Qed.

Lemma run_steps_prefix todo :
  ∀ acc, ex_results acc `prefix_of` ex_results (run_steps context elapsed todo acc).
Proof.
  induction todo as [|step rest IH]; intros acc; simpl; [done|].
  destruct (depsSatisfied step (ex_results acc)); simpl.
  - destruct (negb (sr_success _) && negb _); simpl.
    + by apply prefix_app_r.
    + etrans; [|apply IH]. simpl. by apply prefix_app_r.
  - etrans; [|apply IH]. simpl. by apply prefix_app_r.
Qed.

(** Every call of [executeStep] the loop makes is for a step of [todo]
    whose dependencies all have a successful result among the results it
    is handed, and the result of the call is appended right after them. *)
Lemma run_steps_invoked todo :
  ∀ acc inv, inv ∈ ex_invoked (run_steps context elapsed todo acc) →
    inv ∈ ex_invoked acc ∨
    (inv_step inv ∈ todo ∧
     depsSatisfied (inv_step inv) (inv_previousResults inv) = true ∧
     (inv_previousResults inv ++
        [executeStep (inv_step inv) context (inv_previousResults inv) (elapsed (inv_step inv))])
       `prefix_of` ex_results (run_steps context elapsed todo acc)).
Proof.
  induction todo as [|step rest IH]; intros acc inv Hin; simpl in *; [by left|].
  destruct (depsSatisfied step (ex_results acc)) eqn:Hdeps; simpl in *.
  - assert (Hhere : ∀ l,
      (ex_results acc ++ [executeStep step context (ex_results acc) (elapsed step)])
        `prefix_of` l →
      inv ∈ ex_invoked acc ++ [{| inv_step := step; inv_previousResults := ex_results acc |}] →
      inv ∈ ex_invoked acc ∨
      (inv_step inv ∈ step :: rest ∧
       depsSatisfied (inv_step inv) (inv_previousResults inv) = true ∧
       (inv_previousResults inv ++
          [executeStep (inv_step inv) context (inv_previousResults inv)
             (elapsed (inv_step inv))]) `prefix_of` l)).
    { intros l Hl [Hold|Hnew%list_elem_of_singleton]%elem_of_app; [by left|].
      subst inv; simpl. right. split; [left|]. done. }
    destruct (negb (sr_success _) && negb _); simpl in *.
    + by apply Hhere.
    + apply IH in Hin as [Hin|(Hs & Hd & Hp)]; simpl in *.
      * apply Hhere; [|done].
        apply (run_steps_prefix rest
                 {| ex_results := ex_results acc ++ [_]; ex_invoked := _; ex_halted := false |}).
      * right. split; [by right | done].
  - apply IH in Hin as [Hin|(Hs & Hd & Hp)]; simpl in *; [by left|].
    right. split; [by right | done].
Qed.

End execution.

(** *** [executePlan] *)

Lemma visit_visited fuel steps id st :
  id ∈ ts_visited st → visit (S fuel) steps id st = Ok st.
Proof. intros H. simpl. by rewrite bool_decide_eq_true_2. Qed.

Lemma visit_fresh fuel steps id st step :
  id ∉ ts_visited st → id ∉ ts_visiting st → find_step steps id = Some step →
  visit (S fuel) steps id st =
  match visit_each (visit fuel steps) (ps_dependencies step)
          {| sorted := sorted st; ts_visited := ts_visited st;
             ts_visiting := {[id]} ∪ ts_visiting st |} with
  | Ok st2 => Ok {| sorted := sorted st2 ++ [step];
                    ts_visited := {[id]} ∪ ts_visited st2;
                    ts_visiting := ts_visiting st2 ∖ {[id]} |}
  | r => r
  end.
Proof.
  intros H1 H2 H3. simpl. rewrite !bool_decide_eq_false_2 by done. by rewrite H3.
Qed.

(** A step without dependencies followed by a step that depends on it is
    already in execution order. *)
Lemma topologicalSort_pair A B :
  ps_dependencies A = [] → ps_dependencies B = [ps_id A] → ps_id A ≠ ps_id B →
  topologicalSort [A; B] = Ok [A; B].
Proof.
  intros HA HB Hne. unfold topologicalSort.
  assert (HfA : find_step [A; B] (ps_id A) = Some A).
  { unfold find_step. simpl. by rewrite String.eqb_refl. }
  assert (HfB : find_step [A; B] (ps_id B) = Some B).
  { unfold find_step. simpl. apply String.eqb_neq in Hne. by rewrite Hne, String.eqb_refl. }
  change (map ps_id [A; B]) with [ps_id A; ps_id B].
  change (S (length [A; B])) with 3.
  cbn [visit_each].
  rewrite (visit_fresh _ _ _ _ A) by (done || set_solver).
  rewrite HA. cbn [visit_each sorted ts_visited ts_visiting sort_start].
  rewrite (visit_fresh _ _ _ _ B) by (done || (simpl; set_solver)).
  rewrite HB. cbn [visit_each sorted ts_visited ts_visiting sort_start].
  rewrite visit_visited by (simpl; set_solver).
  done.
Qed.

Lemma executePlan_total self planId context elapsed :
  executePlan self planId context elapsed ≠ OutOfFuel.
Proof.
  unfold executePlan. destruct (activePlans self !! planId) as [plan|]; [|done].
  pose proof (topologicalSort_total (hp_steps plan)).
  destruct (topologicalSort (hp_steps plan)); done.
Qed.

Lemma executePlan_Ok self planId context elapsed self' run :
  executePlan self planId context elapsed = Ok (self', run) →
  ∃ plan sortedSteps,
    activePlans self !! planId = Some plan ∧
    topologicalSort (hp_steps plan) = Ok sortedSteps ∧
    run = run_steps context elapsed sortedSteps execution_start.
Proof.
  unfold executePlan. intros H.
  destruct (activePlans self !! planId) as [plan|]; [|done].
  destruct (topologicalSort (hp_steps plan)) as [sortedSteps| |] eqn:Hsort; [|done..].
  inversion H; subst. by exists plan, sortedSteps.
Qed.

(** Two stored plans, run against a registry that lacks the tool [deploy].
    In [plan_AB] step A declares no fallback; in [plan_ABC] it does. *)
Definition step_A (fallback : option string) : PlanStep :=
  {| ps_id := "A"; ps_title := "First"; ps_description := "";
     ps_type := tool_call; ps_dependencies := [];
     ps_estimatedComplexity := low; ps_requiredTools := ["deploy"];
     ps_expectedOutput := None; ps_validationCriteria := None;
     ps_fallbackStrategy := fallback |}.

Definition step_B : PlanStep :=
  {| ps_id := "B"; ps_title := "Second"; ps_description := "";
     ps_type := analysis; ps_dependencies := ["A"];
     ps_estimatedComplexity := low; ps_requiredTools := [];
     ps_expectedOutput := None; ps_validationCriteria := None;
     ps_fallbackStrategy := None |}.

Definition step_C : PlanStep :=
  {| ps_id := "C"; ps_title := "Third"; ps_description := "";
     ps_type := analysis; ps_dependencies := [];
     ps_estimatedComplexity := low; ps_requiredTools := [];
     ps_expectedOutput := None; ps_validationCriteria := None;
     ps_fallbackStrategy := None |}.

Definition plan_of (steps : list PlanStep) : HierarchicalPlan :=
  {| hp_id := "p"; hp_title := "t"; hp_description := "g"; hp_goal := "g";
     hp_steps := steps; hp_estimatedDuration := 0; hp_riskLevel := risk_low;
     hp_createdAt := 0; hp_availableTools := ["ls"]; hp_contextConstraints := [] |}.

Definition planner_with (steps : list PlanStep) : HierarchicalPlanner :=
  {| toolRegistry := ["ls"];
     activePlans := {[ "p" := plan_of steps ]};
     executionResults := ∅ |}.

Definition context_ls : PlanExecutionContext :=
  {| ctx_currentStep := 0; ctx_completedSteps := []; ctx_availableTools := ["ls"];
     ctx_toolRegistry := ["ls"]; ctx_userGoal := "g"; ctx_workingDirectory := "/";
     ctx_timeoutMs := 1000 |}.

Definition no_time : PlanStep → Z := λ _, 0%Z.

(** *** The properties of the plan engine *)

Lemma circular_not_tool_error allTools steps :
  circular_error ∉ tool_errors allTools steps.
Proof.
  unfold tool_errors. intros H. apply list_elem_of_In, in_flat_map in H as (step & _ & H).
  apply in_flat_map in H as (tool & _ & H).
  destruct (negb _); simpl in H; [|done]. by destruct H as [H|[]].
Qed.

Lemma circular_not_orphan_error steps : circular_error ∉ orphan_errors steps.
Proof.
  unfold orphan_errors. intros H. apply list_elem_of_In, in_flat_map in H as (step & _ & H).
  apply in_flat_map in H as (dep & _ & H).
  case_bool_decide; simpl in H; [done|]. by destruct H as [H|[]].
Qed.

Lemma validatePlan_total self plan : ∃ r, validatePlan self plan = Some r.
Proof.
  unfold validatePlan.
  destruct (hasCyclicDependencies_total (hp_steps plan)) as [cyc ->]. by eexists.
Qed.

Lemma createPlan_total self planId now goal context constraints :
  createPlan self planId now goal context constraints ≠ OutOfFuel.
Proof.
  unfold createPlan.
  destruct (validatePlan_total self
              {| hp_id := planId; hp_title := extractPlanTitle goal;
                 hp_description := goal; hp_goal := goal;
                 hp_steps := decomposeGoal goal context (toolRegistry self) constraints;
                 hp_estimatedDuration := 0; hp_riskLevel := risk_medium;
                 hp_createdAt := now; hp_availableTools := toolRegistry self;
                 hp_contextConstraints := constraints |}) as (r & ->).
  by destruct (negb (vr_isValid r)).
Qed.

(** C4 (validatePlan reports a circular dependency exactly for cyclic
    plans).  For every planner and plan, [validatePlan] returns, and the
    error "Plan contains circular dependencies" is among its errors if and
    only if some step id reaches itself through one or more dependency
    edges, where the dependencies of an id are those of the step
    [steps.find] resolves it to (with distinct step ids: the dependencies
    the step with that id declares); a plan that reports the error is
    invalid, so in particular a plan in which A depends on B, B on C and C
    on A is invalid. *)
Theorem validatePlan_circular (self : HierarchicalPlanner) (plan : HierarchicalPlan) :
  ∃ r, validatePlan self plan = Some r ∧
       (circular_error ∈ vr_errors r ↔ cyclic (hp_steps plan)) ∧
       (NoDup (map ps_id (hp_steps plan)) →
        (circular_error ∈ vr_errors r ↔ ∃ a, tc (depends_on (hp_steps plan)) a a)) ∧
       (circular_error ∈ vr_errors r → vr_isValid r = false) ∧
       (∀ a b c sa sb sc,
          find_step (hp_steps plan) a = Some sa → b ∈ ps_dependencies sa →
          find_step (hp_steps plan) b = Some sb → c ∈ ps_dependencies sb →
          find_step (hp_steps plan) c = Some sc → a ∈ ps_dependencies sc →
          circular_error ∈ vr_errors r ∧ vr_isValid r = false).
Proof.
  destruct (hasCyclicDependencies_spec (hp_steps plan)) as (cyc & Hcyc & Hiff).
  unfold validatePlan. rewrite Hcyc. simpl. eexists. split; [done|]. simpl.
  assert (Hin : circular_error ∈
                  (if cyc then [circular_error] else []) ++
                  tool_errors (toolRegistry self) (hp_steps plan) ++
                  orphan_errors (hp_steps plan) ↔ cyclic (hp_steps plan)).
  { rewrite <- Hiff. rewrite !elem_of_app. split.
    - intros [H|[H|H]].
      + destruct cyc; [done | by apply elem_of_nil in H].
      + by apply circular_not_tool_error in H.
      + by apply circular_not_orphan_error in H.
    - intros ->. left. left. }
  assert (Hinvalid : cyclic (hp_steps plan) →
            (length ((if cyc then [circular_error] else []) ++
                     tool_errors (toolRegistry self) (hp_steps plan) ++
                     orphan_errors (hp_steps plan)) =? 0) = false).
  { intros Hc. apply Hiff in Hc as ->. done. }
  split; [done|]. split; [|split; [by intros H%Hin%Hinvalid|]].
  - intros Hnd. by rewrite Hin, (cyclic_depends_on _ Hnd).
  - intros a b c sa sb sc Ha Hab Hb Hbc Hc Hca.
    assert (Hcycle : cyclic (hp_steps plan)).
    { exists a. eapply tc_l; [by exists sa|]. eapply tc_l; [by exists sb|].
      apply tc_once. by exists sc. }
    split; [by apply Hin | by apply Hinvalid].
Qed.

Lemma arr_includes_In l x : JS.arr_includes l x = true ↔ x ∈ l.
Proof.
  unfold JS.arr_includes. rewrite existsb_exists, list_elem_of_In. split.
  - intros (y & Hy & Heq). apply String.eqb_eq in Heq. by subst.
  - intros H. exists x. by rewrite String.eqb_refl.
Qed.

Lemma tool_errors_nil allTools steps :
  (∀ step tool, step ∈ steps → tool ∈ ps_requiredTools step → tool ∈ allTools) →
  tool_errors allTools steps = [].
Proof.
  intros H. unfold tool_errors.
  induction steps as [|step rest IH]; [done|]. cbn [flat_map].
  rewrite IH by (intros s t Hs; apply H; by right).
  assert (Hstep : ∀ tool, tool ∈ ps_requiredTools step → tool ∈ allTools)
    by (intros t; apply H; left).
  clear H IH. rewrite app_nil_r.
  induction (ps_requiredTools step) as [|tool tools IH]; [done|]. cbn [flat_map].
  rewrite (proj2 (arr_includes_In allTools tool)) by (apply Hstep; left).
  cbn [negb app]. apply IH. intros t Ht. apply Hstep. by right.
Qed.

(** [createPlan] succeeds for every goal as soon as the three tools of the
    fixed analysis step are registered. *)
Lemma createPlan_succeeds self planId now goal context constraints :
  "read_file" ∈ toolRegistry self → "ls" ∈ toolRegistry self → "grep" ∈ toolRegistry self →
  ∃ self' plan, createPlan self planId now goal context constraints = Ok (self', plan).
Proof.
  intros Hr Hl Hg. unfold createPlan.
  assert (Hvalid : ∃ r, validatePlan self
              {| hp_id := planId; hp_title := extractPlanTitle goal;
                 hp_description := goal; hp_goal := goal;
                 hp_steps := decomposeGoal goal context (toolRegistry self) constraints;
                 hp_estimatedDuration := 0; hp_riskLevel := risk_medium;
                 hp_createdAt := now; hp_availableTools := toolRegistry self;
                 hp_contextConstraints := constraints |} = Some r ∧ vr_isValid r = true).
  { unfold validatePlan. cbn [hp_steps].
    assert (Htools : tool_errors (toolRegistry self)
                       (decomposeGoal goal context (toolRegistry self) constraints) = []).
    { apply tool_errors_nil. intros step tool Hs Ht. unfold decomposeGoal in Hs.
      destruct (isFileSystemTask goal), (isCodeTask goal), (isAnalysisTask goal);
        cbn in Hs; set_unfold; destruct_or!; subst; cbn in Ht; set_unfold;
        try (destruct_or!; subst; done);
        by apply (subseteq_take 3). }
    rewrite Htools. unfold decomposeGoal.
    destruct (isFileSystemTask goal), (isCodeTask goal), (isAnalysisTask goal);
      vm_compute; eexists; split; reflexivity. }
  destruct Hvalid as (r & -> & Hv). rewrite Hv. cbn [negb]. by eexists _, _.
Qed.

(** C9 (creating then validating a plan).  When [createPlan] succeeds,
    [validatePlan] on the plan it returns, by the planner it leaves or by
    any planner with the same registered tools, returns [isValid = true]. *)
Theorem createPlan_then_validatePlan
    (self : HierarchicalPlanner) (planId : string) (now : Z) (goal context : string)
    (constraints : list string) (self' : HierarchicalPlanner) (plan : HierarchicalPlan) :
  createPlan self planId now goal context constraints = Ok (self', plan) →
  toolRegistry self' = toolRegistry self ∧
  ∀ other, toolRegistry other = toolRegistry self →
    ∃ r, validatePlan other plan = Some r ∧ vr_isValid r = true.
Proof.
  unfold createPlan. intros H.
  destruct (validatePlan self _) as [validation|] eqn:Hval; [|done].
  destruct (vr_isValid validation) eqn:Hvalid; simpl in H; [|done].
  inversion H; subst; clear H. split; [done|].
  intros other Hother. exists validation. split; [|done].
  unfold validatePlan in *. simpl in *. by rewrite Hother.
Qed.

Definition planner_rlg : HierarchicalPlanner :=
  {| toolRegistry := ["read_file"; "ls"; "grep"];
     activePlans := ∅; executionResults := ∅ |}.

Lemma createPlan_then_validatePlan_witness :
  ∃ self' plan,
    createPlan planner_rlg "plan_1" 0 "list the files" "" [] = Ok (self', plan) ∧
    ∃ r, validatePlan self' plan = Some r ∧ vr_isValid r = true.
Proof.
  assert (H : ∃ sp, createPlan planner_rlg "plan_1" 0 "list the files" "" [] = Ok sp).
  { eexists. vm_compute. reflexivity. }
  destruct H as [[self' plan] H]. exists self', plan. split; [exact H|].
  destruct (createPlan_then_validatePlan
              planner_rlg "plan_1" 0 "list the files" "" [] self' plan H) as [Hreg Hall].
  apply Hall. exact Hreg.
Defined.

(** A plan whose three steps depend on each other in a circle. *)
Definition step_in_circle (id dep : string) : PlanStep :=
  {| ps_id := id; ps_title := id; ps_description := "";
     ps_type := analysis; ps_dependencies := [dep];
     ps_estimatedComplexity := low; ps_requiredTools := [];
     ps_expectedOutput := None; ps_validationCriteria := Some ["done"];
     ps_fallbackStrategy := None |}.

Example validatePlan_three_cycle :
  validatePlan planner_rlg
    (plan_of [step_in_circle "A" "B"; step_in_circle "B" "C"; step_in_circle "C" "A"])
  = Some {| vr_isValid := false; vr_errors := [circular_error];
            vr_warnings := []; vr_suggestions := [] |}.
Proof. by vm_compute. Qed.

(** C2 (dependencies gate the step body), as the code has it.  For every
    stored plan and execution context [executePlan] returns or throws, and
    when it returns, every call of [executeStep] it made was for a step
    all of whose dependency ids had a successful result among the results
    accumulated before the call.  For a plan of a step A without
    dependencies and a step B that depends on A, where the execution of A
    fails: A is the only step whose body is invoked; when A declares a
    non-empty [fallbackStrategy] the returned list is A's result followed
    by a result for B with [success = false] and no tool used; when A
    declares none the loop stops after A and the list holds A's result
    alone. *)
Theorem executePlan_dependency_gate
    (self : HierarchicalPlanner) (planId : string)
    (context : PlanExecutionContext) (elapsed : PlanStep → Z) :
  executePlan self planId context elapsed ≠ OutOfFuel ∧
  ∀ self' run, executePlan self planId context elapsed = Ok (self', run) →
    (∀ inv, inv ∈ ex_invoked run →
       (∀ dep, dep ∈ ps_dependencies (inv_step inv) →
          ∃ r, r ∈ inv_previousResults inv ∧ sr_stepId r = dep ∧ sr_success r = true) ∧
       inv_previousResults inv `prefix_of` ex_results run) ∧
    (∀ plan A B,
       activePlans self !! planId = Some plan → hp_steps plan = [A; B] →
       ps_dependencies A = [] → ps_dependencies B = [ps_id A] → ps_id A ≠ ps_id B →
       sr_success (executeStep A context [] (elapsed A)) = false →
       ex_invoked run = [{| inv_step := A; inv_previousResults := [] |}] ∧
       (∀ r, r ∈ ex_results run → sr_stepId r = ps_id B →
             sr_success r = false ∧ sr_toolsUsed r = []) ∧
       ex_results run =
         if JS.truthy_opt_str (ps_fallbackStrategy A)
         then [executeStep A context [] (elapsed A); failedResult B]
         else [executeStep A context [] (elapsed A)]).
Proof.
  split; [apply executePlan_total|]. intros self' run Hrun.
  apply executePlan_Ok in Hrun as (plan & sortedSteps & Hplan & Hsort & ->).
  split.
  - intros inv Hinv.
    apply run_steps_invoked in Hinv as [Hinv|(_ & Hdeps & Hpre)];
      [by apply elem_of_nil in Hinv|].
    split; [by apply depsSatisfied_spec|].
    etrans; [|exact Hpre]. by apply prefix_app_r.
  - intros plan' A B Hplan' Hsteps HA HB Hne Hfail.
    rewrite Hplan in Hplan'. inversion Hplan'; subst plan'; clear Hplan'.
    rewrite Hsteps, (topologicalSort_pair A B HA HB Hne) in Hsort.
    inversion Hsort; subst sortedSteps; clear Hsort.
    assert (HdA : depsSatisfied A [] = true) by (unfold depsSatisfied; by rewrite HA).
    assert (HdB : depsSatisfied B [executeStep A context [] (elapsed A)] = false).
    { unfold depsSatisfied. rewrite HB. simpl. rewrite Hfail.
      by rewrite andb_false_r. }
    cbn [run_steps execution_start ex_results ex_invoked].
    rewrite HdA, Hfail. cbn [negb andb app].
    destruct (JS.truthy_opt_str (ps_fallbackStrategy A)); cbn [negb run_steps ex_results].
    + rewrite HdB. cbn [negb run_steps ex_results ex_invoked app].
      split; [done|]. split; [|done].
      intros r [->|[->|[]%elem_of_nil]%elem_of_cons]%elem_of_cons Hid; [|done].
      destruct Hne. symmetry. revert Hid. unfold executeStep.
      destruct (flat_map _ _); [destruct (step_body _ _)|]; done.
    + split; [done|]. split; [|done].
      intros r [->|[]%elem_of_nil]%elem_of_cons Hid.
      destruct Hne. symmetry. revert Hid. unfold executeStep.
      destruct (flat_map _ _); [destruct (step_body _ _)|]; done.
Qed.

(** C2 as stated fails: with a step A that declares no fallback, the loop
    stops at the failure of A and the returned list has no result for B. *)
Lemma executePlan_no_result_for_dependent :
  ∃ self' run,
    executePlan (planner_with [step_A None; step_B]) "p" context_ls no_time
      = Ok (self', run) ∧
    sr_success (executeStep (step_A None) context_ls [] 0) = false ∧
    ¬ ∃ r, r ∈ ex_results run ∧ sr_stepId r = "B".
Proof.
  eexists _, _. split; [vm_compute; reflexivity|]. split; [by vm_compute|].
  intros (r & Hr & Hid). cbn [ex_results] in Hr.
  apply list_elem_of_singleton in Hr. subst r. discriminate Hid.
Qed.

(** C3 (when the loop halts early), as the code has it.  For every stored
    plan and execution context [executePlan] returns or throws, and when
    it returns, with [sortedSteps] the topological order: the loop leaves
    the i-th result belongs to the i-th step of the order; the loop leaves
    by [break] if and only if some step whose body was invoked (its
    dependencies were satisfied) failed and has no non-empty
    [fallbackStrategy]; that step's result is then the last one, so the
    steps after it get no result; without a [break] every step of the
    order gets a result; and after a failed result of a step that has a
    non-empty [fallbackStrategy], or that failed because a dependency was
    not satisfied, the next step of the order gets a result too. *)
Theorem executePlan_halts_iff
    (self : HierarchicalPlanner) (planId : string)
    (context : PlanExecutionContext) (elapsed : PlanStep → Z) :
  executePlan self planId context elapsed ≠ OutOfFuel ∧
  ∀ self' run, executePlan self planId context elapsed = Ok (self', run) →
    ∃ plan sortedSteps,
      activePlans self !! planId = Some plan ∧
      topologicalSort (hp_steps plan) = Ok sortedSteps ∧
      (∀ i r, ex_results run !! i = Some r →
         ∃ step, sortedSteps !! i = Some step ∧ sr_stepId r = ps_id step) ∧
      (ex_halted run = true ↔
         ∃ i step r,
           sortedSteps !! i = Some step ∧ ex_results run !! i = Some r ∧
           depsSatisfied step (take i (ex_results run)) = true ∧
           sr_success r = false ∧
           JS.truthy_opt_str (ps_fallbackStrategy step) = false) ∧
      (∀ i step r,
         sortedSteps !! i = Some step → ex_results run !! i = Some r →
         depsSatisfied step (take i (ex_results run)) = true →
         sr_success r = false →
         JS.truthy_opt_str (ps_fallbackStrategy step) = false →
         length (ex_results run) = S i) ∧
      (ex_halted run = false → length (ex_results run) = length sortedSteps) ∧
      (∀ i step r,
         sortedSteps !! i = Some step → ex_results run !! i = Some r →
         sr_success r = false →
         JS.truthy_opt_str (ps_fallbackStrategy step) = true ∨
           depsSatisfied step (take i (ex_results run)) = false →
         S i < length sortedSteps →
         is_Some (ex_results run !! S i)).
Proof.
  split; [apply executePlan_total|]. intros self' run Hrun.
  apply executePlan_Ok in Hrun as (plan & sortedSteps & Hplan & Hsort & ->).
  exists plan, sortedSteps. split; [done|]. split; [done|].
  destruct (run_steps_Ran context elapsed sortedSteps execution_start eq_refl)
    as (new & Hres & Hran).
  simpl in Hres, Hran. rewrite Hres.
  set (halted := ex_halted _) in *. clearbody halted.
  assert (Hbreaks : ∀ i step r,
    sortedSteps !! i = Some step → new !! i = Some r →
    breaks context elapsed step (take i new) = true ↔
    depsSatisfied step (take i new) = true ∧ sr_success r = false ∧
    JS.truthy_opt_str (ps_fallbackStrategy step) = false).
  { intros i step r Hs Hr.
    destruct (Ran_lookup _ _ _ _ _ _ Hran i r Hr) as (step' & Hs' & Heq).
    rewrite Hs in Hs'. inversion Hs'; subst step'; clear Hs'. simpl in Heq.
    unfold breaks. unfold step_result in Heq.
    destruct (depsSatisfied step (take i new)); simpl; [|by split; [|intros []]].
    subst r. rewrite andb_true_iff, !negb_true_iff. tauto. }
  assert (Hstop : ∀ i step r,
    sortedSteps !! i = Some step → new !! i = Some r →
    depsSatisfied step (take i new) = true → sr_success r = false →
    JS.truthy_opt_str (ps_fallbackStrategy step) = false →
    halted = true ∧ length new = S i).
  { intros i step r Hs Hr Hd Hf Hfb.
    apply (Ran_breaks _ _ _ _ _ _ Hran i step Hs); [by eapply lookup_lt_Some|].
    simpl. by apply (Hbreaks i step r). }
  split.
  { intros i r Hr. destruct (Ran_lookup _ _ _ _ _ _ Hran i r Hr) as (step & Hs & ->).
    exists step. split; [done | apply step_result_id]. }
  split; [split|split; [|split]].
  - intros ->. destruct (Ran_halted _ _ _ _ _ Hran) as (i & step & Hlen & Hs & Hbr).
    destruct (lookup_lt_is_Some_2 new i ltac:(lia)) as [r Hr].
    exists i, step, r. simpl in Hbr. apply (Hbreaks i step r Hs Hr) in Hbr. tauto.
  - intros (i & step & r & Hs & Hr & Hd & Hf & Hfb).
    by destruct (Hstop i step r Hs Hr Hd Hf Hfb).
  - intros i step r Hs Hr Hd Hf Hfb. by destruct (Hstop i step r Hs Hr Hd Hf Hfb).
  - intros ->. by apply (Ran_completed _ _ _ _ _ Hran).
  - intros i step r Hs Hr Hf Hcont Hnext. apply lookup_lt_is_Some_2.
    destruct halted.
    + destruct (Ran_halted _ _ _ _ _ Hran) as (j & step' & Hlen & Hs' & Hbr).
      apply lookup_lt_Some in Hr as Hi.
      destruct (decide (i = j)) as [->|Hij]; [|lia].
      rewrite Hs in Hs'. inversion Hs'; subst step'. simpl in Hbr.
      apply (Hbreaks j step r Hs Hr) in Hbr as (Hd & _ & Hfb).
      destruct Hcont; congruence.
    + rewrite (Ran_completed _ _ _ _ _ Hran). done.
Qed.

(** C3 as stated fails: in the stored plan A, B, C the result of B is a
    failure (its dependency A failed) and B declares no fallback, yet the
    loop does not halt and C is executed after it. *)
Lemma executePlan_continues_after_unmet_dependency :
  ∃ self' run,
    executePlan (planner_with [step_A (Some "retry"); step_B; step_C]) "p"
      context_ls no_time = Ok (self', run) ∧
    (∃ r, ex_results run !! 1 = Some r ∧ sr_stepId r = "B" ∧ sr_success r = false) ∧
    ps_fallbackStrategy step_B = None ∧
    ex_halted run = false ∧
    (∃ r, ex_results run !! 2 = Some r ∧ sr_stepId r = "C" ∧ sr_success r = true).
Proof.
  eexists _, _. split; [vm_compute; reflexivity|].
  split; [eexists; by vm_compute|]. split; [done|]. split; [done|].
  eexists; by vm_compute.
Qed.

End PlannerFacts.

(** ** Facts about the reasoning engine *)

Module ReasoningFacts.
Import Reasoning.

(** The confidence of a new step in the words of the specification, with
    the bonus for a step without assumptions that the code adds:
    base 0.5, plus min(0.1 x evidence, 0.3), plus 0.1 without assumptions
    or minus min(0.05 x assumptions, 0.2) with them, plus the bonus of the
    type, plus 0.1 for a recognised transition, capped at 1. *)
Definition confidence_formula (evidence assumptions : nat) (type : StepType)
    (transition : bool) : float :=
  let c := (0.5 + JS.Math_min (JS.of_nat evidence * 0.1) 0.3)%float in
  let c := if assumptions =? 0
           then (c + 0.1)%float
           else (c - JS.Math_min (JS.of_nat assumptions * 0.05) 0.2)%float in
  let c := match type with
           | observation => (c + 0.1)%float
           | verification => (c + 0.2)%float
           | conclusion => (c + 0.1)%float
           | _ => c
           end in
  let c := if transition then (c + 0.1)%float else c in
  JS.Math_min c 1.0.

(** The same confidence as the claim words it: nothing is added for a
    step without assumptions, the transition is the one from the last
    step of the chain, and the result is clamped to [0,1]. *)
Definition claimed_transition (chain : ReasoningChain) (type : StepType) : bool :=
  match last (ch_steps chain), type with
  | Some prev, hypothesis => match rs_type prev with observation => true | _ => false end
  | Some prev, verification => match rs_type prev with hypothesis => true | _ => false end
  | Some prev, conclusion => match rs_type prev with verification => true | _ => false end
  | _, _ => false
  end.

Definition claimed_confidence (evidence assumptions : nat) (type : StepType)
    (transition : bool) : float :=
  let c := (0.5 + JS.Math_min (0.1 * JS.of_nat evidence) 0.3)%float in
  let c := if assumptions =? 0
           then c
           else (c - JS.Math_min (0.05 * JS.of_nat assumptions) 0.2)%float in
  let c := match type with
           | observation => (c + 0.1)%float
           | verification => (c + 0.2)%float
           | conclusion => (c + 0.1)%float
           | _ => c
           end in
  let c := if transition then (c + 0.1)%float else c in
  JS.Math_max (JS.Math_min c 1.0) 0.

(** The bonus the code adds for the chain: the step it compares with is
    [chain.steps[length - 2]] of the chain before the push. *)
Definition code_transition (chain : ReasoningChain) (step : ReasoningStep) : bool :=
  match second_to_last chain with
  | Some previousStep => isLogicallyConsistent previousStep step
  | None => false
  end.

Lemma calculateStepConfidence_formula step chain :
  calculateStepConfidence step chain =
  confidence_formula (length (rs_evidence step)) (length (rs_assumptions step))
    (rs_type step) (code_transition chain step).
Proof.
  unfold calculateStepConfidence, confidence_formula, code_transition.
  assert (Hev : (if 0 <? length (rs_evidence step)
                 then (0.5 + JS.Math_min (JS.of_nat (length (rs_evidence step)) * 0.1) 0.3)%float
                 else 0.5%float)
                = (0.5 + JS.Math_min (JS.of_nat (length (rs_evidence step)) * 0.1) 0.3)%float).
  { destruct (length (rs_evidence step)); [by vm_compute | done]. }
  rewrite Hev.
  destruct (second_to_last chain) as [previousStep|]; [|done].
  by destruct (isLogicallyConsistent previousStep step).
Qed.

Lemma code_transition_target chain step :
  code_transition chain step = true →
  rs_type step = hypothesis ∨ rs_type step = verification ∨ rs_type step = conclusion.
Proof.
  unfold code_transition, isLogicallyConsistent.
  destruct (second_to_last chain) as [p|]; [|done].
  destruct (rs_type p), (rs_type step); auto; done.
Qed.

Lemma addReasoningStep_Ok self chainId type content evidence assumptions alternatives now
    self' step :
  addReasoningStep self chainId type content evidence assumptions alternatives now
    = Returns (self', step) →
  ∃ chain,
    activeChains self !! chainId = Some chain ∧
    let step0 := new_step chain type content evidence assumptions alternatives now in
    let validation := validateReasoningStep self step0 chain in
    rs_confidence step = calculateStepConfidence step0 chain ∧
    rs_type step = type ∧ rs_content step = content ∧
    rs_validationStatus step = (if rv_isValid validation then validated else rejected).
Proof.
  unfold addReasoningStep. intros H.
  destruct (activeChains self !! chainId) as [chain|]; [|done].
  inversion H; subst; clear H. exists chain. split; [done|]. simpl.
  split; [|done].
  rewrite !calculateStepConfidence_formula. done.
Qed.

(** The confidence of the step [addReasoningStep] returns, by the numbers
    of evidence items and assumptions handed in. *)
Lemma addReasoningStep_confidence self chainId type content evidence assumptions
    alternatives now self' step :
  addReasoningStep self chainId type content evidence assumptions alternatives now
    = Returns (self', step) →
  ∃ transition : bool,
    rs_confidence step =
      confidence_formula (length evidence) (length assumptions) type transition ∧
    (transition = true → type = hypothesis ∨ type = verification ∨ type = conclusion).
Proof.
  intros H. apply addReasoningStep_Ok in H as (chain & _ & Hconf & _).
  rewrite calculateStepConfidence_formula in Hconf. simpl in Hconf.
  eexists. split; [exact Hconf|]. intros Ht. by apply code_transition_target in Ht.
Qed.

(** *** Bounds of the confidence *)

Definition in_unit_interval (x : float) : bool :=
  PrimFloat.leb 0 x && PrimFloat.leb x 1.

Definition all_types : list StepType :=
  [observation; hypothesis; verification; conclusion; action].

(** Every combination of 0 to 10 evidence items, 0 to 10 assumptions, a
    step type and a transition bonus, evaluated. *)
Definition confidence_table_in_range : bool :=
  forallb (λ n,
    forallb (λ m,
      forallb (λ ty,
        forallb (λ t, in_unit_interval (confidence_formula n m ty t)) [true; false])
        all_types)
      (seq 0 11))
    (seq 0 11).

Lemma confidence_formula_range n m ty t :
  n ≤ 10 → m ≤ 10 → in_unit_interval (confidence_formula n m ty t) = true.
Proof.
  intros Hn Hm.
  assert (Htable : confidence_table_in_range = true) by (by vm_compute).
  unfold confidence_table_in_range in Htable.
  apply (proj1 (forallb_forall _ _)) with (x := n) in Htable; [|apply in_seq; lia].
  apply (proj1 (forallb_forall _ _)) with (x := m) in Htable; [|apply in_seq; lia].
  apply (proj1 (forallb_forall _ _)) with (x := ty) in Htable;
    [|destruct ty; simpl; tauto].
  apply (proj1 (forallb_forall _ _)) with (x := t) in Htable;
    [done | destruct t; simpl; tauto].
Qed.

(** *** Circular reasoning *)

Lemma hasCircularReasoning_true step chain i prev :
  ch_steps chain !! i = Some prev → S i < length (ch_steps chain) →
  PrimFloat.ltb 0.8
    (calculateSimilarity (JS.toLowerCase (rs_content step))
       (JS.toLowerCase (rs_content prev))) = true →
  hasCircularReasoning step chain = true.
Proof.
  intros Hi Hlt Hsim. unfold hasCircularReasoning. apply existsb_exists.
  exists prev. split; [|done]. apply list_elem_of_In.
  apply (list_elem_of_lookup_2 _ i). rewrite lookup_take_lt by lia. done.
Qed.

Lemma validateReasoningStep_circular self step chain :
  hasCircularReasoning step chain = true →
  circular_issue step ∈ rv_issues (validateReasoningStep self step chain) ∧
  rv_isValid (validateReasoningStep self step chain) = false.
Proof.
  intros Hc. unfold validateReasoningStep. rewrite Hc. cbn [rv_issues rv_isValid].
  split; [rewrite !elem_of_app; right; right; left|].
  apply andb_false_iff. right.
  rewrite !List.filter_app. cbn [List.filter is_severity circular_issue ri_severity].
  rewrite !length_app. simpl. apply Nat.eqb_neq. lia.
Qed.

(** *** The examples *)

Definition context_plain : ReasoningContext :=
  {| rc_availableTools := ["ls"]; rc_workingDirectory := "/";
     rc_previousChains := []; rc_constraints := [];
     rc_timeoutMs := 1000; rc_maxSteps := 20; rc_validationRequired := true |}.

Definition engine_empty : ReasoningEngine :=
  {| toolRegistry := ["ls"]; activeChains := ∅ |}.

(** The engine after [startReasoning("x")]: chain [c1] holds the seed
    observation "Starting reasoning for goal: x". *)
Definition engine_seed : ReasoningEngine :=
  fst (startReasoning engine_empty "c1" 0 "x" context_plain).

(** ... and after a hypothesis "try it" was added to it. *)
Definition engine_two : ReasoningEngine :=
  match addReasoningStep engine_seed "c1" hypothesis "try it" [] [] [] 0 with
  | Returns (e, _) => e
  | _ => engine_seed
  end.

Definition chain_two : ReasoningChain :=
  default (snd (startReasoning engine_empty "c1" 0 "x" context_plain))
          (activeChains engine_two !! "c1").

(** Two readings of the chain that the code and the specification do not
    share.  The transition bonus and the circularity test both look at
    [chain.steps] before the new step is pushed, with indices written for
    the chain after the push: a hypothesis added right after the seed
    observation gets no transition bonus, and a step that repeats the
    content of the step just before it is not flagged. *)
Example hypothesis_after_seed_confidence :
  ∃ self' step,
    addReasoningStep engine_seed "c1" hypothesis "try it" [] [] [] 0
      = Returns (self', step) ∧
    rs_confidence step = confidence_formula 0 0 hypothesis false.
Proof. eexists _, _. split; [vm_compute; reflexivity | by vm_compute]. Qed.

Example repeat_of_last_step_validated :
  ∃ self' step,
    addReasoningStep engine_two "c1" hypothesis "try it" [] [] [] 0
      = Returns (self', step) ∧
    rs_validationStatus step = validated.
Proof. eexists _, _. split; [vm_compute; reflexivity | done]. Qed.

(** *** The properties of the reasoning engine *)

(** C5 (confidence of a new step), as the code has it.  The confidence of
    the step [addReasoningStep] returns is: base 0.5, plus
    min(0.1 x evidence items, 0.3), plus 0.1 when there is no assumption
    and minus min(0.05 x assumptions, 0.2) when there are some, plus the
    bonus of the type (observation 0.1, verification 0.2, conclusion 0.1,
    others none), plus a transition bonus that is either absent or 0.1 and
    is absent unless the step is a hypothesis, a verification or a
    conclusion, capped at 1. *)
Theorem addReasoningStep_confidence_formula
    (self : ReasoningEngine) (chainId : string) (type : StepType) (content : string)
    (evidence assumptions alternatives : list string) (now : Z)
    (self' : ReasoningEngine) (step : ReasoningStep) :
  addReasoningStep self chainId type content evidence assumptions alternatives now
    = Returns (self', step) →
  ∃ transition : bool,
    rs_confidence step =
      confidence_formula (length evidence) (length assumptions) type transition ∧
    (transition = true → type = hypothesis ∨ type = verification ∨ type = conclusion).
Proof. apply addReasoningStep_confidence. Qed.

Lemma addReasoningStep_confidence_formula_witness :
  ∃ self' step,
    addReasoningStep engine_seed "c1" action "do it" ["seen"] ["works"] [] 0
      = Returns (self', step) ∧
    ∃ transition : bool,
      rs_confidence step = confidence_formula 1 1 action transition ∧
      (transition = true → action = hypothesis ∨ action = verification ∨ action = conclusion).
Proof.
  assert (H : ∃ r, addReasoningStep engine_seed "c1" action "do it" ["seen"] ["works"] [] 0
                   = Returns r).
  { eexists. vm_compute. reflexivity. }
  destruct H as [[self' step] H]. exists self', step. split; [exact H|].
  exact (addReasoningStep_confidence_formula _ _ _ _ _ _ _ _ _ _ H).
Defined.

(** C5 as stated fails: an action step without evidence and without
    assumptions, added after the seed observation, gets 0.6, where the
    claim's formula gives 0.5. *)
Lemma addReasoningStep_confidence_not_claimed :
  ∃ self' step chain,
    activeChains engine_seed !! "c1" = Some chain ∧
    addReasoningStep engine_seed "c1" action "do it" [] [] [] 0 = Returns (self', step) ∧
    rs_confidence step = 0.6%float ∧
    claimed_confidence 0 0 action (claimed_transition chain action) = 0.5%float ∧
    PrimFloat.eqb (rs_confidence step)
      (claimed_confidence 0 0 action (claimed_transition chain action)) = false.
Proof.
  eexists _, _, _. split; [vm_compute; reflexivity|].
  split; [vm_compute; reflexivity|]. by vm_compute.
Qed.

(** C6 (confidence within [0,1]).  For every step type, content, 0 to 10
    evidence items and 0 to 10 assumptions, the confidence of the step
    [addReasoningStep] returns is at least 0 and at most 1. *)
Theorem addReasoningStep_confidence_range
    (self : ReasoningEngine) (chainId : string) (type : StepType) (content : string)
    (evidence assumptions alternatives : list string) (now : Z)
    (self' : ReasoningEngine) (step : ReasoningStep) :
  length evidence ≤ 10 → length assumptions ≤ 10 →
  addReasoningStep self chainId type content evidence assumptions alternatives now
    = Returns (self', step) →
  PrimFloat.leb 0 (rs_confidence step) = true ∧
  PrimFloat.leb (rs_confidence step) 1 = true.
Proof.
  intros Hev Has H. apply addReasoningStep_confidence in H as (t & -> & _).
  pose proof (confidence_formula_range _ _ type t Hev Has) as Hr.
  unfold in_unit_interval in Hr. by apply andb_true_iff in Hr.
Qed.

Lemma addReasoningStep_confidence_range_witness :
  ∃ self' step,
    addReasoningStep engine_two "c1" verification "check it"
      ["a"; "b"; "c"; "d"] [] [] 0 = Returns (self', step) ∧
    PrimFloat.leb 0 (rs_confidence step) = true ∧
    PrimFloat.leb (rs_confidence step) 1 = true.
Proof.
  assert (H : ∃ r, addReasoningStep engine_two "c1" verification "check it"
                     ["a"; "b"; "c"; "d"] [] [] 0 = Returns r).
  { eexists. vm_compute. reflexivity. }
  destruct H as [[self' step] H]. exists self', step. split; [exact H|].
  apply (addReasoningStep_confidence_range engine_two "c1" verification "check it"
           ["a"; "b"; "c"; "d"] [] [] 0 self' step); [simpl; lia | simpl; lia | exact H].
Defined.




(** C10 ([makeDecision] needs an option).  On a decision point without
    options [makeDecision] throws the [TypeError] of reading [id] of
    [undefined]: it returns no option and no engine, so no step is
    appended.  With a first option and an existing chain it returns that
    option. *)
Theorem makeDecision_empty_options
    (toFixed2 : float → string) (self : ReasoningEngine) (chainId : string)
    (decisionPoint : DecisionPoint) (rationale : option string) (now : Z) :
  (dp_options decisionPoint = [] →
   makeDecision toFixed2 self chainId decisionPoint rationale now
     = Throws "TypeError: Cannot read properties of undefined (reading 'id')") ∧
  (∀ option rest,
     dp_options decisionPoint = option :: rest →
     is_Some (activeChains self !! chainId) →
     ∃ self' decisionPoint',
       makeDecision toFixed2 self chainId decisionPoint rationale now
         = Returns (self', decisionPoint', option) ∧
       dp_selectedOption decisionPoint' = Some (do_id option)).
Proof.
  split.
  - intros Hopts. unfold makeDecision. by rewrite Hopts.
  - intros opt rest Hopts [chain Hchain]. unfold makeDecision. rewrite Hopts. simpl.
    unfold addReasoningStep. rewrite Hchain. by eexists _, _.
Qed.

End ReasoningFacts.

(** ** Facts about the response validator *)

Module ValidatorFacts.
Import Validator.

Section validator.
Variable toFixed2 : float → string.
Variable toString : float → string.

(** *** The execution gate *)

Lemma filter_nonempty {A} (f : A → bool) (l : list A) :
  (0 <? length (List.filter f l)) = true ↔ ∃ x, x ∈ l ∧ f x = true.
Proof.
  rewrite Nat.ltb_lt. split.
  - destruct (List.filter f l) as [|x r] eqn:Hf; simpl; [lia|]. intros _.
    assert (Hin : In x (List.filter f l)) by (rewrite Hf; by left).
    apply filter_In in Hin as [Hin Hx]. exists x. by rewrite list_elem_of_In.
  - intros (x & Hin & Hx).
    assert (Hf : In x (List.filter f l)) by (apply filter_In; by rewrite <- list_elem_of_In).
    destruct (List.filter f l); simpl; [done | lia].
Qed.

Lemma is_severity_spec sev i : is_severity sev i = true ↔ vi_severity i = sev.
Proof. unfold is_severity. destruct (vi_severity i), sev; split; congruence. Qed.

Lemma is_type_spec t i : is_type t i = true ↔ vi_type i = t.
Proof. unfold is_type. destruct (vi_type i), t; split; congruence. Qed.

Lemma shouldAllowExecution_critical issues score constraints :
  (∃ i, i ∈ issues ∧ vi_severity i = critical) →
  shouldAllowExecution issues score constraints = false.
Proof.
  intros (i & Hin & Hsev). unfold shouldAllowExecution.
  assert (H : (0 <? length (List.filter (is_severity critical) issues)) = true).
  { apply filter_nonempty. exists i. by rewrite is_severity_spec. }
  by rewrite H.
Qed.

Lemma shouldAllowExecution_unsafe issues score constraints :
  safetyChecks constraints = true →
  (∃ i, i ∈ issues ∧ vi_type i = unsafe_operation) →
  shouldAllowExecution issues score constraints = false.
Proof.
  intros Hsafe (i & Hin & Hty). unfold shouldAllowExecution.
  assert (H : (0 <? length (List.filter (is_type unsafe_operation) issues)) = true).
  { apply filter_nonempty. exists i. by rewrite is_type_spec. }
  rewrite Hsafe, H.
  by destruct (0 <? length (List.filter (is_severity critical) issues)).
Qed.

Lemma shouldAllowExecution_score issues score constraints :
  (∀ i, i ∈ issues → vi_severity i ≠ critical) →
  (safetyChecks constraints = false ∨ ∀ i, i ∈ issues → vi_type i ≠ unsafe_operation) →
  shouldAllowExecution issues score constraints = PrimFloat.leb 0.6 score.
Proof.
  intros Hcrit Hunsafe. unfold shouldAllowExecution.
  destruct (0 <? length (List.filter (is_severity critical) issues)) eqn:Hc.
  { apply filter_nonempty in Hc as (i & Hin & Hs). apply is_severity_spec in Hs.
    by destruct (Hcrit i Hin). }
  destruct Hunsafe as [->|Hunsafe]; [done|].
  destruct (0 <? length (List.filter (is_type unsafe_operation) issues)) eqn:Hu.
  { apply filter_nonempty in Hu as (i & Hin & Ht). apply is_type_spec in Ht.
    by destruct (Hunsafe i Hin). }
  by rewrite andb_false_r.
Qed.

(** The issues of a rule that returns are among the issues of the result. *)
Lemma validateResponse_rule_issues self rule response context constraints ruleIssues i :
  rule ∈ validationRules self →
  validate rule response context constraints = Returns ruleIssues →
  i ∈ ruleIssues →
  i ∈ issues (validateResponse self response context constraints).
Proof.
  intros Hrule Hval Hi. unfold validateResponse. cbn [issues].
  apply list_elem_of_In, in_flat_map. exists rule.
  split; [by apply list_elem_of_In|]. unfold run_rule. rewrite Hval.
  by apply list_elem_of_In.
Qed.

Lemma ToolAvailabilityRule_unavailable response context constraints toolCall :
  toolCall ∈ toolCalls response →
  JS.arr_includes (availableTools context) (tc_name toolCall) = false →
  ∃ ruleIssues,
    validate ToolAvailabilityRule response context constraints = Returns ruleIssues ∧
    tool_not_available_issue (tc_name toolCall) (availableTools context) ∈ ruleIssues.
Proof.
  intros Hin Hnot. eexists. split; [reflexivity|].
  apply list_elem_of_In, in_flat_map. exists toolCall.
  split; [by apply list_elem_of_In|]. rewrite Hnot. by left.
Qed.

Lemma newResponseValidator_ToolAvailability :
  ToolAvailabilityRule ∈ validationRules (newResponseValidator toFixed2 toString).
Proof. left. Qed.

(** *** A response without tool calls and without reasoning *)



End validator.

(** *** The examples *)

Definition show_number : float → string := λ _, "n".

Definition context_ls_shell : PromptContext :=
  {| conversationType := general; userGoal := "g"; workingDirectory := "/";
     availableTools := ["ls"; "shell"]; projectType := None; constraints := [];
     previousInteractions := []; confidenceThreshold := 0.7;
     requiresPlanning := false; requiresReasoning := false |}.

Definition constraints_with (needReasoning : bool) : ValidationConstraints :=
  {| minimumConfidence := 0.7; allowedTools := []; forbiddenOperations := ["delete"];
     requireReasoning := needReasoning; requireEvidence := false; safetyChecks := true;
     factChecking := false; maxToolCalls := 5; timeoutMs := 1000 |}.

Definition call_rm_tool : ToolCall :=
  {| tc_name := "rm_tool"; tc_parameters := {[ "path" := VStr "/tmp/x" ]};
     tc_id := None; tc_reasoning := None |}.

Definition response_of (calls : list ToolCall) : AIResponse :=
  {| content := "hello"; toolCalls := calls; reasoning := None;
     confidence := None; timestamp := 0 |}.

(** *** The properties of the response validator *)

(** C1 (unavailable tools block execution).  For every validator whose
    rules include [ToolAvailabilityRule] (the constructor's do), a
    response with a tool call whose name is not in
    [context.availableTools] gets an issue of severity [critical] and
    [allowExecution = false], whatever the score.  In general
    [allowExecution] is false when a critical issue exists, false when
    [constraints.safetyChecks] holds and an [unsafe_operation] issue
    exists, and otherwise it is [score >= 0.6]. *)
Theorem validateResponse_unavailable_tool
    (toFixed2 toString : float → string)
    (self : ResponseValidator) (response : AIResponse) (context : PromptContext)
    (constraints : ValidationConstraints) :
  let result := validateResponse self response context constraints in
  (ToolAvailabilityRule ∈ validationRules self →
   (∃ toolCall, toolCall ∈ toolCalls response ∧
                JS.arr_includes (availableTools context) (tc_name toolCall) = false) →
   (∃ i, i ∈ issues result ∧ vi_severity i = critical) ∧
   allowExecution result = false) ∧
  ToolAvailabilityRule ∈ validationRules (newResponseValidator toFixed2 toString) ∧
  ((∃ i, i ∈ issues result ∧ vi_severity i = critical) →
   allowExecution result = false) ∧
  (safetyChecks constraints = true →
   (∃ i, i ∈ issues result ∧ vi_type i = unsafe_operation) →
   allowExecution result = false) ∧
  ((∀ i, i ∈ issues result → vi_severity i ≠ critical) →
   (safetyChecks constraints = false ∨
    ∀ i, i ∈ issues result → vi_type i ≠ unsafe_operation) →
   allowExecution result = PrimFloat.leb 0.6 (score result)).
Proof.
  intros result.
  assert (Hcrit : (∃ i, i ∈ issues result ∧ vi_severity i = critical) →
                  allowExecution result = false).
  { intros H. by apply shouldAllowExecution_critical. }
  split; [|split; [apply newResponseValidator_ToolAvailability|split; [done|split]]].
  - intros Hrule (toolCall & Hin & Hnot).
    assert (Hissue : ∃ i, i ∈ issues result ∧ vi_severity i = critical).
    { destruct (ToolAvailabilityRule_unavailable response context constraints toolCall
                  Hin Hnot) as (ruleIssues & Hval & Hi).
      eexists. split; [|shelve].
      eapply validateResponse_rule_issues; [exact Hrule | exact Hval | exact Hi].
      Unshelve. done. }
    split; [done | by apply Hcrit].
  - intros Hsafe H. by apply shouldAllowExecution_unsafe.
  - intros Hc Hu. by apply shouldAllowExecution_score.
Qed.

Lemma validateResponse_unavailable_tool_witness :
  let result := validateResponse (newResponseValidator show_number show_number)
                  (response_of [call_rm_tool]) context_ls_shell (constraints_with false) in
  (∃ i, i ∈ issues result ∧ vi_severity i = critical) ∧ allowExecution result = false.
Proof.
  destruct (validateResponse_unavailable_tool show_number show_number
              (newResponseValidator show_number show_number)
              (response_of [call_rm_tool]) context_ls_shell (constraints_with false))
    as (H & Hrule & _).
  apply H; [exact Hrule|]. exists call_rm_tool. split; [left | vm_compute; reflexivity].
Defined.




End ValidatorFacts.


(** ** Further facts about the plan engine *)

Module PlannerMore.
Import Planner PlannerFacts.

(** *** [validatePlan] *)

Lemma tool_errors_In allTools steps e :
  e ∈ tool_errors allTools steps ↔
  ∃ step tool, step ∈ steps ∧ tool ∈ ps_requiredTools step ∧ tool ∉ allTools ∧
               e = missing_tool_error tool (ps_id step).
Proof.
  unfold tool_errors. rewrite list_elem_of_In, in_flat_map. split.
  - intros (step & Hs & He). apply in_flat_map in He as (tool & Ht & He).
    destruct (JS.arr_includes allTools tool) eqn:Hinc; simpl in He; [done|].
    destruct He as [<-|[]]. exists step, tool.
    rewrite <- !list_elem_of_In in *. split; [done|]. split; [done|]. split; [|done].
    intros Hin. apply arr_includes_In in Hin. congruence.
  - intros (step & tool & Hs & Ht & Hnot & ->). exists step.
    rewrite <- list_elem_of_In. split; [done|]. apply in_flat_map. exists tool.
    rewrite <- list_elem_of_In. split; [done|].
    destruct (JS.arr_includes allTools tool) eqn:Hinc; [|by left].
    apply arr_includes_In in Hinc. done.
Qed.

Lemma orphan_errors_In steps e :
  e ∈ orphan_errors steps ↔
  ∃ step dep, step ∈ steps ∧ dep ∈ ps_dependencies step ∧ dep ∉ map ps_id steps ∧
              e = missing_step_error (ps_id step) dep.
Proof.
  unfold orphan_errors. rewrite list_elem_of_In, in_flat_map. split.
  - intros (step & Hs & He). apply in_flat_map in He as (dep & Hd & He).
    case_bool_decide as Hin; simpl in He; [done|]. destruct He as [<-|[]].
    exists step, dep. rewrite <- !list_elem_of_In in *.
    split; [done|]. split; [done|]. split; [|done].
    intros Hin'. apply Hin. by apply elem_of_list_to_set.
  - intros (step & dep & Hs & Hd & Hnot & ->). exists step.
    rewrite <- list_elem_of_In. split; [done|]. apply in_flat_map. exists dep.
    rewrite <- list_elem_of_In. split; [done|].
    case_bool_decide as Hin; [|by left]. by apply elem_of_list_to_set in Hin.
Qed.

(** X1.  [validatePlan] answers [isValid = true] exactly for the plans
    without a dependency cycle, whose required tools are all registered
    and whose dependency ids all name a step of the plan. *)
Theorem validatePlan_valid_iff (self : HierarchicalPlanner) (plan : HierarchicalPlan) :
  ∃ r, validatePlan self plan = Some r ∧
       (vr_isValid r = true ↔
        ¬ cyclic (hp_steps plan) ∧
        (∀ step tool, step ∈ hp_steps plan → tool ∈ ps_requiredTools step →
                      tool ∈ toolRegistry self) ∧
        (∀ step dep, step ∈ hp_steps plan → dep ∈ ps_dependencies step →
                     dep ∈ map ps_id (hp_steps plan))).
Proof.
  destruct (hasCyclicDependencies_spec (hp_steps plan)) as (cyc & Hcyc & Hiff).
  unfold validatePlan. rewrite Hcyc. simpl. eexists. split; [done|]. simpl.
  rewrite Nat.eqb_eq, length_zero_iff_nil.
  split.
  - intros Hnil. apply app_eq_nil in Hnil as [Hc Hrest].
    apply app_eq_nil in Hrest as [Ht Ho]. split; [|split].
    + intros Hcy. apply Hiff in Hcy. by subst cyc.
    + intros step tool Hs Htool.
      destruct (decide (tool ∈ toolRegistry self)) as [|Hnot]; [done|].
      assert (He : missing_tool_error tool (ps_id step)
                   ∈ tool_errors (toolRegistry self) (hp_steps plan))
        by (apply tool_errors_In; eauto 10).
      rewrite Ht in He. by apply elem_of_nil in He.
    + intros step dep Hs Hdep.
      destruct (decide (dep ∈ map ps_id (hp_steps plan))) as [|Hnot]; [done|].
      assert (He : missing_step_error (ps_id step) dep ∈ orphan_errors (hp_steps plan))
        by (apply orphan_errors_In; eauto 10).
      rewrite Ho in He. by apply elem_of_nil in He.
  - intros (Hac & Htools & Hdeps).
    assert (cyc = false) as ->.
    { destruct cyc; [|done]. destruct Hac. by apply Hiff. }
    rewrite (tool_errors_nil _ _ Htools). simpl.
    destruct (orphan_errors (hp_steps plan)) as [|e l] eqn:Ho; [done|].
    assert (He : e ∈ orphan_errors (hp_steps plan)) by (rewrite Ho; left).
    apply orphan_errors_In in He as (step & dep & Hs & Hd & Hnot & _).
    destruct Hnot. eauto.
Qed.

(** X2.  A required tool that is not registered when [validatePlan] runs
    (never registered, or removed after the plan was created) surfaces as
    an error that names the tool and the step, and the plan is invalid. *)
Theorem validatePlan_missing_tool
    (self : HierarchicalPlanner) (plan : HierarchicalPlan) (step : PlanStep) (tool : string) :
  step ∈ hp_steps plan → tool ∈ ps_requiredTools step → tool ∉ toolRegistry self →
  ∃ r, validatePlan self plan = Some r ∧
       ("Required tool '" +:+ tool +:+ "' is not available for step '"
          +:+ ps_id step +:+ "'") ∈ vr_errors r ∧
       vr_isValid r = false.
Proof.
  intros Hs Ht Hnot.
  destruct (hasCyclicDependencies_total (hp_steps plan)) as [cyc Hcyc].
  unfold validatePlan. rewrite Hcyc. simpl. eexists. split; [done|]. simpl.
  assert (He : missing_tool_error tool (ps_id step)
               ∈ tool_errors (toolRegistry self) (hp_steps plan))
    by (apply tool_errors_In; eauto 10).
  split; [rewrite !elem_of_app; right; left; exact He|].
  apply Nat.eqb_neq. intros Hlen. apply length_zero_iff_nil in Hlen.
  apply app_eq_nil in Hlen as [_ Hrest]. apply app_eq_nil in Hrest as [Hnil _].
  rewrite Hnil in He. by apply elem_of_nil in He.
Qed.

Lemma validatePlan_missing_tool_witness :
  ∃ r, validatePlan planner_rlg (plan_of [step_A None]) = Some r ∧
       "Required tool 'deploy' is not available for step 'A'" ∈ vr_errors r ∧
       vr_isValid r = false.
Proof.
  apply (validatePlan_missing_tool planner_rlg (plan_of [step_A None]) (step_A None) "deploy").
  - simpl. left.
  - simpl. left.
  - apply (bool_decide_unpack _). vm_compute. exact I.
Defined.

(** *** [topologicalSort] *)

Section topological_order.
Variable steps : list PlanStep.

(** In [l] every dependency that names a step stands before the step that
    declares it. *)
Definition ordered (l : list PlanStep) : Prop :=
  ∀ i s d, l !! i = Some s → d ∈ ps_dependencies s →
           is_Some (find_step steps d) → d ∈ map ps_id (take i l).

(** What [visit] keeps true of the closure's state. *)
Record sort_inv (st : TopoSort) : Prop := {
  inv_visited : ∀ x, x ∈ ts_visited st ↔ x ∈ map ps_id (sorted st);
  inv_nodup : NoDup (map ps_id (sorted st));
  inv_found : ∀ s, s ∈ sorted st → find_step steps (ps_id s) = Some s;
  inv_ordered : ordered (sorted st);
  inv_disjoint : ts_visited st ## ts_visiting st
}.

Lemma sort_inv_start : sort_inv sort_start.
Proof.
  split; simpl.
  - intros x. set_solver.
  - constructor.
  - intros s Hs. by apply elem_of_nil in Hs.
  - intros i s d Hi. done.
  - set_solver.
Qed.

Definition sort_post (st : TopoSort) (targets : list string) (st' : TopoSort) : Prop :=
  ts_visiting st' = ts_visiting st ∧
  sorted st `prefix_of` sorted st' ∧
  (sort_inv st → sort_inv st') ∧
  (sort_inv st → ∀ d, d ∈ targets → is_Some (find_step steps d) → d ∈ ts_visited st').

Lemma sort_inv_prefix st st' :
  sort_inv st → sort_inv st' → sorted st `prefix_of` sorted st' →
  ts_visited st ⊆ ts_visited st'.
Proof.
  intros Hi Hi' [k Hk] x Hx. apply (inv_visited _ Hi'). apply (inv_visited _ Hi) in Hx.
  rewrite Hk, map_app. apply elem_of_app. by left.
Qed.

Lemma visit_each_post visit :
  (∀ id st st', visit id st = Ok st' → sort_post st [id] st') →
  ∀ deps st st', visit_each visit deps st = Ok st' → sort_post st deps st'.
Proof.
  intros Hvisit. induction deps as [|d ds IH]; intros st st' Hrun; simpl in Hrun.
  - inversion Hrun; subst. split; [done|]. split; [done|]. split; [done|].
    intros _ d Hd. by apply elem_of_nil in Hd.
  - destruct (visit d st) as [st1| |] eqn:Hd; try done.
    apply Hvisit in Hd as (Hv1 & Hp1 & Hi1 & Hd1).
    apply IH in Hrun as (Hv2 & Hp2 & Hi2 & Hd2).
    split; [congruence|]. split; [by etrans|]. split; [tauto|].
    intros Hinv d' Hd' Hfound. apply elem_of_cons in Hd' as [->|Hd'].
    + pose proof (Hi1 Hinv) as Hinv1.
      apply (sort_inv_prefix st1 st'); [done | by apply Hi2 | done|].
      apply Hd1; [done | left | done].
    + apply Hd2; [by apply Hi1 | done | done].
Qed.

Lemma ordered_snoc l x :
  ordered l →
  (∀ d, d ∈ ps_dependencies x → is_Some (find_step steps d) → d ∈ map ps_id l) →
  ordered (l ++ [x]).
Proof.
  intros Hord Hx i s d Hi Hd Hfound.
  destruct (decide (i < length l)) as [Hlt|Hge].
  - rewrite lookup_app_l in Hi by done.
    rewrite take_app_le by lia. by eapply Hord.
  - rewrite lookup_app_r in Hi by lia.
    destruct (i - length l) as [|n] eqn:Hn; simpl in Hi; [|done].
    inversion Hi; subst s. assert (i = length l) as -> by lia.
    rewrite take_app_length. by apply Hx.
Qed.

Lemma visit_post fuel :
  ∀ id st st', visit fuel steps id st = Ok st' → sort_post st [id] st'.
Proof.
  induction fuel as [|fuel IH]; intros id st st' Hrun; [done|].
  simpl in Hrun.
  case_bool_decide as Hvis.
  { inversion Hrun; subst. split; [done|]. split; [done|]. split; [done|].
    by intros _ d ->%list_elem_of_singleton _. }
  case_bool_decide as Hvisiting; [done|].
  destruct (find_step steps id) as [step|] eqn:Hfind.
  - destruct (visit_each _ _ _) as [st2| |] eqn:Hloop; try done.
    inversion Hrun; subst; clear Hrun.
    apply (visit_each_post _ IH) in Hloop as (Hv & Hp & Hi & Hd). simpl in *.
    split; [rewrite Hv; set_solver|].
    split; [etrans; [exact Hp|]; by apply prefix_app_r|].
    assert (Hkeep : sort_inv st → sort_inv
      {| sorted := sorted st2 ++ [step]; ts_visited := {[id]} ∪ ts_visited st2;
         ts_visiting := ts_visiting st2 ∖ {[id]} |}).
    { intros Hinv.
      assert (Hinv1 : sort_inv {| sorted := sorted st; ts_visited := ts_visited st;
                                  ts_visiting := {[id]} ∪ ts_visiting st |}).
      { destruct Hinv. split; simpl; try done. set_solver. }
      pose proof (Hi Hinv1) as Hinv2. pose proof (Hd Hinv1) as Hdeps.
      apply find_step_Some in Hfind as Hstep. destruct Hstep as [Hin Hid].
      assert (Hfresh : id ∉ ts_visited st2).
      { pose proof (inv_disjoint _ Hinv2) as Hdisj. rewrite Hv in Hdisj. set_solver. }
      split; simpl.
      - intros x. rewrite map_app, elem_of_app, elem_of_union, elem_of_singleton. simpl.
        rewrite list_elem_of_singleton, Hid, (inv_visited _ Hinv2). tauto.
      - rewrite map_app. simpl. apply NoDup_app. split; [apply (inv_nodup _ Hinv2)|].
        split; [|apply NoDup_singleton].
        intros x Hx ->%list_elem_of_singleton. rewrite Hid in Hx.
        by apply (inv_visited _ Hinv2) in Hx.
      - intros s [Hs|Hs]%elem_of_app.
        + by apply (inv_found _ Hinv2).
        + apply list_elem_of_singleton in Hs. subst s. by rewrite Hid.
      - apply ordered_snoc; [apply (inv_ordered _ Hinv2)|].
        intros d Hdin Hfound. apply (inv_visited _ Hinv2). by apply Hdeps.
      - pose proof (inv_disjoint _ Hinv2). set_solver. }
    split; [done|].
    intros _ d ->%list_elem_of_singleton _. set_solver.
  - inversion Hrun; subst; clear Hrun. simpl.
    split; [set_solver|]. split; [done|]. split.
    + intros Hinv. destruct Hinv. split; simpl; try done. set_solver.
    + intros _ d ->%list_elem_of_singleton [s Hs]. simpl. congruence.
Qed.

(** A throw means that a step id was reached while it was on [visiting]:
    the ids on [visiting] are on the path to the one visited. *)
Lemma visit_each_throw visit m :
  (∀ id st st', visit id st = Ok st' → ts_visiting st' = ts_visiting st) →
  (∀ id st, visit id st = Throw m →
     (∀ x, x ∈ ts_visiting st → tc (edge steps) x id) → cyclic steps) →
  ∀ deps st, visit_each visit deps st = Throw m →
    (∀ x d, x ∈ ts_visiting st → d ∈ deps → tc (edge steps) x d) → cyclic steps.
Proof.
  intros Hsame Hthrow. induction deps as [|d ds IH]; intros st Hrun Hpre; simpl in Hrun.
  - done.
  - destruct (visit d st) as [st1|m'|] eqn:Hd; try done.
    + apply (IH st1); [done|]. intros x d' Hx Hd'.
      rewrite (Hsame _ _ _ Hd) in Hx. apply Hpre; [done | by right].
    + inversion Hrun; subst m'. apply (Hthrow d st Hd).
      intros x Hx. apply Hpre; [done | left].
Qed.

Lemma visit_throw fuel m :
  ∀ id st, visit fuel steps id st = Throw m →
    (∀ x, x ∈ ts_visiting st → tc (edge steps) x id) → cyclic steps.
Proof.
  induction fuel as [|fuel IH]; intros id st Hrun Hpre; [done|].
  simpl in Hrun.
  case_bool_decide as Hvis; [done|].
  case_bool_decide as Hvisiting; [exists id; by apply Hpre|].
  destruct (find_step steps id) as [step|] eqn:Hfind; [|done].
  destruct (visit_each _ _ _) as [st2|m'|] eqn:Hloop; try done.
  inversion Hrun; subst m'.
  apply (visit_each_throw _ m (visit_visiting steps fuel) IH) in Hloop; [done|].
  intros x d Hx Hd. simpl in Hx.
  assert (He : edge steps id d) by (by exists step).
  apply elem_of_union in Hx as [->%elem_of_singleton|Hx]; [by apply tc_once|].
  eapply tc_r; [by apply Hpre | done].
Qed.

Lemma visit_each_throw_message visit :
  (∀ id st m, visit id st = Throw m → m = "Circular dependency detected") →
  ∀ deps st m, visit_each visit deps st = Throw m → m = "Circular dependency detected".
Proof.
  intros Hvisit. induction deps as [|d ds IH]; intros st m Hrun; cbn [visit_each] in Hrun.
  - done.
  - destruct (visit d st) as [st1|m'|] eqn:Hd; try done; [by eapply IH|].
    inversion Hrun; subst m'. by eapply Hvisit.
Qed.

Lemma visit_throw_message fuel :
  ∀ id st m, visit fuel steps id st = Throw m → m = "Circular dependency detected".
Proof.
  induction fuel as [|fuel IH]; intros id st m Hrun; [done|].
  simpl in Hrun. repeat case_bool_decide; try done; [by inversion Hrun|].
  destruct (find_step steps id) as [step|]; [|done].
  destruct (visit_each _ _ _) as [st2|m'|] eqn:Hloop; try done.
  inversion Hrun; subst m'. by eapply (visit_each_throw_message _ IH).
Qed.

(** The positions in a sorted list strictly decrease along edges. *)
Lemma sorted_acyclic st :
  sort_inv st → (∀ id, id ∈ map ps_id steps → id ∈ ts_visited st) → ¬ cyclic steps.
Proof.
  intros Hinv Hall [a Ha].
  set (at_index := λ (id : string) (i : nat),
         ∃ s, sorted st !! i = Some s ∧ ps_id s = id).
  assert (Hindex : ∀ id, is_Some (find_step steps id) → ∃ i, at_index id i).
  { intros id [s Hs]. apply find_step_Some in Hs as [Hin Hid].
    assert (Hv : id ∈ ts_visited st).
    { apply Hall. rewrite <- Hid. apply list_elem_of_fmap. eauto. }
    apply (inv_visited _ Hinv), list_elem_of_fmap in Hv as (s' & -> & Hs').
    apply list_elem_of_lookup_1 in Hs' as [i Hi]. by exists i, s'. }
  assert (Hfun : ∀ id i j, at_index id i → at_index id j → i = j).
  { intros id i j (s & Hi & Hs) (s' & Hj & Hs').
    apply (NoDup_lookup (map ps_id (sorted st)) i j id); [apply (inv_nodup _ Hinv)| |].
    - by rewrite list_lookup_fmap, Hi; simpl; rewrite Hs.
    - by rewrite list_lookup_fmap, Hj; simpl; rewrite Hs'. }
  assert (Hedge : ∀ x y i, edge steps x y → is_Some (find_step steps y) →
                           at_index x i → ∃ j, at_index y j ∧ j < i).
  { intros x y i (sx & Hsx & Hy) Hfy (s & Hi & Hs).
    assert (s = sx) as ->.
    { pose proof (inv_found _ Hinv s (list_elem_of_lookup_2 _ _ _ Hi)) as Hf.
      rewrite Hs in Hf. congruence. }
    pose proof (inv_ordered _ Hinv i sx y Hi Hy Hfy) as Hpos.
    apply list_elem_of_fmap in Hpos as (sy & -> & Hsy).
    apply elem_of_take in Hsy as (j & Hj & Hlt). exists j. split; [by exists sy | done]. }
  assert (Hpath : ∀ x y, tc (edge steps) x y → is_Some (find_step steps y) →
                         ∀ i, at_index x i → ∃ j, at_index y j ∧ j < i).
  { intros x y Hxy. induction Hxy as [x y He|x y z He Hyz IH]; intros Hfz i Hi.
    - by eapply Hedge.
    - assert (Hfy : is_Some (find_step steps y)).
      { destruct (tc_source _ _ _ Hyz) as [c (s & Hs & _)]. by exists s. }
      destruct (Hedge x y i He Hfy Hi) as (j & Hj & Hlt).
      destruct (IH Hfz j Hj) as (k & Hk & Hlt'). exists k. split; [done | lia]. }
  assert (Hfa : is_Some (find_step steps a)).
  { destruct (tc_source _ _ _ Ha) as [c (s & Hs & _)]. by exists s. }
  destruct (Hindex a Hfa) as [i Hi].
  destruct (Hpath a a Ha Hfa i Hi) as (j & Hj & Hlt).
  pose proof (Hfun a i j Hi Hj). lia.
Qed.

End topological_order.

Lemma find_step_is_Some steps id : id ∈ map ps_id steps → is_Some (find_step steps id).
Proof.
  intros (s & -> & Hs)%list_elem_of_fmap. unfold find_step.
  destruct (List.find _ steps) as [s'|] eqn:Hf; [by eexists|].
  apply list_elem_of_In in Hs. apply (find_none _ _ Hf) in Hs.
  by rewrite String.eqb_refl in Hs.
Qed.

(** The state in which a successful [topologicalSort] ends. *)
Lemma topologicalSort_Ok steps sortedSteps :
  topologicalSort steps = Ok sortedSteps →
  ∃ st, sorted st = sortedSteps ∧ sort_inv steps st ∧
        ∀ id, id ∈ map ps_id steps → id ∈ ts_visited st.
Proof.
  unfold topologicalSort. intros H.
  destruct (visit_each _ _ _) as [st| |] eqn:Hrun; [|done..].
  inversion H; subst. exists st. split; [done|].
  apply (visit_each_post steps _ (visit_post steps _)) in Hrun as (_ & _ & Hinv & Hall).
  split; [apply Hinv, sort_inv_start|].
  intros id Hid. apply Hall; [apply sort_inv_start | done | by apply find_step_is_Some].
Qed.

Lemma topologicalSort_cases (steps : list PlanStep) :
  ∃ cyc, hasCyclicDependencies steps = Some cyc ∧
         (cyc = true ↔ cyclic steps) ∧
         if cyc
         then topologicalSort steps = Throw "Circular dependency detected"
         else ∃ sortedSteps, topologicalSort steps = Ok sortedSteps.
Proof.
  destruct (hasCyclicDependencies_spec steps) as (cyc & Hcyc & Hiff).
  exists cyc. split; [done|]. split; [done|].
  pose proof (topologicalSort_total steps) as Htotal.
  destruct (topologicalSort steps) as [sortedSteps|m|] eqn:Hsort; [| |done].
  - apply topologicalSort_Ok in Hsort as (st & _ & Hinv & Hall).
    pose proof (sorted_acyclic steps st Hinv Hall) as Hac.
    destruct cyc; [destruct Hac; by apply Hiff | by eexists].
  - unfold topologicalSort in Hsort.
    destruct (visit_each _ _ _) as [st|m'|] eqn:Hrun; [done| |done].
    inversion Hsort; subst m'; clear Hsort.
    assert (Hc : cyclic steps).
    { eapply (visit_each_throw steps _ m (visit_visiting steps _) (visit_throw steps _ m));
        [exact Hrun|]. intros x d Hx. simpl in Hx. set_solver. }
    assert (Hm : m = "Circular dependency detected")
      by (by eapply (visit_each_throw_message _ (visit_throw_message steps _))).
    apply Hiff in Hc. by subst.
Qed.

(** X3.  [topologicalSort] and [hasCyclicDependencies] agree: the sort
    throws "Circular dependency detected" exactly for the step lists in
    which [hasCyclicDependencies] finds a cycle, and returns a list for
    all others. *)
Theorem topologicalSort_agrees_with_hasCyclicDependencies (steps : list PlanStep) :
  ∃ cyc, hasCyclicDependencies steps = Some cyc ∧
         (cyc = true ↔ cyclic steps) ∧
         if cyc
         then topologicalSort steps = Throw "Circular dependency detected"
         else ∃ sortedSteps, topologicalSort steps = Ok sortedSteps.
Proof. apply topologicalSort_cases. Qed.

(** X4.  The list [topologicalSort] returns holds, once each, the step
    that [steps.find] resolves each step id to, and every dependency
    that names a step stands before the step that declares it; with
    distinct step ids it is a permutation of the steps. *)
Theorem topologicalSort_order (steps sortedSteps : list PlanStep) :
  topologicalSort steps = Ok sortedSteps →
  NoDup (map ps_id sortedSteps) ∧
  (∀ s, s ∈ sortedSteps ↔ ps_id s ∈ map ps_id steps ∧ find_step steps (ps_id s) = Some s) ∧
  (∀ i s d, sortedSteps !! i = Some s → d ∈ ps_dependencies s →
     d ∈ map ps_id steps →
     ∃ j s', j < i ∧ sortedSteps !! j = Some s' ∧ ps_id s' = d) ∧
  (NoDup (map ps_id steps) → sortedSteps ≡ₚ steps).
Proof.
  intros (st & <- & Hinv & Hall)%topologicalSort_Ok.
  assert (Hmem : ∀ s, s ∈ sorted st ↔
            ps_id s ∈ map ps_id steps ∧ find_step steps (ps_id s) = Some s).
  { intros s. split.
    - intros Hs. pose proof (inv_found _ _ Hinv s Hs) as Hf. split; [|done].
      apply find_step_Some in Hf as [Hin _]. apply list_elem_of_fmap. eauto.
    - intros [Hid Hf]. apply Hall, (inv_visited _ _ Hinv) in Hid.
      apply list_elem_of_fmap in Hid as (s' & Heq & Hs').
      pose proof (inv_found _ _ Hinv s' Hs') as Hf'. rewrite <- Heq in Hf'.
      assert (s = s') as -> by congruence. done. }
  split; [apply (inv_nodup _ _ Hinv)|]. split; [done|]. split.
  - intros i s d Hi Hd Hin.
    pose proof (inv_ordered _ _ Hinv i s d Hi Hd (find_step_is_Some _ _ Hin)) as Hpos.
    apply list_elem_of_fmap in Hpos as (s' & -> & Hs').
    apply elem_of_take in Hs' as (j & Hj & Hlt). by exists j, s'.
  - intros Hnd. apply NoDup_Permutation.
    + eapply NoDup_fmap_1. apply (inv_nodup _ _ Hinv).
    + by eapply NoDup_fmap_1.
    + intros s. rewrite Hmem. split.
      * intros [_ Hf]. by apply find_step_Some in Hf as [Hin _].
      * intros Hs. split; [apply list_elem_of_fmap; eauto|].
        by apply find_step_unique.
Qed.

Lemma topologicalSort_order_witness :
  NoDup (map ps_id [step_A None; step_B]) ∧
  (∀ s, s ∈ [step_A None; step_B] ↔
        ps_id s ∈ map ps_id [step_B; step_A None] ∧
        find_step [step_B; step_A None] (ps_id s) = Some s) ∧
  (∀ i s d, [step_A None; step_B] !! i = Some s → d ∈ ps_dependencies s →
     d ∈ map ps_id [step_B; step_A None] →
     ∃ j s', j < i ∧ [step_A None; step_B] !! j = Some s' ∧ ps_id s' = d) ∧
  (NoDup (map ps_id [step_B; step_A None]) → [step_A None; step_B] ≡ₚ [step_B; step_A None]).
Proof.
  apply (topologicalSort_order [step_B; step_A None] [step_A None; step_B]).
  vm_compute. reflexivity.
Defined.

(** *** [executeStep] *)

Lemma getTool_is_Some registry name : is_Some (getTool registry name) ↔ name ∈ registry.
Proof.
  unfold getTool. split.
  - intros [t Ht]. apply find_some in Ht as [Hin Heq]. apply String.eqb_eq in Heq.
    subst. by apply list_elem_of_In.
  - intros Hin. destruct (List.find _ registry) eqn:Hf; [by eexists|].
    apply list_elem_of_In in Hin. apply (find_none _ _ Hf) in Hin.
    by rewrite String.eqb_refl in Hin.
Qed.

Lemma missing_tools_nil registry tools :
  flat_map (λ toolName,
    match getTool registry toolName with
    | Some _ => []
    | None => ["Required tool '" +:+ toolName +:+ "' not available"]
    end) tools = [] ↔ ∀ tool, tool ∈ tools → tool ∈ registry.
Proof.
  induction tools as [|t ts IH]; simpl.
  - split; [intros _ tool Ht; by apply elem_of_nil in Ht | done].
  - destruct (getTool registry t) as [x|] eqn:Hg; simpl.
    + rewrite IH. assert (t ∈ registry) by (apply getTool_is_Some; by eexists).
      split; [|intros H' tool Ht; apply H'; by right].
      intros H' tool [->|Ht]%elem_of_cons; [done | by apply H'].
    + split; [done|]. intros H'. assert (Hin : t ∈ registry) by (apply H'; left).
      apply getTool_is_Some in Hin as [x Hx]. congruence.
Qed.

Lemma calculateStepConfidence_range step output validationPassed :
  PrimFloat.leb 0.5 (calculateStepConfidence step output validationPassed) = true ∧
  PrimFloat.leb (calculateStepConfidence step output validationPassed) 1 = true.
Proof.
  unfold calculateStepConfidence.
  destruct validationPassed, (50 <? String.length output), (ps_estimatedComplexity step);
    by vm_compute.
Qed.

Lemma executeStep_cases
    (step : PlanStep) (context : PlanExecutionContext)
    (previousResults : list StepResult) (elapsed : Z) :
  let r := executeStep step context previousResults elapsed in
  sr_stepId r = ps_id step ∧
  (sr_success r = true ↔
   ∀ tool, tool ∈ ps_requiredTools step → tool ∈ ctx_toolRegistry context) ∧
  (sr_success r = false →
   sr_toolsUsed r = [] ∧ sr_confidence r = 0%float ∧ sr_validationPassed r = false ∧
   sr_errors r =
     map (λ tool, "Required tool '" +:+ tool +:+ "' not available")
       (List.filter (λ tool, negb (bool_decide (tool ∈ ctx_toolRegistry context)))
          (ps_requiredTools step))) ∧
  (sr_success r = true →
   sr_toolsUsed r =
     (match ps_type step with tool_call => ps_requiredTools step | _ => [] end) ∧
   sr_errors r = [] ∧
   PrimFloat.leb 0.5 (sr_confidence r) = true ∧ PrimFloat.leb (sr_confidence r) 1 = true).
Proof.
  intros r. split; [apply executeStep_id|].
  assert (Herrors :
    flat_map (λ toolName,
      match getTool (ctx_toolRegistry context) toolName with
      | Some _ => []
      | None => ["Required tool '" +:+ toolName +:+ "' not available"]
      end) (ps_requiredTools step)
    = map (λ tool, "Required tool '" +:+ tool +:+ "' not available")
        (List.filter (λ tool, negb (bool_decide (tool ∈ ctx_toolRegistry context)))
           (ps_requiredTools step))).
  { induction (ps_requiredTools step) as [|t ts IH]; [done|]. simpl. rewrite IH.
    destruct (getTool (ctx_toolRegistry context) t) as [x|] eqn:Hg.
    - rewrite bool_decide_eq_true_2 by (apply getTool_is_Some; by eexists). done.
    - rewrite bool_decide_eq_false_2; [done|].
      intros [x Hx]%getTool_is_Some. congruence. }
  pose proof (missing_tools_nil (ctx_toolRegistry context) (ps_requiredTools step)) as Hnil.
  subst r. unfold executeStep. rewrite <- Herrors.
  destruct (flat_map _ (ps_requiredTools step)) as [|e es] eqn:Hmissing.
  - destruct (step_body step previousResults) as [output toolsUsed] eqn:Hbody. simpl.
    split; [split; [intros _; by apply Hnil | done]|]. split; [done|]. intros _.
    split; [|split; [done | apply calculateStepConfidence_range]].
    unfold step_body in Hbody. destruct (ps_type step); by inversion Hbody.
  - simpl. split; [|split; [done | by intros ?]].
    split; [done|]. intros Hall. by apply Hnil in Hall.
Qed.

(** X5.  What [executeStep] returns.  The step succeeds exactly when all
    its required tools are in the registry of the execution context.  A
    failed result records no tool, has confidence 0 and lists one error
    per missing tool; a successful one records the required tools of a
    [tool_call] step and no tool for the other types, carries no error,
    and has a confidence between 0.5 and 1. *)
Theorem executeStep_result
    (step : PlanStep) (context : PlanExecutionContext)
    (previousResults : list StepResult) (elapsed : Z) :
  let r := executeStep step context previousResults elapsed in
  sr_stepId r = ps_id step ∧
  (sr_success r = true ↔
   ∀ tool, tool ∈ ps_requiredTools step → tool ∈ ctx_toolRegistry context) ∧
  (sr_success r = false →
   sr_toolsUsed r = [] ∧ sr_confidence r = 0%float ∧ sr_validationPassed r = false ∧
   sr_errors r =
     map (λ tool, "Required tool '" +:+ tool +:+ "' not available")
       (List.filter (λ tool, negb (bool_decide (tool ∈ ctx_toolRegistry context)))
          (ps_requiredTools step))) ∧
  (sr_success r = true →
   sr_toolsUsed r =
     (match ps_type step with tool_call => ps_requiredTools step | _ => [] end) ∧
   sr_errors r = [] ∧
   PrimFloat.leb 0.5 (sr_confidence r) = true ∧ PrimFloat.leb (sr_confidence r) 1 = true).
Proof. apply executeStep_cases. Qed.

Lemma executeStep_confidence step context previousResults elapsed :
  PrimFloat.leb 0 (sr_confidence (executeStep step context previousResults elapsed)) = true ∧
  PrimFloat.leb (sr_confidence (executeStep step context previousResults elapsed)) 1 = true.
Proof.
  unfold executeStep. destruct (flat_map _ _); [|by vm_compute].
  destruct (step_body step previousResults) as [output toolsUsed]. simpl.
  unfold calculateStepConfidence.
  destruct (validateStepOutput step output), (50 <? String.length output),
    (ps_estimatedComplexity step); by vm_compute.
Qed.

(** *** [executePlan] when nothing is missing *)

Section all_succeed.
Variable steps : list PlanStep.
Variable context : PlanExecutionContext.
Variable elapsed : PlanStep → Z.

Lemma run_steps_all_succeed sortedSteps :
  ordered steps sortedSteps →
  (∀ s dep, s ∈ sortedSteps → dep ∈ ps_dependencies s → dep ∈ map ps_id steps) →
  (∀ s tool, s ∈ sortedSteps → tool ∈ ps_requiredTools s →
             tool ∈ ctx_toolRegistry context) →
  ∀ todo pre acc,
    sortedSteps = pre ++ todo →
    map sr_stepId (ex_results acc) = map ps_id pre →
    Forall (λ r, sr_success r = true) (ex_results acc) →
    ex_halted acc = false →
    let run := run_steps context elapsed todo acc in
    ex_halted run = false ∧
    map sr_stepId (ex_results run) = map ps_id sortedSteps ∧
    Forall (λ r, sr_success r = true) (ex_results run).
Proof.
  intros Hord Hdeps Htools.
  induction todo as [|s rest IH]; intros pre acc Hsplit Hids Hok Hhalt; simpl.
  - rewrite app_nil_r in Hsplit. by subst.
  - assert (Hs : s ∈ sortedSteps) by (rewrite Hsplit; set_solver).
    assert (Hsat : depsSatisfied s (ex_results acc) = true).
    { apply depsSatisfied_spec. intros dep Hdep.
      assert (Hpos : dep ∈ map ps_id (take (length pre) sortedSteps)).
      { apply (Hord (length pre) s dep); [|done|].
        - by rewrite Hsplit, list_lookup_middle.
        - apply find_step_is_Some. by eapply Hdeps. }
      rewrite Hsplit, take_app_length, <- Hids in Hpos.
      apply list_elem_of_fmap in Hpos as (r & -> & Hr). exists r.
      split; [done|]. split; [done|]. by apply (proj1 (Forall_forall _ _) Hok). }
    rewrite Hsat. simpl.
    assert (Hsucc : sr_success (executeStep s context (ex_results acc) (elapsed s)) = true).
    { apply executeStep_cases. intros tool Ht. by eapply Htools. }
    rewrite Hsucc. simpl.
    apply (IH (pre ++ [s])); simpl.
    + by rewrite <- app_assoc.
    + rewrite !map_app, Hids. simpl. by rewrite executeStep_id.
    + apply Forall_app. split; [done|]. by constructor.
    + done.
Qed.

End all_succeed.

Lemma executePlan_runs_all
    (self : HierarchicalPlanner) (planId : string) (plan : HierarchicalPlan)
    (context : PlanExecutionContext) (elapsed : PlanStep → Z) :
  activePlans self !! planId = Some plan →
  hasCyclicDependencies (hp_steps plan) = Some false →
  (∀ step dep, step ∈ hp_steps plan → dep ∈ ps_dependencies step →
               dep ∈ map ps_id (hp_steps plan)) →
  (∀ step tool, step ∈ hp_steps plan → tool ∈ ps_requiredTools step →
                tool ∈ ctx_toolRegistry context) →
  ∃ self' run sortedSteps,
    executePlan self planId context elapsed = Ok (self', run) ∧
    topologicalSort (hp_steps plan) = Ok sortedSteps ∧
    map sr_stepId (ex_results run) = map ps_id sortedSteps ∧
    Forall (λ r, sr_success r = true) (ex_results run) ∧
    ex_halted run = false ∧
    getExecutionResults self' planId = Some (ex_results run).
Proof.
  intros Hplan Hac Hdeps Htools.
  destruct (topologicalSort_cases (hp_steps plan)) as (cyc & Hcyc & _ & Hsort).
  assert (cyc = false) as -> by congruence. destruct Hsort as [sortedSteps Hsort].
  unfold executePlan. rewrite Hplan, Hsort. eexists _, _, sortedSteps.
  split; [done|]. split; [done|].
  apply topologicalSort_Ok in Hsort as Hst. destruct Hst as (st & <- & Hinv & _).
  assert (Hsub : ∀ s, s ∈ sorted st → s ∈ hp_steps plan).
  { intros s Hs. pose proof (inv_found _ _ Hinv s Hs) as Hf.
    by apply find_step_Some in Hf as [Hin _]. }
  destruct (run_steps_all_succeed (hp_steps plan) context elapsed (sorted st)
              (inv_ordered _ _ Hinv)
              (λ s dep Hs, Hdeps s dep (Hsub s Hs))
              (λ s tool Hs, Htools s tool (Hsub s Hs))
              (sorted st) [] execution_start eq_refl eq_refl (Forall_nil_2 _) eq_refl)
    as (Hhalt & Hids & Hok).
  split; [done|]. split; [done|]. split; [done|].
  unfold getExecutionResults. simpl. by rewrite lookup_insert_eq.
Qed.

Definition context_deploy : PlanExecutionContext :=
  {| ctx_currentStep := 0; ctx_completedSteps := []; ctx_availableTools := ["deploy"];
     ctx_toolRegistry := ["deploy"]; ctx_userGoal := "g"; ctx_workingDirectory := "/";
     ctx_timeoutMs := 1000 |}.

(** X6.  A stored plan without cycle whose dependency ids all name a step
    of the plan, run in a context whose registry holds every required
    tool, is executed completely: [executePlan] returns one successful
    result per step, in topological order, never takes the [break], and
    stores the results under the plan id. *)
Theorem executePlan_all_succeed
    (self : HierarchicalPlanner) (planId : string) (plan : HierarchicalPlan)
    (context : PlanExecutionContext) (elapsed : PlanStep → Z) :
  activePlans self !! planId = Some plan →
  hasCyclicDependencies (hp_steps plan) = Some false →
  (∀ step dep, step ∈ hp_steps plan → dep ∈ ps_dependencies step →
               dep ∈ map ps_id (hp_steps plan)) →
  (∀ step tool, step ∈ hp_steps plan → tool ∈ ps_requiredTools step →
                tool ∈ ctx_toolRegistry context) →
  ∃ self' run sortedSteps,
    executePlan self planId context elapsed = Ok (self', run) ∧
    topologicalSort (hp_steps plan) = Ok sortedSteps ∧
    map sr_stepId (ex_results run) = map ps_id sortedSteps ∧
    Forall (λ r, sr_success r = true) (ex_results run) ∧
    ex_halted run = false ∧
    getExecutionResults self' planId = Some (ex_results run).
Proof. apply executePlan_runs_all. Qed.

Lemma executePlan_all_succeed_witness :
  ∃ self' run sortedSteps,
    executePlan (planner_with [step_B; step_A None]) "p" context_deploy no_time
      = Ok (self', run) ∧
    topologicalSort [step_B; step_A None] = Ok sortedSteps ∧
    map sr_stepId (ex_results run) = map ps_id sortedSteps ∧
    Forall (λ r, sr_success r = true) (ex_results run) ∧
    ex_halted run = false ∧
    getExecutionResults self' "p" = Some (ex_results run).
Proof.
  apply (executePlan_all_succeed (planner_with [step_B; step_A None]) "p"
           (plan_of [step_B; step_A None]) context_deploy no_time).
  - vm_compute. reflexivity.
  - vm_compute. reflexivity.
  - intros step dep Hs Hd. apply list_elem_of_In in Hs. simpl in Hs.
    destruct Hs as [<-|[<-|[]]]; simpl in Hd.
    + apply list_elem_of_singleton in Hd as ->. apply (bool_decide_unpack _).
      vm_compute. exact I.
    + by apply elem_of_nil in Hd.
  - intros step tool Hs Ht. apply list_elem_of_In in Hs. simpl in Hs.
    destruct Hs as [<-|[<-|[]]]; simpl in Ht.
    + by apply elem_of_nil in Ht.
    + apply list_elem_of_singleton in Ht as ->. apply (bool_decide_unpack _).
      vm_compute. exact I.
Defined.

(** *** [executePlan]: what it returns, throws and stores *)

Lemma Ran_ids context elapsed prior todo new halted :
  Ran context elapsed prior todo new halted →
  map sr_stepId new = take (length new) (map ps_id todo).
Proof.
  induction 1 as [|prior step rest Hb|prior step rest new halted Hb Hran IH]; simpl.
  - done.
  - by rewrite step_result_id, take_0.
  - by rewrite step_result_id, IH.
Qed.

(** X7.  [executePlan] throws in two cases only: "Plan <id> not found"
    for an id without stored plan, and "Circular dependency detected" for
    a stored plan in which [hasCyclicDependencies] finds a cycle.
    Otherwise it returns results for the steps in the
    order of the topological sort, one per step up to the point where the
    loop ends, and one for every step unless the [break] was taken; it
    stores them under the plan id and leaves the plans and the results of
    other plans as they were. *)
Theorem executePlan_outcome
    (self : HierarchicalPlanner) (planId : string)
    (context : PlanExecutionContext) (elapsed : PlanStep → Z) :
  match executePlan self planId context elapsed with
  | Ok (self', run) =>
      ∃ plan sortedSteps,
        getPlan self planId = Some plan ∧
        hasCyclicDependencies (hp_steps plan) = Some false ∧
        topologicalSort (hp_steps plan) = Ok sortedSteps ∧
        map sr_stepId (ex_results run)
          = take (length (ex_results run)) (map ps_id sortedSteps) ∧
        (ex_halted run = false → length (ex_results run) = length sortedSteps) ∧
        (sortedSteps ≠ [] → ex_results run ≠ []) ∧
        getExecutionResults self' planId = Some (ex_results run) ∧
        (∀ other, other ≠ planId →
                  getExecutionResults self' other = getExecutionResults self other) ∧
        (∀ other, getPlan self' other = getPlan self other)
  | Throw m =>
      (getPlan self planId = None ∧ m = "Plan " +:+ planId +:+ " not found") ∨
      (∃ plan, getPlan self planId = Some plan ∧
               hasCyclicDependencies (hp_steps plan) = Some true ∧
               m = "Circular dependency detected")
  | OutOfFuel => False
  end.
Proof.
  unfold executePlan, getPlan, getExecutionResults.
  destruct (activePlans self !! planId) as [plan|] eqn:Hplan; [|by left].
  destruct (topologicalSort_cases (hp_steps plan)) as (cyc & Hcyc & _ & Hsort).
  destruct cyc.
  - rewrite Hsort. right. by exists plan.
  - destruct Hsort as [sortedSteps Hsort]. rewrite Hsort.
    exists plan, sortedSteps. split; [done|]. split; [done|]. split; [done|].
    destruct (run_steps_Ran context elapsed sortedSteps execution_start eq_refl)
      as (new & Hres & Hran).
    simpl in Hres. rewrite Hres.
    split; [by eapply Ran_ids|]. split; [|split; [|split; [|split]]].
    + intros Hhalt. rewrite Hhalt in Hran. by eapply Ran_completed.
    + intros Hne Hnil. rewrite Hnil in Hran. inversion Hran; subst; congruence.
    + simpl. by rewrite lookup_insert_eq.
    + intros other Hother. simpl. by rewrite lookup_insert_ne.
    + done.
Qed.

(** X8.  Every result [executePlan] returns belongs to a step of the
    sorted plan, names only tools that step requires, and has a
    confidence between 0 and 1; a failed result names no tool and has
    confidence 0, a successful one has confidence at least 0.5. *)
Theorem executePlan_results
    (self self' : HierarchicalPlanner) (planId : string)
    (context : PlanExecutionContext) (elapsed : PlanStep → Z) (run : Execution)
    (i : nat) (r : StepResult) :
  executePlan self planId context elapsed = Ok (self', run) →
  ex_results run !! i = Some r →
  ∃ plan sortedSteps step,
    getPlan self planId = Some plan ∧
    topologicalSort (hp_steps plan) = Ok sortedSteps ∧
    sortedSteps !! i = Some step ∧
    sr_stepId r = ps_id step ∧
    sr_toolsUsed r ⊆ ps_requiredTools step ∧
    PrimFloat.leb 0 (sr_confidence r) = true ∧
    PrimFloat.leb (sr_confidence r) 1 = true ∧
    (sr_success r = false → sr_toolsUsed r = [] ∧ sr_confidence r = 0%float) ∧
    (sr_success r = true → PrimFloat.leb 0.5 (sr_confidence r) = true).
Proof.
  intros (plan & sortedSteps & Hplan & Hsort & ->)%executePlan_Ok Hr.
  destruct (run_steps_Ran context elapsed sortedSteps execution_start eq_refl)
    as (new & Hres & Hran).
  simpl in Hres. rewrite Hres in Hr.
  destruct (Ran_lookup _ _ _ _ _ _ Hran i r Hr) as (step & Hstep & ->).
  exists plan, sortedSteps, step. split; [done|]. split; [done|]. split; [done|].
  split; [apply step_result_id|]. unfold step_result.
  generalize (ex_results execution_start ++ take i new). intros previousResults.
  destruct (depsSatisfied step _).
  - destruct (executeStep_cases step context previousResults (elapsed step))
      as (_ & _ & Hfail & Hsucc).
    destruct (executeStep_confidence step context previousResults (elapsed step))
      as [Hlo Hhi].
    split; [|split; [done|split; [done|split]]].
    + destruct (sr_success (executeStep step context _ _)).
      * destruct (Hsucc eq_refl) as (-> & _). destruct (ps_type step); set_solver.
      * destruct (Hfail eq_refl) as (-> & _). set_solver.
    + intros Hf. by destruct (Hfail Hf) as (? & ? & _).
    + intros Hs. by destruct (Hsucc Hs) as (_ & _ & ? & _).
  - simpl. split; [set_solver|]. by vm_compute.
Qed.

Definition run_BA : Execution :=
  run_steps context_deploy no_time [step_A None; step_B] execution_start.

Lemma executePlan_results_witness :
  ∃ plan sortedSteps step,
    getPlan (planner_with [step_B; step_A None]) "p" = Some plan ∧
    topologicalSort (hp_steps plan) = Ok sortedSteps ∧
    sortedSteps !! 1 = Some step ∧
    sr_stepId (executeStep step_B context_deploy
                 [executeStep (step_A None) context_deploy [] 0] 0) = ps_id step ∧
    sr_toolsUsed (executeStep step_B context_deploy
                    [executeStep (step_A None) context_deploy [] 0] 0)
      ⊆ ps_requiredTools step ∧
    PrimFloat.leb 0 (sr_confidence (executeStep step_B context_deploy
                       [executeStep (step_A None) context_deploy [] 0] 0)) = true ∧
    PrimFloat.leb (sr_confidence (executeStep step_B context_deploy
                     [executeStep (step_A None) context_deploy [] 0] 0)) 1 = true ∧
    (sr_success (executeStep step_B context_deploy
                   [executeStep (step_A None) context_deploy [] 0] 0) = false →
     sr_toolsUsed (executeStep step_B context_deploy
                     [executeStep (step_A None) context_deploy [] 0] 0) = [] ∧
     sr_confidence (executeStep step_B context_deploy
                      [executeStep (step_A None) context_deploy [] 0] 0) = 0%float) ∧
    (sr_success (executeStep step_B context_deploy
                   [executeStep (step_A None) context_deploy [] 0] 0) = true →
     PrimFloat.leb 0.5 (sr_confidence (executeStep step_B context_deploy
                          [executeStep (step_A None) context_deploy [] 0] 0)) = true).
Proof.
  apply (executePlan_results (planner_with [step_B; step_A None])
           {| toolRegistry := ["ls"];
              activePlans := activePlans (planner_with [step_B; step_A None]);
              executionResults := <["p" := ex_results run_BA]> ∅ |}
           "p" context_deploy no_time run_BA 1).
  - vm_compute. reflexivity.
  - vm_compute. reflexivity.
Defined.

(** *** [createPlan] *)

Lemma validatePlan_valid self plan r :
  validatePlan self plan = Some r → vr_isValid r = true →
  hasCyclicDependencies (hp_steps plan) = Some false ∧
  (∀ step tool, step ∈ hp_steps plan → tool ∈ ps_requiredTools step →
                tool ∈ toolRegistry self) ∧
  (∀ step dep, step ∈ hp_steps plan → dep ∈ ps_dependencies step →
               dep ∈ map ps_id (hp_steps plan)).
Proof.
  unfold validatePlan. intros Hval Hvalid.
  destruct (hasCyclicDependencies (hp_steps plan)) as [cyc|]; [|done].
  simpl in Hval. inversion Hval; subst r; clear Hval. simpl in Hvalid.
  apply Nat.eqb_eq, length_zero_iff_nil in Hvalid.
  apply app_eq_nil in Hvalid as [Hc Hrest]. apply app_eq_nil in Hrest as [Ht Ho].
  split; [by destruct cyc|]. split.
  - intros step tool Hs Htool.
    destruct (decide (tool ∈ toolRegistry self)) as [|Hnot]; [done|].
    assert (He : missing_tool_error tool (ps_id step)
                 ∈ tool_errors (toolRegistry self) (hp_steps plan))
      by (apply tool_errors_In; eauto 10).
    rewrite Ht in He. by apply elem_of_nil in He.
  - intros step dep Hs Hdep.
    destruct (decide (dep ∈ map ps_id (hp_steps plan))) as [|Hnot]; [done|].
    assert (He : missing_step_error (ps_id step) dep ∈ orphan_errors (hp_steps plan))
      by (apply orphan_errors_In; eauto 10).
    rewrite Ho in He. by apply elem_of_nil in He.
Qed.

(** The plan [createPlan] hands to [validatePlan]. *)
Definition draft (self : HierarchicalPlanner) (planId : string) (now : Z)
    (goal context : string) (constraints : list string) : HierarchicalPlan :=
  {| hp_id := planId; hp_title := extractPlanTitle goal;
     hp_description := goal; hp_goal := goal;
     hp_steps := decomposeGoal goal context (toolRegistry self) constraints;
     hp_estimatedDuration := 0; hp_riskLevel := risk_medium;
     hp_createdAt := now; hp_availableTools := toolRegistry self;
     hp_contextConstraints := constraints |}.

Lemma createPlan_Ok self planId now goal context constraints self' plan :
  createPlan self planId now goal context constraints = Ok (self', plan) →
  hp_steps plan = decomposeGoal goal context (toolRegistry self) constraints ∧
  hp_id plan = planId ∧
  hp_estimatedDuration plan = calculateEstimatedDuration (hp_steps plan) ∧
  hp_riskLevel plan = assessRiskLevel (hp_steps plan) ∧
  toolRegistry self' = toolRegistry self ∧
  activePlans self' = <[planId := plan]> (activePlans self) ∧
  executionResults self' = executionResults self ∧
  ∃ r, validatePlan self (draft self planId now goal context constraints) = Some r ∧
       vr_isValid r = true.
Proof.
  unfold createPlan. fold (draft self planId now goal context constraints).
  intros H.
  destruct (validatePlan self _) as [r|] eqn:Hval; [|done].
  destruct (vr_isValid r) eqn:Hvalid; simpl in H; [|done].
  inversion H; subst; clear H. simpl. repeat (split; [done|]). by exists r.
Qed.

Lemma decomposeGoal_sorted goal context availableTools constraints :
  topologicalSort (decomposeGoal goal context availableTools constraints)
  = Ok (decomposeGoal goal context availableTools constraints).
Proof.
  unfold decomposeGoal.
  destruct (isFileSystemTask goal), (isCodeTask goal), (isAnalysisTask goal);
    by vm_compute.
Qed.

(** The draft of [createPlan] has no dependency cycle and no dependency
    on a missing step, so its validation errors are the missing tools. *)
Lemma validatePlan_draft self planId now goal context constraints :
  ∃ r, validatePlan self (draft self planId now goal context constraints) = Some r ∧
       vr_errors r = tool_errors (toolRegistry self)
                       (decomposeGoal goal context (toolRegistry self) constraints) ∧
       vr_isValid r = (length (vr_errors r) =? 0).
Proof.
  unfold validatePlan, draft. cbn [hp_steps].
  assert (Hcyc : hasCyclicDependencies
                   (decomposeGoal goal context (toolRegistry self) constraints)
                 = Some false).
  { unfold decomposeGoal.
    destruct (isFileSystemTask goal), (isCodeTask goal), (isAnalysisTask goal);
      vm_compute; reflexivity. }
  assert (Horph : orphan_errors
                    (decomposeGoal goal context (toolRegistry self) constraints) = []).
  { unfold decomposeGoal.
    destruct (isFileSystemTask goal), (isCodeTask goal), (isAnalysisTask goal);
      vm_compute; reflexivity. }
  rewrite Hcyc, Horph. cbn [mbind option_bind app]. rewrite app_nil_r.
  eexists. split; [reflexivity|]. split; reflexivity.
Qed.

(** The first validation error of a draft that misses one of the three
    tools of [analysis-1] names that step. *)
Lemma tool_errors_first allTools goal context constraints :
  ¬ ("read_file" ∈ allTools ∧ "ls" ∈ allTools ∧ "grep" ∈ allTools) →
  ∃ tool rest, tool ∈ ["read_file"; "ls"; "grep"] ∧ tool ∉ allTools ∧
    tool_errors allTools (decomposeGoal goal context allTools constraints)
    = missing_tool_error tool "analysis-1" :: rest.
Proof.
  intros Hnot. unfold decomposeGoal, tool_errors.
  cbn [app flat_map ps_requiredTools ps_id].
  destruct (JS.arr_includes allTools "read_file") eqn:Hr; cbn [negb app].
  - destruct (JS.arr_includes allTools "ls") eqn:Hl; cbn [negb app].
    + destruct (JS.arr_includes allTools "grep") eqn:Hg; cbn [negb app].
      * destruct Hnot. by rewrite <- !arr_includes_In.
      * eexists "grep", _. split; [set_solver|]. split; [|reflexivity].
        rewrite <- arr_includes_In. congruence.
    + eexists "ls", _. split; [set_solver|]. split; [|reflexivity].
      rewrite <- arr_includes_In. congruence.
  - eexists "read_file", _. split; [set_solver|]. split; [|reflexivity].
    rewrite <- arr_includes_In. congruence.
Qed.

(** X9.  [createPlan] returns a plan exactly when the registry holds the
    three tools of the fixed first step, [read_file], [ls] and [grep], and
    then the plan is stored under its id.  Otherwise it throws the message
    "Invalid plan: " followed by the validation errors joined by ", ".
    These errors are, in the order of the steps and of their required
    tools, one "Required tool 'T' is not available for step 'S'" for each
    required tool T of a step S of the decomposition that is not
    registered, and nothing else; the first of them is about a tool of
    the step [analysis-1]. *)
Theorem createPlan_outcome
    (self : HierarchicalPlanner) (planId : string) (now : Z)
    (goal context : string) (constraints : list string) :
  match createPlan self planId now goal context constraints with
  | Ok (self', plan) =>
      "read_file" ∈ toolRegistry self ∧ "ls" ∈ toolRegistry self ∧
      "grep" ∈ toolRegistry self ∧
      getPlan self' planId = Some plan
  | Throw m =>
      ¬ ("read_file" ∈ toolRegistry self ∧ "ls" ∈ toolRegistry self ∧
         "grep" ∈ toolRegistry self) ∧
      let steps := decomposeGoal goal context (toolRegistry self) constraints in
      let errors :=
        flat_map (λ step,
          flat_map (λ tool,
            if bool_decide (tool ∈ toolRegistry self) then []
            else ["Required tool '" +:+ tool +:+ "' is not available for step '"
                    +:+ ps_id step +:+ "'"])
            (ps_requiredTools step)) steps in
      m = "Invalid plan: " +:+ JS.join ", " errors ∧
      ∃ tool rest,
        tool ∈ ["read_file"; "ls"; "grep"] ∧ tool ∉ toolRegistry self ∧
        errors = ("Required tool '" +:+ tool
                    +:+ "' is not available for step 'analysis-1'") :: rest
  | OutOfFuel => False
  end.
Proof.
  destruct (createPlan self planId now goal context constraints) as [[self' plan]|m|] eqn:H.
  - apply createPlan_Ok in H as (Hsteps & _ & _ & _ & _ & Hplans & _ & r & Hval & Hvalid).
    apply validatePlan_valid in Hval as (_ & Htools & _); [|done].
    unfold draft in Htools. cbn [hp_steps toolRegistry] in Htools.
    assert (Hfirst : ∀ tool, tool ∈ ["read_file"; "ls"; "grep"] → tool ∈ toolRegistry self).
    { intros tool Ht. eapply Htools; [unfold decomposeGoal; simpl; left | exact Ht]. }
    split; [apply Hfirst; set_solver|]. split; [apply Hfirst; set_solver|].
    split; [apply Hfirst; set_solver|].
    unfold getPlan. by rewrite Hplans, lookup_insert_eq.
  - assert (Hnot : ¬ ("read_file" ∈ toolRegistry self ∧ "ls" ∈ toolRegistry self ∧
                      "grep" ∈ toolRegistry self)).
    { intros (Hr & Hl & Hg).
      destruct (createPlan_succeeds self planId now goal context constraints Hr Hl Hg)
        as (self' & plan & Hok). congruence. }
    split; [exact Hnot|].
    assert (Htool : ∀ steps,
              flat_map (λ step,
                flat_map (λ tool,
                  if bool_decide (tool ∈ toolRegistry self) then []
                  else [missing_tool_error tool (ps_id step)])
                  (ps_requiredTools step)) steps
              = tool_errors (toolRegistry self) steps).
    { intros steps. unfold tool_errors. apply flat_map_ext. intros step.
      apply flat_map_ext. intros tool.
      destruct (JS.arr_includes (toolRegistry self) tool) eqn:Hinc.
      - apply arr_includes_In in Hinc. by rewrite bool_decide_eq_true_2.
      - rewrite bool_decide_eq_false_2; [done|].
        intros Hin. apply arr_includes_In in Hin. congruence. }
    cbv zeta. change (λ step : PlanStep, flat_map _ (ps_requiredTools step))
      with (λ step : PlanStep,
              flat_map (λ tool,
                if bool_decide (tool ∈ toolRegistry self) then []
                else [missing_tool_error tool (ps_id step)])
                (ps_requiredTools step)).
    rewrite Htool.
    unfold createPlan in H. fold (draft self planId now goal context constraints) in H.
    destruct (validatePlan_draft self planId now goal context constraints)
      as (r & Hval & Herr & _).
    rewrite Hval in H. destruct (vr_isValid r); simpl in H; [done|].
    inversion H; subst m; clear H. rewrite Herr. split; [reflexivity|].
    exact (tool_errors_first (toolRegistry self) goal context constraints Hnot).
  - by apply createPlan_total in H.
Qed.

(** X10.  The plan [createPlan] returns has four steps, [analysis-1],
    [verification-1], one step chosen by the goal's category and
    [synthesis-1], already in execution order.  The last step depends on
    the first two only, not on the category step.  The risk level is
    always low, and the estimated duration is 210 for a file system goal
    and 300 for every other goal.  The plan is stored under its id and the
    other plans are left alone. *)
Theorem createPlan_plan
    (self self' : HierarchicalPlanner) (planId : string) (now : Z)
    (goal context : string) (constraints : list string) (plan : HierarchicalPlan) :
  createPlan self planId now goal context constraints = Ok (self', plan) →
  (∃ first second third last,
     hp_steps plan = [first; second; third; last] ∧
     ps_id first = "analysis-1" ∧ ps_id second = "verification-1" ∧
     ps_id third =
       (if isFileSystemTask goal then "fs-1"
        else if isCodeTask goal then "code-1"
        else if isAnalysisTask goal then "analysis-2" else "general-1") ∧
     ps_id last = "synthesis-1" ∧
     ps_dependencies first = [] ∧
     ps_dependencies second = ["analysis-1"] ∧
     ps_dependencies third = ["verification-1"] ∧
     ps_dependencies last = ["analysis-1"; "verification-1"]) ∧
  topologicalSort (hp_steps plan) = Ok (hp_steps plan) ∧
  hp_riskLevel plan = risk_low ∧
  hp_estimatedDuration plan = (if isFileSystemTask goal then 210 else 300)%Z ∧
  getPlan self' planId = Some plan ∧
  (∀ other, other ≠ planId → getPlan self' other = getPlan self other) ∧
  (∀ other, getExecutionResults self' other = getExecutionResults self other).
Proof.
  intros (Hsteps & _ & Hdur & Hrisk & _ & Hplans & Hres & _)%createPlan_Ok.
  rewrite Hdur, Hrisk, Hsteps. unfold getPlan, getExecutionResults. rewrite Hplans, Hres.
  split; [|split; [apply decomposeGoal_sorted|split; [|split; [|split; [|split]]]]].
  - unfold decomposeGoal.
    destruct (isFileSystemTask goal), (isCodeTask goal), (isAnalysisTask goal);
      simpl; by eexists _, _, _, _.
  - unfold decomposeGoal.
    by destruct (isFileSystemTask goal), (isCodeTask goal), (isAnalysisTask goal).
  - unfold decomposeGoal.
    by destruct (isFileSystemTask goal), (isCodeTask goal), (isAnalysisTask goal).
  - by rewrite lookup_insert_eq.
  - intros other Hother. by rewrite lookup_insert_ne.
  - done.
Qed.

Lemma createPlan_plan_witness :
  ∃ self' plan,
    createPlan planner_rlg "plan_1" 0 "read the file" "" [] = Ok (self', plan) ∧
    map ps_id (hp_steps plan) = ["analysis-1"; "verification-1"; "fs-1"; "synthesis-1"] ∧
    hp_estimatedDuration plan = 210%Z ∧
    getPlan self' "plan_1" = Some plan.
Proof.
  assert (H : ∃ sp, createPlan planner_rlg "plan_1" 0 "read the file" "" [] = Ok sp).
  { eexists. vm_compute. reflexivity. }
  destruct H as [[self' plan] H]. exists self', plan. split; [exact H|].
  destruct (createPlan_plan planner_rlg self' "plan_1" 0 "read the file" "" [] plan H)
    as ((first & second & third & last & -> & H1 & H2 & H3 & H4 & _) & _ & _ & Hd & Hg & _).
  split; [|split; [exact Hd | exact Hg]].
  simpl. rewrite H1, H2, H3, H4. reflexivity.
Defined.

(** X11.  A plan that [createPlan] has returned runs to the end in every
    context whose registry holds the planner's tools: [executePlan]
    returns four successful results, in the order of the plan's steps,
    and does not take the [break]. *)
Theorem createPlan_then_executePlan
    (self self' : HierarchicalPlanner) (planId : string) (now : Z)
    (goal context : string) (constraints : list string) (plan : HierarchicalPlan)
    (executionContext : PlanExecutionContext) (elapsed : PlanStep → Z) :
  createPlan self planId now goal context constraints = Ok (self', plan) →
  (∀ tool, tool ∈ toolRegistry self → tool ∈ ctx_toolRegistry executionContext) →
  ∃ self'' run,
    executePlan self' planId executionContext elapsed = Ok (self'', run) ∧
    map sr_stepId (ex_results run) = map ps_id (hp_steps plan) ∧
    length (ex_results run) = 4 ∧
    Forall (λ r, sr_success r = true) (ex_results run) ∧
    ex_halted run = false ∧
    getExecutionResults self'' planId = Some (ex_results run).
Proof.
  intros Hcreate Hreg.
  apply createPlan_Ok in Hcreate
    as (Hsteps & _ & _ & _ & _ & Hplans & _ & r & Hval & Hvalid).
  apply validatePlan_valid in Hval as (Hcyc & Htools & Hdeps); [|done].
  unfold draft in Hcyc, Htools, Hdeps. cbn [hp_steps] in Hcyc, Htools, Hdeps.
  rewrite <- Hsteps in Hcyc, Htools, Hdeps.
  destruct (executePlan_runs_all self' planId plan executionContext elapsed)
    as (self'' & run & sortedSteps & Hrun & Hsort & Hids & Hok & Hhalt & Hstored);
    [by rewrite Hplans, lookup_insert_eq | done | done | by eauto |].
  assert (sortedSteps = hp_steps plan) as ->.
  { rewrite Hsteps, decomposeGoal_sorted in Hsort. rewrite Hsteps. congruence. }
  exists self'', run. split; [done|]. split; [done|]. split; [|done].
  rewrite <- (length_map sr_stepId), Hids, length_map, Hsteps. unfold decomposeGoal.
  by destruct (isFileSystemTask goal), (isCodeTask goal), (isAnalysisTask goal).
Qed.

Definition context_rlg : PlanExecutionContext :=
  {| ctx_currentStep := 0; ctx_completedSteps := [];
     ctx_availableTools := ["read_file"; "ls"; "grep"];
     ctx_toolRegistry := ["read_file"; "ls"; "grep"];
     ctx_userGoal := "list the files"; ctx_workingDirectory := "/";
     ctx_timeoutMs := 1000 |}.

Lemma createPlan_then_executePlan_witness :
  ∃ self' plan self'' run,
    createPlan planner_rlg "plan_1" 0 "list the files" "" [] = Ok (self', plan) ∧
    executePlan self' "plan_1" context_rlg no_time = Ok (self'', run) ∧
    map sr_stepId (ex_results run) = map ps_id (hp_steps plan) ∧
    length (ex_results run) = 4 ∧
    Forall (λ r, sr_success r = true) (ex_results run) ∧
    ex_halted run = false ∧
    getExecutionResults self'' "plan_1" = Some (ex_results run).
Proof.
  assert (H : ∃ sp, createPlan planner_rlg "plan_1" 0 "list the files" "" [] = Ok sp).
  { eexists. vm_compute. reflexivity. }
  destruct H as [[self' plan] H]. exists self', plan.
  destruct (createPlan_then_executePlan planner_rlg self' "plan_1" 0 "list the files" "" []
              plan context_rlg no_time H (λ tool Htool, Htool))
    as (self'' & run & Hrun). exists self'', run. split; [exact H | exact Hrun].
Defined.

(** *** [deletePlan] *)

(** X12.  [deletePlan] answers whether a plan was stored under the id.
    Afterwards neither the plan nor its results can be read back,
    [executePlan] throws "Plan <id> not found", and the other plans and
    their results are as before. *)
Theorem deletePlan_forgets
    (self : HierarchicalPlanner) (planId : string)
    (context : PlanExecutionContext) (elapsed : PlanStep → Z) :
  let self' := (deletePlan self planId).1 in
  ((deletePlan self planId).2 = true ↔ is_Some (getPlan self planId)) ∧
  getPlan self' planId = None ∧
  getExecutionResults self' planId = None ∧
  executePlan self' planId context elapsed = Throw ("Plan " +:+ planId +:+ " not found") ∧
  (∀ other, other ≠ planId →
     getPlan self' other = getPlan self other ∧
     getExecutionResults self' other = getExecutionResults self other ∧
     executePlan self' other context elapsed =
       match executePlan self other context elapsed with
       | Ok (after, run) => Ok ((deletePlan after planId).1, run)
       | failure => failure
       end).
Proof.
  unfold deletePlan, getPlan, getExecutionResults, executePlan. simpl.
  split; [apply bool_decide_eq_true|]. rewrite !lookup_delete_eq.
  split; [done|]. split; [done|]. split; [done|].
  intros other Hother. rewrite !lookup_delete_ne by done. split; [done|]. split; [done|].
  destruct (activePlans self !! other) as [plan|]; [|done].
  destruct (topologicalSort (hp_steps plan)); [|done..]. simpl.
  by rewrite delete_insert_ne.
Qed.

End PlannerMore.

(** ** Further facts about the reasoning engine *)

Module ReasoningMore.
Import Reasoning ReasoningFacts.

#[local] Instance StepType_eq_dec : EqDecision StepType.
Proof. solve_decision. Defined.

(** *** When a step is rejected *)









(** *** [addReasoningStep] *)

(** X13.  [addReasoningStep] throws exactly when no chain is stored under
    the id, whatever the status of the chain.  Otherwise it appends one
    step to the chain and changes no earlier step: the step is numbered
    by its position, keeps the type, the content, the assumptions and the
    alternatives it was given, and is marked [validated] with the
    evidence as given or [rejected] with one more evidence entry that
    starts with "Validation issues: "; the goal, the context and the
    status of the chain and all other chains stay as they were. *)
Theorem addReasoningStep_outcome
    (self : ReasoningEngine) (chainId : string) (stepType : StepType) (content : string)
    (evidence assumptions alternatives : list string) (now : Z) :
  match addReasoningStep self chainId stepType content evidence assumptions alternatives now
  with
  | Returns (self', step) =>
      ∃ chain chain',
        getReasoningChain self chainId = Some chain ∧
        getReasoningChain self' chainId = Some chain' ∧
        ch_steps chain' = ch_steps chain ++ [step] ∧
        ch_currentStep chain' = Z.of_nat (length (ch_steps chain)) ∧
        rs_id step = "step-" +:+ JS.string_of_nat (length (ch_steps chain)) ∧
        rs_type step = stepType ∧ rs_content step = content ∧
        rs_assumptions step = assumptions ∧ rs_alternatives step = alternatives ∧
        (rs_validationStatus step = validated ∧ rs_evidence step = evidence ∨
         rs_validationStatus step = rejected ∧
         ∃ issues, rs_evidence step = evidence ++ ["Validation issues: " +:+ issues]) ∧
        ch_goal chain' = ch_goal chain ∧ ch_context chain' = ch_context chain ∧
        ch_status chain' = ch_status chain ∧
        toolRegistry self' = toolRegistry self ∧
        (∀ other, other ≠ chainId →
                  getReasoningChain self' other = getReasoningChain self other)
  | Throws m =>
      getReasoningChain self chainId = None ∧
      m = "Reasoning chain " +:+ chainId +:+ " not found"
  end.
Proof.
  unfold addReasoningStep, getReasoningChain.
  destruct (activeChains self !! chainId) as [chain|] eqn:Hchain; [|done].
  eexists chain, _. split; [done|]. cbn [activeChains]. rewrite lookup_insert_eq.
  split; [done|]. cbn [ch_steps ch_currentStep rs_id rs_type rs_content rs_assumptions
                      rs_alternatives rs_validationStatus rs_evidence ch_goal ch_context
                      ch_status toolRegistry new_step].
  split; [done|]. split; [rewrite length_app; simpl; lia|].
  do 5 (split; [done|]).
  split; [|do 4 (split; [done|]); intros other Hother; by rewrite lookup_insert_ne].
  destruct (rv_isValid _); [by left | right]. split; [done|]. by eexists.
Qed.


Definition chain_seed : ReasoningChain :=
  snd (startReasoning engine_empty "c1" 0 "x" context_plain).


(** What [addReasoningStep] does to a stored chain. *)
Lemma addReasoningStep_stored self chainId chain stepType content evidence assumptions
    alternatives now :
  activeChains self !! chainId = Some chain →
  ∃ self' step chain',
    addReasoningStep self chainId stepType content evidence assumptions alternatives now
      = Returns (self', step) ∧
    toolRegistry self' = toolRegistry self ∧
    activeChains self' = <[chainId := chain']> (activeChains self) ∧
    ch_steps chain' = ch_steps chain ++ [step] ∧
    ch_status chain' = ch_status chain ∧
    ch_context chain' = ch_context chain ∧
    ch_goal chain' = ch_goal chain ∧
    rs_type step = stepType ∧ rs_content step = content ∧
    rs_id step = "step-" +:+ JS.string_of_nat (length (ch_steps chain)) ∧
    rs_validationStatus step =
      (if rv_isValid (validateReasoningStep self
                        (new_step chain stepType content evidence assumptions
                           alternatives now) chain)
       then validated else rejected) ∧
    (rs_evidence step = evidence ∨ ∃ issues, rs_evidence step = evidence ++ [issues]).
Proof.
  intros Hchain. unfold addReasoningStep. rewrite Hchain.
  eexists _, _, _. split; [done|]. cbn [toolRegistry activeChains]. split; [done|].
  split; [done|]. cbn [ch_steps ch_status ch_context ch_goal rs_type rs_content rs_id
                      rs_validationStatus rs_evidence new_step].
  do 8 (split; [done|]).
  destruct (rv_isValid _); [by left | right; by eexists].
Qed.

Lemma addReasoningStep_alternatives self chainId stepType content evidence assumptions
    alternatives now self' step :
  addReasoningStep self chainId stepType content evidence assumptions alternatives now
    = Returns (self', step) →
  rs_alternatives step = alternatives ∧ rs_assumptions step = assumptions.
Proof.
  unfold addReasoningStep. intros H.
  destruct (activeChains self !! chainId) as [chain|]; [|done].
  inversion H; subst; clear H. done.
Qed.

(** *** [pauseChain] and [resumeChain] *)

(** X15.  [pauseChain] succeeds for every stored chain, whatever its
    status, and [resumeChain] for every paused one.  Pausing and then
    resuming therefore leaves any stored chain [active], a completed or
    failed chain included, with everything but the status as it was;
    without a stored chain both answer [false] and change nothing. *)
Theorem pauseChain_then_resumeChain (self : ReasoningEngine) (chainId : string) :
  let self1 := (pauseChain self chainId).1 in
  let self2 := (resumeChain self1 chainId).1 in
  ((pauseChain self chainId).2 = true ↔ is_Some (getReasoningChain self chainId)) ∧
  ((resumeChain self chainId).2 = true ↔
   ∃ chain, getReasoningChain self chainId = Some chain ∧ ch_status chain = paused) ∧
  (resumeChain self1 chainId).2 = (pauseChain self chainId).2 ∧
  getReasoningChain self1 chainId
    = (λ chain, with_status chain paused) <$> getReasoningChain self chainId ∧
  getReasoningChain self2 chainId
    = (λ chain, with_status chain active) <$> getReasoningChain self chainId ∧
  (∀ other, other ≠ chainId →
            getReasoningChain self2 other = getReasoningChain self other).
Proof.
  unfold getReasoningChain.
  destruct (activeChains self !! chainId) as [chain|] eqn:Hchain.
  - assert (Hp : pauseChain self chainId =
                 ({| toolRegistry := toolRegistry self;
                     activeChains :=
                       <[chainId := with_status chain paused]> (activeChains self) |}, true))
      by (unfold pauseChain; by rewrite Hchain).
    rewrite Hp. cbn [fst snd].
    assert (Hr : resumeChain
                   {| toolRegistry := toolRegistry self;
                      activeChains :=
                        <[chainId := with_status chain paused]> (activeChains self) |}
                   chainId =
                 ({| toolRegistry := toolRegistry self;
                     activeChains :=
                       <[chainId := with_status chain active]> (activeChains self) |}, true)).
    { unfold resumeChain. cbn [activeChains toolRegistry]. rewrite lookup_insert_eq.
      cbn [with_status ch_status]. by rewrite insert_insert_eq. }
    rewrite Hr. cbn [fst snd activeChains]. rewrite !lookup_insert_eq.
    split; [by split; [eexists | ]|]. split; [|split; [done|split; [done|split; [done|]]]].
    + unfold resumeChain. rewrite Hchain. split.
      * intros H. exists chain. split; [done|]. by destruct (ch_status chain).
      * intros (chain' & [= <-] & ->). done.
    + intros other Hother. by rewrite lookup_insert_ne.
  - unfold pauseChain, resumeChain. rewrite Hchain. cbn [fst snd]. rewrite Hchain.
    cbn [fst snd]. rewrite Hchain. split; [split; [done | by intros [? ?]]|].
    split; [split; [done | by intros (? & ? & _)]|]. done.
Qed.

(** *** [completeReasoning] *)


(** *** [validateChain] *)

Lemma split_ws_go_nonempty s : ∀ cur in_sep, JS.split_ws_go s cur in_sep ≠ [].
Proof.
  induction s as [|c r IH]; intros cur in_sep; simpl; [done|].
  destruct (JS.is_space c); [destruct in_sep|]; [apply IH | done | apply IH].
Qed.

Lemma distinct_elem l x : x ∈ JS.distinct l ↔ x ∈ l.
Proof.
  induction l as [|y l IH]; simpl; [done|].
  rewrite !elem_of_cons, list_elem_of_In, filter_In, <- list_elem_of_In, IH.
  rewrite negb_true_iff, String.eqb_neq.
  destruct (decide (x = y)) as [->|Hne]; [tauto|]. split; [tauto|].
  intros [?|?]; [done|]. right. split; [done | congruence].
Qed.

Lemma distinct_NoDup l : NoDup (JS.distinct l).
Proof.
  induction l as [|y l IH]; simpl; [constructor|]. constructor.
  - rewrite list_elem_of_In, filter_In. intros [_ H].
    by rewrite String.eqb_refl in H.
  - apply NoDup_ListNoDup, List.NoDup_filter, NoDup_ListNoDup, IH.
Qed.

Lemma filter_includes_self (w l : list string) :
  (∀ x, x ∈ l → x ∈ w) → List.filter (λ word, JS.arr_includes w word) l = l.
Proof.
  induction l as [|x l IH]; intros H; simpl; [done|].
  rewrite (proj2 (PlannerFacts.arr_includes_In w x)) by (apply H; left).
  rewrite IH; [done|]. intros y Hy. apply H. by right.
Qed.

(** The quotient of every pair of word counts [1 <= b <= a <= 256],
    compared with 0.8. *)
Definition similarity_table : bool :=
  forallb (λ a,
    forallb (λ b, PrimFloat.ltb 0.8 (JS.of_nat a / JS.of_nat b)) (seq 1 a))
    (seq 1 256).

Lemma similarity_table_lookup a b :
  1 ≤ b → b ≤ a → a ≤ 256 → PrimFloat.ltb 0.8 (JS.of_nat a / JS.of_nat b) = true.
Proof.
  intros Hb Hab Ha.
  assert (Htable : similarity_table = true) by (by vm_compute).
  unfold similarity_table in Htable.
  apply (proj1 (forallb_forall _ _)) with (x := a) in Htable; [|apply in_seq; lia].
  apply (proj1 (forallb_forall _ _)) with (x := b) in Htable; [done | apply in_seq; lia].
Qed.

(** A text of at most 256 words is more than 0.8 similar to itself. *)
Lemma calculateSimilarity_self text :
  length (JS.split_ws text) ≤ 256 →
  PrimFloat.ltb 0.8 (calculateSimilarity text text) = true.
Proof.
  intros Hlen. unfold calculateSimilarity.
  rewrite filter_includes_self by done.
  apply similarity_table_lookup; [| |done].
  - pose proof (split_ws_go_nonempty text "" false) as Hne.
    unfold JS.split_ws. destruct (JS.split_ws_go text "" false); [done|]. simpl. lia.
  - apply submseteq_length, NoDup_submseteq; [apply distinct_NoDup|].
    intros x Hx. apply distinct_elem, elem_of_app in Hx. tauto.
Qed.

Lemma no_severe_length (issues : list ReasoningIssue) (i : ReasoningIssue) :
  i ∈ issues → ri_severity i = high →
  (length (List.filter (λ i, is_severity critical i || is_severity high i) issues) =? 0)
  = false.
Proof.
  intros Hin Hsev. apply Nat.eqb_neq. intros Hlen. apply length_zero_iff_nil in Hlen.
  assert (Hi : In i (List.filter (λ i, is_severity critical i || is_severity high i) issues)).
  { apply filter_In. split; [by apply list_elem_of_In|].
    unfold is_severity. rewrite Hsev. done. }
  by rewrite Hlen in Hi.
Qed.

Lemma validateChain_cases self chainId chain :
  getReasoningChain self chainId = Some chain →
  ∃ validation,
    validateChain self chainId = Returns validation ∧
    rv_confidence validation = ch_overallConfidence chain ∧
    (existsb is_conclusion (ch_steps chain) = false →
     no_conclusion_issue ∈ rv_issues validation ∧ rv_isValid validation = false) ∧
    (∀ first, ch_steps chain !! 0 = Some first → 2 ≤ length (ch_steps chain) →
       length (JS.split_ws (JS.toLowerCase (rs_content first))) ≤ 256 →
       circular_issue first ∈ rv_issues validation ∧ rv_isValid validation = false).
Proof.
  unfold getReasoningChain, validateChain. intros ->. eexists. split; [done|].
  cbn [rv_confidence rv_issues rv_isValid]. split; [done|]. split.
  - intros ->.
    assert (Hin : no_conclusion_issue ∈
              flat_map rv_issues
                (map (λ step, validateReasoningStep self step chain) (ch_steps chain)) ++
              (if length (ch_steps chain) <? 3 then [too_short_issue] else []) ++
              [no_conclusion_issue])
      by (rewrite !elem_of_app; right; right; left).
    split; [done|]. by eapply no_severe_length.
  - intros first Hfirst Hlen Hwords.
    assert (Hcirc : hasCircularReasoning first chain = true).
    { apply (hasCircularReasoning_true first chain 0 first Hfirst); [lia|].
      by apply calculateSimilarity_self. }
    apply (validateReasoningStep_circular self) in Hcirc as [Hissue _].
    assert (Hin : circular_issue first ∈
              flat_map rv_issues
                (map (λ step, validateReasoningStep self step chain) (ch_steps chain)) ++
              (if length (ch_steps chain) <? 3 then [too_short_issue] else []) ++
              (if existsb is_conclusion (ch_steps chain) then [] else [no_conclusion_issue])).
    { apply elem_of_app. left. apply list_elem_of_In, in_flat_map.
      exists (validateReasoningStep self first chain). split; [|by apply list_elem_of_In].
      apply (in_map (λ step, validateReasoningStep self step chain)).
      apply list_elem_of_In. by eapply list_elem_of_lookup_2. }
    split; [done|]. by eapply no_severe_length.
Qed.

(** X17.  [validateChain] validates every step against the chain that
    already holds it, so the first step of a chain of two or more steps
    is compared with itself and flagged as circular reasoning: such a
    chain is never valid (shown for first steps of at most 256 words).  A
    chain without a conclusion step is invalid as well. *)
Theorem validateChain_invalid
    (self : ReasoningEngine) (chainId : string) (chain : ReasoningChain) :
  getReasoningChain self chainId = Some chain →
  ∃ validation,
    validateChain self chainId = Returns validation ∧
    rv_confidence validation = ch_overallConfidence chain ∧
    (existsb is_conclusion (ch_steps chain) = false →
     no_conclusion_issue ∈ rv_issues validation ∧ rv_isValid validation = false) ∧
    (∀ first, ch_steps chain !! 0 = Some first → 2 ≤ length (ch_steps chain) →
       length (JS.split_ws (JS.toLowerCase (rs_content first))) ≤ 256 →
       circular_issue first ∈ rv_issues validation ∧ rv_isValid validation = false).
Proof. apply validateChain_cases. Qed.

Lemma validateChain_invalid_witness :
  ∃ validation,
    validateChain engine_two "c1" = Returns validation ∧
    rv_confidence validation = ch_overallConfidence chain_two ∧
    (existsb is_conclusion (ch_steps chain_two) = false →
     no_conclusion_issue ∈ rv_issues validation ∧ rv_isValid validation = false) ∧
    (∀ first, ch_steps chain_two !! 0 = Some first → 2 ≤ length (ch_steps chain_two) →
       length (JS.split_ws (JS.toLowerCase (rs_content first))) ≤ 256 →
       circular_issue first ∈ rv_issues validation ∧ rv_isValid validation = false).
Proof.
  apply (validateChain_invalid engine_two "c1" chain_two).
  vm_compute. reflexivity.
Defined.

(** X18.  A chain that [completeReasoning] has just completed does not
    pass [validateChain]: it has at least two steps, and its first step
    (of at most 256 words) is flagged as circular. *)
Theorem completeReasoning_then_validateChain
    (self self' : ReasoningEngine) (chainId finalConclusion : string) (now : Z)
    (chain' : ReasoningChain) (first : ReasoningStep) :
  completeReasoning self chainId finalConclusion now = Returns (self', chain') →
  ch_steps chain' !! 0 = Some first →
  length (JS.split_ws (JS.toLowerCase (rs_content first))) ≤ 256 →
  2 ≤ length (ch_steps chain') →
  ∃ validation,
    validateChain self' chainId = Returns validation ∧
    ch_status chain' = completed ∧
    circular_issue first ∈ rv_issues validation ∧
    rv_isValid validation = false.
Proof.
  intros Hcomplete Hfirst Hwords Hlen.
  unfold completeReasoning in Hcomplete.
  destruct (activeChains self !! chainId) as [chain|] eqn:Hchain; [|done].
  destruct (addReasoningStep_stored self chainId chain conclusion finalConclusion
              ["Chain completed with " +:+ JS.string_of_nat (length (ch_steps chain))
                 +:+ " steps"] ["All critical steps validated"] [] now Hchain)
    as (self1 & step & chain1 & Hadd & _ & Hchains & _).
  rewrite Hadd in Hcomplete. inversion Hcomplete; subst self' chain'; clear Hcomplete.
  destruct (validateChain_cases
              {| toolRegistry := toolRegistry self1;
                 activeChains :=
                   <[chainId := with_status (default chain (activeChains self1 !! chainId))
                                  completed]> (activeChains self1) |}
              chainId
              (with_status (default chain (activeChains self1 !! chainId)) completed))
    as (validation & Hval & _ & _ & Hcirc).
  { unfold getReasoningChain. cbn [activeChains]. by rewrite lookup_insert_eq. }
  exists validation. split; [done|]. split; [done|]. by apply Hcirc.
Qed.

Definition engine_done : ReasoningEngine :=
  match completeReasoning engine_seed "c1" "done" 0 with
  | Returns (e, _) => e
  | _ => engine_seed
  end.

Definition chain_done : ReasoningChain :=
  match completeReasoning engine_seed "c1" "done" 0 with
  | Returns (_, c) => c
  | _ => chain_seed
  end.

Definition step_seed : ReasoningStep :=
  {| rs_id := "step-0"; rs_type := observation;
     rs_content := "Starting reasoning for goal: x"; rs_confidence := 0.9;
     rs_evidence := ["Goal: x"]; rs_assumptions := []; rs_alternatives := [];
     rs_validationStatus := validated; rs_timestamp := 0 |}.

Lemma completeReasoning_then_validateChain_witness :
  ∃ validation,
    validateChain engine_done "c1" = Returns validation ∧
    ch_status chain_done = completed ∧
    circular_issue step_seed ∈ rv_issues validation ∧
    rv_isValid validation = false.
Proof.
  apply (completeReasoning_then_validateChain engine_seed engine_done "c1" "done" 0
           chain_done step_seed).
  - vm_compute. reflexivity.
  - vm_compute. reflexivity.
  - vm_compute. lia.
  - vm_compute. lia.
Defined.

(** *** [deleteChain] *)

(** X19.  [deleteChain] answers whether a chain was stored under the id.
    Afterwards the chain cannot be read back, every operation on it
    throws "Reasoning chain <id> not found" or answers [false], and the
    other chains are as before. *)
Theorem deleteChain_forgets
    (self : ReasoningEngine) (chainId : string) (stepType : StepType)
    (content question : string) (evidence assumptions alternatives : list string)
    (options : list DecisionOption) (now : Z) :
  let self' := (deleteChain self chainId).1 in
  let not_found := "Reasoning chain " +:+ chainId +:+ " not found" in
  ((deleteChain self chainId).2 = true ↔ is_Some (getReasoningChain self chainId)) ∧
  getReasoningChain self' chainId = None ∧
  addReasoningStep self' chainId stepType content evidence assumptions alternatives now
    = Throws not_found ∧
  createDecisionPoint self' chainId question options now = Throws not_found ∧
  completeReasoning self' chainId content now = Throws not_found ∧
  validateChain self' chainId = Throws not_found ∧
  pauseChain self' chainId = (self', false) ∧
  resumeChain self' chainId = (self', false) ∧
  (∀ other, other ≠ chainId →
            getReasoningChain self' other = getReasoningChain self other).
Proof.
  unfold deleteChain, getReasoningChain, addReasoningStep, createDecisionPoint,
    completeReasoning, validateChain, pauseChain, resumeChain.
  cbn [fst snd activeChains]. rewrite !lookup_delete_eq.
  split; [apply bool_decide_eq_true|]. do 7 (split; [done|]).
  intros other Hother. by rewrite lookup_delete_ne.
Qed.

(** *** [createDecisionPoint] and [makeDecision] *)

(** The score by what it depends on: whether all required tools are
    registered, the risk level, and how the numbers of pros and cons
    compare. *)
Definition score_of (toolsAvailable : bool) (risk : RiskLevel) (balance : comparison)
    : float :=
  let score := 0.5%float in
  let score := if toolsAvailable then (score + 0.3)%float else (score - 0.2)%float in
  let score :=
    match risk with
    | risk_low => (score + 0.2)%float
    | risk_medium => (score + 0.0)%float
    | risk_high => (score - 0.1)%float
    end in
  let score :=
    match balance with
    | Gt => (score + 0.1)%float
    | Lt => (score - 0.1)%float
    | Eq => score
    end in
  JS.Math_min (JS.Math_max score 0) 1.0.

Lemma calculateFeasibilityScore_score_of self option chain :
  calculateFeasibilityScore self option chain =
  score_of (forallb (λ tool, JS.arr_includes (toolRegistry self) tool)
              (do_requiredTools option))
    (do_riskLevel option) (length (do_pros option) ?= length (do_cons option)).
Proof.
  unfold calculateFeasibilityScore, score_of.
  destruct (Nat.compare_spec (length (do_pros option)) (length (do_cons option)))
    as [Heq|Hlt|Hgt].
  - rewrite Heq, Nat.ltb_irrefl. done.
  - rewrite (proj2 (Nat.ltb_ge _ _)) by lia. by rewrite (proj2 (Nat.ltb_lt _ _)) by lia.
  - by rewrite (proj2 (Nat.ltb_lt _ _)) by lia.
Qed.

Definition feasibility_scores : list float :=
  [ score_of true risk_low Gt; score_of true risk_low Eq; score_of true risk_low Lt;
    score_of true risk_medium Gt; score_of true risk_medium Eq; score_of true risk_medium Lt;
    score_of true risk_high Gt; score_of true risk_high Eq; score_of true risk_high Lt;
    score_of false risk_low Gt; score_of false risk_low Eq; score_of false risk_low Lt;
    score_of false risk_medium Gt; score_of false risk_medium Eq;
    score_of false risk_medium Lt;
    score_of false risk_high Gt; score_of false risk_high Eq; score_of false risk_high Lt ].

Lemma score_of_In toolsAvailable risk balance :
  In (score_of toolsAvailable risk balance) feasibility_scores.
Proof. destruct toolsAvailable, risk, balance; simpl; tauto. Qed.

(** On the scores the comparator of the sort agrees with the order of
    the numbers, which is transitive, and the scores lie in [0, 1]. *)
Definition score_table : bool :=
  forallb (λ x,
    PrimFloat.leb 0 x && PrimFloat.leb x 1 &&
    forallb (λ y,
      (if PrimFloat.ltb 0 (y - x) then PrimFloat.leb x y else PrimFloat.leb y x) &&
      forallb (λ z,
        implb (PrimFloat.leb y x && PrimFloat.leb z y) (PrimFloat.leb z x))
        feasibility_scores)
      feasibility_scores)
    feasibility_scores.

Lemma score_table_lookup x y z :
  In x feasibility_scores → In y feasibility_scores → In z feasibility_scores →
  PrimFloat.leb 0 x = true ∧ PrimFloat.leb x 1 = true ∧
  (PrimFloat.ltb 0 (y - x) = true → PrimFloat.leb x y = true) ∧
  (PrimFloat.ltb 0 (y - x) = false → PrimFloat.leb y x = true) ∧
  (PrimFloat.leb y x = true → PrimFloat.leb z y = true → PrimFloat.leb z x = true).
Proof.
  intros Hx Hy Hz.
  assert (Htable : score_table = true) by (by vm_compute).
  unfold score_table in Htable.
  apply (proj1 (forallb_forall _ _)) with (x := x) in Htable; [|done].
  apply andb_true_iff in Htable as [Hrange Htable].
  apply andb_true_iff in Hrange as [Hlo Hhi].
  apply (proj1 (forallb_forall _ _)) with (x := y) in Htable; [|done].
  apply andb_true_iff in Htable as [Hcmp Htable].
  apply (proj1 (forallb_forall _ _)) with (x := z) in Htable; [|done].
  split; [done|]. split; [done|]. split; [|split].
  - intros H. by rewrite H in Hcmp.
  - intros H. by rewrite H in Hcmp.
  - intros H1 H2. by rewrite H1, H2 in Htable.
Qed.

Definition known_score (option : DecisionOption) : Prop :=
  In (do_feasibilityScore option) feasibility_scores.

(** [option] may stand before [other]: its score is not smaller. *)
Definition not_below (option other : DecisionOption) : Prop :=
  PrimFloat.leb (do_feasibilityScore other) (do_feasibilityScore option) = true.

Lemma not_below_refl option : known_score option → not_below option option.
Proof.
  intros Hk. destruct (score_table_lookup _ _ _ Hk Hk Hk) as (_ & _ & Hup & Hdown & _).
  unfold not_below.
  destruct (PrimFloat.ltb 0 (do_feasibilityScore option - do_feasibilityScore option))
    eqn:Hcmp; [by apply Hup | by apply Hdown].
Qed.

Fixpoint descending (options : list DecisionOption) : Prop :=
  match options with
  | [] => True
  | option :: rest => Forall (not_below option) rest ∧ descending rest
  end.

Lemma sort_insert_Permutation {A} (compare : A → A → float) x l :
  JS.sort_insert compare x l ≡ₚ x :: l.
Proof.
  induction l as [|y l IH]; simpl; [done|].
  destruct (PrimFloat.ltb 0 (compare x y)); [|done].
  rewrite IH. apply perm_swap.
Qed.

Lemma sort_Permutation {A} (compare : A → A → float) l : JS.sort compare l ≡ₚ l.
Proof.
  induction l as [|x l IH]; simpl; [done|].
  fold (JS.sort compare l). by rewrite sort_insert_Permutation, IH.
Qed.

Lemma sort_insert_descending x l :
  known_score x → Forall known_score l → descending l →
  descending (JS.sort_insert by_feasibility x l).
Proof.
  intros Hx Hl. induction l as [|y l IH]; intros Hsorted; simpl; [done|].
  apply Forall_cons in Hl as [Hy Hl]. destruct Hsorted as [Hhead Hsorted].
  destruct (score_table_lookup _ _ (do_feasibilityScore y) Hx Hy Hy)
    as (_ & _ & Hup & Hdown & _).
  unfold by_feasibility at 1.
  destruct (PrimFloat.ltb 0 (do_feasibilityScore y - do_feasibilityScore x)) eqn:Hcmp;
    simpl.
  - split; [|by apply IH].
    rewrite sort_insert_Permutation. apply Forall_cons. split; [by apply Hup | done].
  - split; [|done]. apply Forall_cons. split; [by apply Hdown|].
    apply Forall_forall. intros z Hz.
    pose proof (proj1 (Forall_forall _ _) Hhead z Hz) as Hyz.
    pose proof (proj1 (Forall_forall _ _) Hl z Hz) as Hkz.
    destruct (score_table_lookup _ _ (do_feasibilityScore z) Hx Hy Hkz)
      as (_ & _ & _ & _ & Htrans).
    apply Htrans; [by apply Hdown | done].
Qed.

Lemma sort_descending l :
  Forall known_score l → descending (JS.sort by_feasibility l).
Proof.
  induction l as [|x l IH]; intros Hl; simpl; [done|].
  apply Forall_cons in Hl as [Hx Hl]. fold (JS.sort by_feasibility l).
  apply sort_insert_descending; [done | by rewrite sort_Permutation | by apply IH].
Qed.

Lemma descending_lookup l i j a b :
  descending l → i < j → l !! i = Some a → l !! j = Some b → not_below a b.
Proof.
  revert i j. induction l as [|x l IH]; intros i j Hsorted Hij Hi Hj; [done|].
  destruct Hsorted as [Hhead Hsorted].
  destruct j as [|j]; [lia|]. simpl in Hj. destruct i as [|i]; simpl in Hi.
  - inversion Hi; subst. apply (proj1 (Forall_forall _ _) Hhead).
    by eapply list_elem_of_lookup_2.
  - apply (IH i j); [done | lia | done | done].
Qed.

Lemma scored_known self chain options :
  Forall known_score
    (map (λ option, with_score option (calculateFeasibilityScore self option chain))
       options).
Proof.
  apply Forall_forall. intros o (o' & -> & _)%list_elem_of_fmap.
  unfold known_score. cbn [with_score do_feasibilityScore].
  rewrite calculateFeasibilityScore_score_of. apply score_of_In.
Qed.

Lemma createDecisionPoint_cases self chainId question options now :
  match createDecisionPoint self chainId question options now with
  | Returns (self', decisionPoint) =>
      ∃ chain chain' step,
        getReasoningChain self chainId = Some chain ∧
        dp_options decisionPoint ≡ₚ
          map (λ option, with_score option (calculateFeasibilityScore self option chain))
            options ∧
        (∀ i j a b, i ≤ j → dp_options decisionPoint !! i = Some a →
           dp_options decisionPoint !! j = Some b →
           PrimFloat.leb (do_feasibilityScore b) (do_feasibilityScore a) = true) ∧
        (∀ option, option ∈ dp_options decisionPoint →
           PrimFloat.leb 0 (do_feasibilityScore option) = true ∧
           PrimFloat.leb (do_feasibilityScore option) 1 = true) ∧
        dp_question decisionPoint = question ∧
        dp_selectedOption decisionPoint = None ∧
        getReasoningChain self' chainId = Some chain' ∧
        ch_steps chain' = ch_steps chain ++ [step] ∧
        rs_type step = action ∧
        rs_content step = "Decision point: " +:+ question ∧
        rs_alternatives step = map do_description (dp_options decisionPoint)
  | Throws m =>
      getReasoningChain self chainId = None ∧
      m = "Reasoning chain " +:+ chainId +:+ " not found"
  end.
Proof.
  unfold createDecisionPoint, getReasoningChain.
  destruct (activeChains self !! chainId) as [chain|] eqn:Hchain; [|done].
  set (scored := map (λ option,
                   with_score option (calculateFeasibilityScore self option chain)) options).
  set (sortedOptions := JS.sort by_feasibility scored).
  destruct (addReasoningStep_stored self chainId chain action
              ("Decision point: " +:+ question)
              [JS.string_of_nat (length sortedOptions) +:+ " options evaluated"]
              ["Best option will be selected based on feasibility"]
              (map do_description sortedOptions) now Hchain)
    as (self1 & step & chain1 & Hadd & _ & Hchains & Hsteps & _ & _ & _ & Htype & Hcontent
        & _).
  pose proof Hadd as Halt. apply addReasoningStep_alternatives in Halt as [Halt _].
  rewrite Hadd. exists chain, chain1, step. cbn [dp_options dp_question dp_selectedOption].
  assert (Hknown : ∀ option, option ∈ sortedOptions → known_score option).
  { intros option Hin. pose proof (scored_known self chain options) as Hall.
    apply (proj1 (Forall_forall _ _) Hall).
    unfold sortedOptions in Hin. by rewrite sort_Permutation in Hin. }
  split; [done|]. split; [apply sort_Permutation|]. split; [|split].
  - intros i j a b Hij Ha Hb.
    destruct (decide (i = j)) as [->|Hne].
    + assert (a = b) as -> by congruence.
      apply not_below_refl, Hknown. by eapply list_elem_of_lookup_2.
    + apply (descending_lookup sortedOptions i j a b); [|lia|done..].
      apply sort_descending, scored_known.
  - intros option Hin. pose proof (Hknown option Hin) as Hk.
    by destruct (score_table_lookup _ _ _ Hk Hk Hk) as (? & ? & _).
  - rewrite Hchains, lookup_insert_eq. done.
Qed.

(** X20.  [createDecisionPoint] throws exactly when no chain is stored
    under the id.  Otherwise the options of the decision point are the
    given options, each with its feasibility score computed anew, in
    descending order of the score; every score lies between 0 and 1; no
    option is selected yet; and the chain has gained one [action] step
    "Decision point: <question>" whose alternatives are the descriptions
    of the options in sorted order. *)
Theorem createDecisionPoint_outcome
    (self : ReasoningEngine) (chainId question : string)
    (options : list DecisionOption) (now : Z) :
  match createDecisionPoint self chainId question options now with
  | Returns (self', decisionPoint) =>
      ∃ chain chain' step,
        getReasoningChain self chainId = Some chain ∧
        dp_options decisionPoint ≡ₚ
          map (λ option, with_score option (calculateFeasibilityScore self option chain))
            options ∧
        (∀ i j a b, i ≤ j → dp_options decisionPoint !! i = Some a →
           dp_options decisionPoint !! j = Some b →
           PrimFloat.leb (do_feasibilityScore b) (do_feasibilityScore a) = true) ∧
        (∀ option, option ∈ dp_options decisionPoint →
           PrimFloat.leb 0 (do_feasibilityScore option) = true ∧
           PrimFloat.leb (do_feasibilityScore option) 1 = true) ∧
        dp_question decisionPoint = question ∧
        dp_selectedOption decisionPoint = None ∧
        getReasoningChain self' chainId = Some chain' ∧
        ch_steps chain' = ch_steps chain ++ [step] ∧
        rs_type step = action ∧
        rs_content step = "Decision point: " +:+ question ∧
        rs_alternatives step = map do_description (dp_options decisionPoint)
  | Throws m =>
      getReasoningChain self chainId = None ∧
      m = "Reasoning chain " +:+ chainId +:+ " not found"
  end.
Proof. apply createDecisionPoint_cases. Qed.

(** X21.  [makeDecision], called on the decision point that
    [createDecisionPoint] returned for a non-empty list of options,
    returns an option whose feasibility score is the highest of all:
    it is one of the given options with its score computed anew, it is
    recorded as the selected option and its score as the confidence of
    the decision, and the chain gains a conclusion step
    "Decision made: <description>". *)
Theorem createDecisionPoint_then_makeDecision
    (toFixed2 : float → string) (self self' : ReasoningEngine)
    (chainId question : string) (options : list DecisionOption) (now now' : Z)
    (decisionPoint : DecisionPoint) (rationale : option string) :
  createDecisionPoint self chainId question options now = Returns (self', decisionPoint) →
  options ≠ [] →
  ∃ self'' decisionPoint' selected chain' chain'' step,
    makeDecision toFixed2 self' chainId decisionPoint rationale now'
      = Returns (self'', decisionPoint', selected) ∧
    selected ∈ dp_options decisionPoint ∧
    (∃ original, original ∈ options ∧
       selected = with_score original (do_feasibilityScore selected)) ∧
    (∀ option, option ∈ dp_options decisionPoint →
       PrimFloat.leb (do_feasibilityScore option) (do_feasibilityScore selected) = true) ∧
    dp_selectedOption decisionPoint' = Some (do_id selected) ∧
    dp_confidence decisionPoint' = do_feasibilityScore selected ∧
    dp_options decisionPoint' = dp_options decisionPoint ∧
    getReasoningChain self' chainId = Some chain' ∧
    getReasoningChain self'' chainId = Some chain'' ∧
    ch_steps chain'' = ch_steps chain' ++ [step] ∧
    rs_type step = conclusion ∧
    rs_content step = "Decision made: " +:+ do_description selected.
Proof.
  intros Hcreate Hne.
  pose proof (createDecisionPoint_cases self chainId question options now) as Hcases.
  rewrite Hcreate in Hcases.
  destruct Hcases as (chain & chain' & step0 & Hchain & Hperm & Hsorted & _ & _ & _
                      & Hchain' & _).
  destruct (dp_options decisionPoint) as [|selected rest] eqn:Hopts.
  { apply Permutation_nil_l in Hperm. by destruct options. }
  unfold makeDecision. rewrite Hopts. cbn [lookup list_lookup].
  set (score := toFixed2 (do_feasibilityScore selected)).
  set (rationale' := match rationale with
                     | Some r =>
                         if JS.truthy_str r then r
                         else "Selected based on highest feasibility score (" +:+ score +:+ ")"
                     | None => "Selected based on highest feasibility score (" +:+ score +:+ ")"
                     end).
  destruct (addReasoningStep_stored self' chainId chain' conclusion
              ("Decision made: " +:+ do_description selected)
              ["Feasibility score: " +:+ score; "Rationale: " +:+ rationale']
              ["Option is feasible with available tools"] [] now' Hchain')
    as (self'' & step & chain'' & Hadd & _ & Hchains & Hsteps & _ & _ & _ & Htype & Hcontent
        & _).
  rewrite Hadd. eexists self'', _, selected, chain', chain'', step.
  split; [done|]. cbn [dp_selectedOption dp_confidence dp_options].
  split; [left|]. split; [|split].
  - assert (Hin : selected ∈ map (λ option,
                    with_score option (calculateFeasibilityScore self option chain)) options)
      by (rewrite <- Hperm; left).
    apply list_elem_of_fmap in Hin as (original & -> & Hin). by exists original.
  - intros option Hin. apply list_elem_of_lookup_1 in Hin as [j Hj].
    apply (Hsorted 0 j selected option); [lia | done | done].
  - do 4 (split; [done|]).
    split; [unfold getReasoningChain; by rewrite Hchains, lookup_insert_eq | done].
Qed.

Definition option_deploy : DecisionOption :=
  {| do_id := "b"; do_description := "deploy it"; do_pros := []; do_cons := ["slow"];
     do_riskLevel := risk_high; do_feasibilityScore := 0;
     do_requiredTools := ["deploy"] |}.

Definition option_list : DecisionOption :=
  {| do_id := "a"; do_description := "list it"; do_pros := ["fast"]; do_cons := [];
     do_riskLevel := risk_low; do_feasibilityScore := 0;
     do_requiredTools := ["ls"] |}.

Definition decision_empty : DecisionPoint :=
  {| dp_id := ""; dp_question := ""; dp_options := []; dp_selectedOption := None;
     dp_rationale := ""; dp_confidence := 0; dp_timestamp := 0 |}.

Definition engine_asked : ReasoningEngine :=
  match createDecisionPoint engine_seed "c1" "which" [option_deploy; option_list] 0 with
  | Returns (e, _) => e
  | _ => engine_seed
  end.

Definition decision_asked : DecisionPoint :=
  match createDecisionPoint engine_seed "c1" "which" [option_deploy; option_list] 0 with
  | Returns (_, d) => d
  | _ => decision_empty
  end.

Lemma createDecisionPoint_then_makeDecision_witness :
  ∃ self'' decisionPoint' selected chain' chain'' step,
    makeDecision (λ _, "1.00") engine_asked "c1" decision_asked None 1
      = Returns (self'', decisionPoint', selected) ∧
    selected ∈ dp_options decision_asked ∧
    (∃ original, original ∈ [option_deploy; option_list] ∧
       selected = with_score original (do_feasibilityScore selected)) ∧
    (∀ option, option ∈ dp_options decision_asked →
       PrimFloat.leb (do_feasibilityScore option) (do_feasibilityScore selected) = true) ∧
    dp_selectedOption decisionPoint' = Some (do_id selected) ∧
    dp_confidence decisionPoint' = do_feasibilityScore selected ∧
    dp_options decisionPoint' = dp_options decision_asked ∧
    getReasoningChain engine_asked "c1" = Some chain' ∧
    getReasoningChain self'' "c1" = Some chain'' ∧
    ch_steps chain'' = ch_steps chain' ++ [step] ∧
    rs_type step = conclusion ∧
    rs_content step = "Decision made: " +:+ do_description selected.
Proof.
  apply (createDecisionPoint_then_makeDecision (λ _, "1.00") engine_seed engine_asked
           "c1" "which" [option_deploy; option_list] 0 1 decision_asked None).
  - vm_compute. reflexivity.
  - discriminate.
Defined.

End ReasoningMore.

(** ** Further facts about the response validator *)

Module ValidatorMore.
Import Validator ValidatorFacts.

(** The value of the [command] parameter of a tool call, and what
    [command && command.includes('rm -rf')] does with it. *)
Definition command_of (toolCall : ToolCall) : JsValue :=
  default VUndefined (tc_parameters toolCall !! "command").

Definition throws_on (command : JsValue) : Prop :=
  command = VBool true ∨ command = VObj ∨
  ∃ x, command = VNum x ∧ JS.truthy_num x = true.

Definition matches_rm_rf (command : JsValue) : Prop :=
  (∃ s, command = VStr s ∧ JS.includes s "rm -rf" = true) ∨
  (∃ items, command = VArr items ∧ VStr "rm -rf" ∈ items).

Definition shell_call (P : JsValue → Prop) (toolCall : ToolCall) : Prop :=
  tc_name toolCall = "shell" ∧ P (command_of toolCall).

Lemma dangerous_command_Throws command :
  (∃ m, dangerous_command command = Throws m) ↔ throws_on command.
Proof.
  unfold dangerous_command, throws_on. destruct command as [| |[]|x|s|items|]; simpl.
  - split; [by intros [? ?] | intros [?|[?|(? & ? & _)]]; done].
  - split; [by intros [? ?] | intros [?|[?|(? & ? & _)]]; done].
  - split; [by left | by eexists].
  - split; [by intros [? ?] | intros [?|[?|(? & ? & _)]]; done].
  - destruct (JS.truthy_num x) eqn:Hx; simpl.
    + split; [intros _; right; right; by exists x | by eexists].
    + split; [by intros [? ?]|]. intros [?|[?|(y & [= <-] & Hy)]]; [done..|congruence].
  - split; [|intros [?|[?|(? & ? & _)]]; done]. intros [m Hm].
    by destruct (negb (JS.truthy_str s)).
  - split; [by intros [? ?] | intros [?|[?|(? & ? & _)]]; done].
  - split; [intros _; right; by left | by eexists].
Qed.

Lemma dangerous_command_true command :
  dangerous_command command = Returns true ↔ matches_rm_rf command.
Proof.
  unfold dangerous_command, matches_rm_rf. destruct command as [| |[]|x|s|items|]; simpl;
    try (split; [done | by intros [(? & ? & _)|(? & ? & _)]]).
  - destruct (JS.truthy_num x); simpl;
      (split; [done | by intros [(? & ? & _)|(? & ? & _)]]).
  - destruct s as [|c s]; simpl.
    + split; [done|]. intros [(s & [= <-] & Hs)|(? & ? & _)]; done.
    + split.
      * intros [= H]. left. eexists. split; [done|]. exact H.
      * intros [(s' & [= <-] & Hs)|(? & ? & _)]; [|done]. simpl in Hs. by rewrite Hs.
  - split.
    + intros [= H]. right. exists items. split; [done|].
      apply existsb_exists in H as (v & Hin & Hv). destruct v; try done.
      apply String.eqb_eq in Hv as ->. by apply list_elem_of_In.
    + intros [(? & ? & _)|(items' & [= <-] & Hin)]; [done|]. f_equal.
      apply existsb_exists. exists (VStr "rm -rf"). split; [by apply list_elem_of_In | done].
Qed.

Section default_rules.
Variable toFixed2 : float → string.
Variable toString : float → string.
Variable response : AIResponse.
Variable context : PromptContext.
Variable constraints : ValidationConstraints.

Definition default_issues : list ValidationIssue :=
  issues (validateResponse (newResponseValidator toFixed2 toString)
            response context constraints).

Lemma default_issues_app :
  default_issues =
  run_rule ToolAvailabilityRule response context constraints ++
  run_rule ParameterValidationRule response context constraints ++
  run_rule (SafetyCheckRule toString) response context constraints ++
  run_rule ReasoningValidationRule response context constraints ++
  run_rule (ConfidenceValidationRule toFixed2 toString) response context constraints ++
  run_rule ConstraintComplianceRule response context constraints ++
  run_rule HallucinationDetectionRule response context constraints ++
  run_rule LogicalConsistencyRule response context constraints.
Proof.
  unfold default_issues, validateResponse, newResponseValidator.
  cbn [issues validationRules flat_map]. by rewrite app_nil_r.
Qed.

Lemma elem_of_flat_map_if {A B} (c : A → bool) (f : A → B) (l : list A) (i : B) :
  i ∈ flat_map (λ x, if c x then [f x] else []) l ↔ ∃ x, x ∈ l ∧ c x = true ∧ i = f x.
Proof.
  rewrite list_elem_of_In, in_flat_map. split.
  - intros (x & Hx & Hi). exists x. rewrite list_elem_of_In. split; [done|].
    destruct (c x); [|done]. destruct Hi as [<-|[]]. done.
  - intros (x & Hx & Hc & ->). exists x. rewrite <- list_elem_of_In. split; [done|].
    rewrite Hc. by left.
Qed.

(** *** The safety rule *)

Definition unsafe_kind (i : ValidationIssue) : Prop :=
  vi_type i = unsafe_operation ∧ vi_severity i = high ∧
  vi_location i = "tool_calls" ∧
  vi_message i = "Potentially dangerous shell command detected".

Lemma safety_issues_spec calls :
  match safety_issues toString calls with
  | Throws m =>
      m = "TypeError: command.includes is not a function" ∧
      ∃ toolCall, toolCall ∈ calls ∧ shell_call throws_on toolCall
  | Returns l =>
      (¬ ∃ toolCall, toolCall ∈ calls ∧ shell_call throws_on toolCall) ∧
      (∀ i, i ∈ l → unsafe_kind i) ∧
      (l ≠ [] ↔ ∃ toolCall, toolCall ∈ calls ∧ shell_call matches_rm_rf toolCall)
  end.
Proof.
  induction calls as [|toolCall rest IH].
  { simpl. split; [by intros (? & ?%elem_of_nil & _)|].
    split; [by intros ? ?%elem_of_nil|]. split; [done | by intros (? & ?%elem_of_nil & _)]. }
  cbn [safety_issues]. fold (command_of toolCall).
  assert (Hhead : ∀ P : JsValue → Prop,
            (∃ c, c ∈ toolCall :: rest ∧ shell_call P c) ↔
            shell_call P toolCall ∨ ∃ c, c ∈ rest ∧ shell_call P c).
  { intros P. split.
    - intros (c & [->|Hc]%elem_of_cons & HP); [by left | right; by exists c].
    - intros [HP|(c & Hc & HP)]; [exists toolCall; split; [left | done]|].
      exists c. split; [by right | done]. }
  destruct (String.eqb (tc_name toolCall) "shell") eqn:Hname.
  - apply String.eqb_eq in Hname.
    destruct (dangerous_command (command_of toolCall)) as [[]|m] eqn:Hcmd.
    + assert (Hm : matches_rm_rf (command_of toolCall)) by (by apply dangerous_command_true).
      assert (Hn : ¬ shell_call throws_on toolCall).
      { intros [_ (m & Hm')%dangerous_command_Throws]. congruence. }
      destruct (safety_issues toString rest) as [l|m]; rewrite ?Hhead.
      * destruct IH as (Hno & Hkind & Hany). split; [by intros [?|?]|]. split.
        -- intros i [->|Hi]%elem_of_cons; [done | by apply Hkind].
        -- split; [intros _; by left | done].
      * destruct IH as [-> Hthrow]. split; [done | by right].
    + assert (Hm : ¬ shell_call matches_rm_rf toolCall).
      { intros [_ Hm%dangerous_command_true]. congruence. }
      assert (Hn : ¬ shell_call throws_on toolCall).
      { intros [_ (m & Hm')%dangerous_command_Throws]. congruence. }
      destruct (safety_issues toString rest) as [l|m]; rewrite ?Hhead.
      * destruct IH as (Hno & Hkind & Hany). split; [by intros [?|?]|]. split; [done|].
        rewrite Hany. split; [by right | by intros [?|?]].
      * destruct IH as [-> Hthrow]. split; [done | by right].
    + assert (Hn : shell_call throws_on toolCall).
      { split; [done|]. apply dangerous_command_Throws. by exists m. }
      assert (m = "TypeError: command.includes is not a function") as ->.
      { unfold dangerous_command in Hcmd.
        destruct (negb (truthy (command_of toolCall))); [done|].
        destruct (command_of toolCall); congruence. }
      rewrite ?Hhead. split; [done | by left].
  - apply String.eqb_neq in Hname.
    assert (Hn : ∀ P, ¬ shell_call P toolCall) by (by intros P [? _]).
    destruct (safety_issues toString rest) as [l|m]; rewrite ?Hhead.
    + destruct IH as (Hno & Hkind & Hany).
      split; [intros [H|H]; [by apply Hn in H | done]|].
      split; [done|]. rewrite Hany. split; [by right|].
      intros [H|H]; [by apply Hn in H | done].
    + destruct IH as [-> Hthrow]. split; [done | by right].
Qed.

(** *** Which issues the constructor's rules raise *)

(** What has to hold of the response for an issue of type [t]. *)
Definition issue_ground (t : ValidationIssueType) : Prop :=
  match t with
  | tool_not_available | hallucination_detected =>
      ∃ toolCall, toolCall ∈ toolCalls response ∧
                  tc_name toolCall ∉ availableTools context
  | invalid_parameters =>
      ∃ toolCall, toolCall ∈ toolCalls response ∧ tc_parameters toolCall = ∅
  | unsafe_operation =>
      safetyChecks constraints = true ∧
      (∃ toolCall, toolCall ∈ toolCalls response ∧ shell_call matches_rm_rf toolCall) ∧
      ¬ (∃ toolCall, toolCall ∈ toolCalls response ∧ shell_call throws_on toolCall)
  | factual_error =>
      safetyChecks constraints = true ∧
      ∃ toolCall, toolCall ∈ toolCalls response ∧ shell_call throws_on toolCall
  | missing_reasoning =>
      requireReasoning constraints = true ∧ has_reasoning response = false
  | low_confidence =>
      confidence_below response (minimumConfidence constraints) = true
  | constraint_violation =>
      ∃ forbidden, forbidden ∈ forbiddenOperations constraints ∧
        JS.includes (JS.toLowerCase (content response)) (JS.toLowerCase forbidden) = true
  | logical_inconsistency =>
      ∃ steps j current next,
        reasoning response = Some steps ∧
        steps !! j = Some current ∧ steps !! S j = Some next ∧
        areContradictory current next = true
  | insufficient_evidence | circular_reasoning | parameter_mismatch => False
  end.

(** The severity the rules give to an issue of type [t]. *)
Definition severity_of (t : ValidationIssueType) : Severity :=
  match t with
  | tool_not_available => critical
  | invalid_parameters | unsafe_operation | missing_reasoning
  | constraint_violation | hallucination_detected => high
  | _ => medium
  end.

Definition raises (l : list ValidationIssue) (T : ValidationIssueType) (ground : Prop)
    : Prop :=
  (∀ i, i ∈ l → vi_type i = T ∧ vi_severity i = severity_of T) ∧ (l ≠ [] ↔ ground).

Lemma flat_map_if_raises {A} (c : A → bool) (f : A → ValidationIssue) (l : list A) T :
  (∀ x, vi_type (f x) = T ∧ vi_severity (f x) = severity_of T) →
  raises (flat_map (λ x, if c x then [f x] else []) l) T (∃ x, x ∈ l ∧ c x = true).
Proof.
  intros Hf. split.
  - intros i (x & _ & _ & ->)%elem_of_flat_map_if. apply Hf.
  - split.
    + intros Hne. destruct (flat_map _ l) as [|i r] eqn:Hl; [done|].
      assert (Hi : i ∈ flat_map (λ x, if c x then [f x] else []) l) by (rewrite Hl; left).
      apply elem_of_flat_map_if in Hi as (x & Hx & Hc & _). by exists x.
    + intros (x & Hx & Hc) Hnil.
      assert (Hi : f x ∈ flat_map (λ x, if c x then [f x] else []) l)
        by (apply elem_of_flat_map_if; by exists x).
      rewrite Hnil in Hi. by apply elem_of_nil in Hi.
Qed.

Lemma raises_iff l T ground ground' : (ground ↔ ground') → raises l T ground → raises l T ground'.
Proof. intros Hg [Hk Hp]. split; [done|]. by rewrite Hp. Qed.

Lemma ToolAvailabilityRule_raises :
  raises (run_rule ToolAvailabilityRule response context constraints)
    tool_not_available (issue_ground tool_not_available).
Proof.
  unfold run_rule. cbn [validate ToolAvailabilityRule].
  eapply raises_iff; [|apply flat_map_if_raises; done].
  apply exist_proper. intros call. rewrite negb_true_iff, <- not_true_iff_false.
  by rewrite PlannerFacts.arr_includes_In.
Qed.

Lemma HallucinationDetectionRule_raises :
  raises (run_rule HallucinationDetectionRule response context constraints)
    hallucination_detected (issue_ground hallucination_detected).
Proof.
  unfold run_rule. cbn [validate HallucinationDetectionRule].
  eapply raises_iff; [|apply flat_map_if_raises; done].
  apply exist_proper. intros call. rewrite negb_true_iff, <- not_true_iff_false.
  by rewrite PlannerFacts.arr_includes_In.
Qed.

Lemma ParameterValidationRule_raises :
  raises (run_rule ParameterValidationRule response context constraints)
    invalid_parameters (issue_ground invalid_parameters).
Proof.
  unfold run_rule. cbn [validate ParameterValidationRule].
  eapply raises_iff; [|apply flat_map_if_raises; done].
  apply exist_proper. intros call. by rewrite bool_decide_eq_true.
Qed.

Lemma ConstraintComplianceRule_raises :
  raises (run_rule ConstraintComplianceRule response context constraints)
    constraint_violation (issue_ground constraint_violation).
Proof.
  unfold run_rule. cbn [validate ConstraintComplianceRule].
  apply (flat_map_if_raises
           (λ forbidden, JS.includes (JS.toLowerCase (content response))
                           (JS.toLowerCase forbidden))). done.
Qed.

Lemma ReasoningValidationRule_raises :
  raises (run_rule ReasoningValidationRule response context constraints)
    missing_reasoning (issue_ground missing_reasoning).
Proof.
  unfold run_rule. cbn [validate ReasoningValidationRule issue_ground].
  destruct (requireReasoning constraints), (has_reasoning response); simpl; split;
    try (by intros ? ?%elem_of_nil); try (split; [done | by intros [? ?]]);
    try (by intros i ->%list_elem_of_singleton); done.
Qed.

Lemma ConfidenceValidationRule_raises :
  raises (run_rule (ConfidenceValidationRule toFixed2 toString) response context constraints)
    low_confidence (issue_ground low_confidence).
Proof.
  unfold run_rule. cbn [validate ConfidenceValidationRule issue_ground].
  destruct (confidence_below response (minimumConfidence constraints)); split.
  - by intros i ->%list_elem_of_singleton.
  - done.
  - by intros ? ?%elem_of_nil.
  - done.
Qed.

Lemma contradictions_raises steps : ∀ n,
  raises (contradictions n steps) logical_inconsistency
    (∃ j current next, steps !! j = Some current ∧ steps !! S j = Some next ∧
                       areContradictory current next = true).
Proof.
  induction steps as [|current rest IH]; intros n.
  { split; [by intros ? ?%elem_of_nil|]. split; [done | by intros (? & ? & ? & ? & _)]. }
  destruct rest as [|next rest'].
  { split; [by intros ? ?%elem_of_nil|]. split; [done|].
    intros ([|j] & ? & ? & _ & ? & _); done. }
  cbn [contradictions]. destruct (IH (S n)) as [Hkind Hany]. split.
  - intros i [Hi|Hi]%elem_of_app; [|by apply Hkind].
    destruct (areContradictory current next); [|by apply elem_of_nil in Hi].
    by apply list_elem_of_singleton in Hi as ->.
  - split.
    + intros Hne. destruct (areContradictory current next) eqn:Hc.
      * by exists 0, current, next.
      * simpl in Hne. apply Hany in Hne as (j & a & b & Ha & Hb & Hab).
        by exists (S j), a, b.
    + intros ([|j] & a & b & Ha & Hb & Hab).
      * simpl in Ha, Hb. inversion Ha; inversion Hb; subst. by rewrite Hab.
      * intros Hnil. apply app_eq_nil in Hnil as [_ Hnil]. revert Hnil. apply Hany.
        by exists j, a, b.
Qed.

Lemma LogicalConsistencyRule_raises :
  raises (run_rule LogicalConsistencyRule response context constraints)
    logical_inconsistency (issue_ground logical_inconsistency).
Proof.
  unfold run_rule. cbn [validate LogicalConsistencyRule issue_ground].
  destruct (reasoning response) as [steps|].
  - eapply raises_iff; [|apply contradictions_raises]. split.
    + intros (j & a & b & H). by exists steps, j, a, b.
    + intros (steps' & j & a & b & [= <-] & H). by exists j, a, b.
  - split; [by intros ? ?%elem_of_nil|]. split; [done | by intros (? & ? & ? & ? & ? & _)].
Qed.

(** The safety rule raises [unsafe_operation] when it returns and, through
    the [catch] of the loop, [factual_error] when it throws. *)
Lemma SafetyCheckRule_raises :
  (raises (run_rule (SafetyCheckRule toString) response context constraints)
     unsafe_operation (issue_ground unsafe_operation) ∧
   ¬ issue_ground factual_error) ∨
  (raises (run_rule (SafetyCheckRule toString) response context constraints)
     factual_error (issue_ground factual_error) ∧
   ¬ issue_ground unsafe_operation).
Proof.
  unfold run_rule. cbn [validate SafetyCheckRule issue_ground rule_name].
  destruct (safetyChecks constraints); simpl.
  2: { left. split; [|by intros [? _]]. split; [by intros ? ?%elem_of_nil|].
       split; [done | by intros [? _]]. }
  pose proof (safety_issues_spec (toolCalls response)) as Hspec.
  destruct (safety_issues toString (toolCalls response)) as [l|m].
  - destruct Hspec as (Hno & Hkind & Hany). left. split; [|by intros [_ ?]]. split.
    + intros i Hi. by destruct (Hkind i Hi) as (? & ? & _).
    + rewrite Hany. tauto.
  - destruct Hspec as [-> Hthrow]. right. split; [|by intros (_ & _ & ?)]. split.
    + by intros i ->%list_elem_of_singleton.
    + split; [done | by intros _].
Qed.

Lemma raises_type l T ground t :
  raises l T ground → (∃ i, i ∈ l ∧ vi_type i = t) ↔ t = T ∧ ground.
Proof.
  intros [Hkind Hany]. split.
  - intros (i & Hi & <-). split; [by apply Hkind|]. apply Hany. intros ->.
    by apply elem_of_nil in Hi.
  - intros [-> Hg]. apply Hany in Hg. destruct l as [|i r]; [done|].
    exists i. split; [left | apply Hkind; left].
Qed.

Lemma exists_elem_of_app {A} (P : A → Prop) (l k : list A) :
  (∃ i, i ∈ l ++ k ∧ P i) ↔ (∃ i, i ∈ l ∧ P i) ∨ (∃ i, i ∈ k ∧ P i).
Proof.
  split.
  - intros (i & [?|?]%elem_of_app & ?); [left | right]; by exists i.
  - intros [(i & ? & ?)|(i & ? & ?)]; exists i; (split; [|done]); apply elem_of_app; tauto.
Qed.

Lemma default_issues_types t :
  (∃ i, i ∈ default_issues ∧ vi_type i = t) ↔ issue_ground t.
Proof.
  rewrite default_issues_app, !exists_elem_of_app.
  rewrite (raises_type _ _ _ t ToolAvailabilityRule_raises).
  rewrite (raises_type _ _ _ t ParameterValidationRule_raises).
  rewrite (raises_type _ _ _ t ReasoningValidationRule_raises).
  rewrite (raises_type _ _ _ t ConfidenceValidationRule_raises).
  rewrite (raises_type _ _ _ t ConstraintComplianceRule_raises).
  rewrite (raises_type _ _ _ t HallucinationDetectionRule_raises).
  rewrite (raises_type _ _ _ t LogicalConsistencyRule_raises).
  destruct SafetyCheckRule_raises as [[Hr Hno]|[Hr Hno]];
    rewrite (raises_type _ _ _ t Hr); clear Hr;
    destruct t; try (intuition congruence);
    (split; [intuition congruence | intros []]).
Qed.

Lemma default_issues_severity i :
  i ∈ default_issues → vi_severity i = severity_of (vi_type i).
Proof.
  rewrite default_issues_app, !elem_of_app.
  destruct SafetyCheckRule_raises as [[[Hs _] _]|[[Hs _] _]];
    intros [H|[H|[H|[H|[H|[H|[H|H]]]]]]];
    first [ apply Hs in H | apply ToolAvailabilityRule_raises in H
          | apply ParameterValidationRule_raises in H
          | apply ReasoningValidationRule_raises in H
          | apply ConfidenceValidationRule_raises in H
          | apply ConstraintComplianceRule_raises in H
          | apply HallucinationDetectionRule_raises in H
          | apply LogicalConsistencyRule_raises in H ];
    destruct H as [-> ->]; done.
Qed.

(** *** The verdict *)



(** *** The corrected response *)

Lemma startsWith_app p r : JS.startsWith (p +:+ r) p = true.
Proof.
  induction p as [|c p IH]; simpl; [by destruct r|]. by rewrite Ascii.eqb_refl, IH.
Qed.

Lemma includes_here p r : JS.includes (p +:+ r) p = true.
Proof.
  pose proof (startsWith_app p r) as H.
  destruct (p +:+ r); cbn [JS.includes]; by rewrite H.
Qed.

Lemma includes_app pre s p : JS.includes s p = true → JS.includes (pre +:+ s) p = true.
Proof.
  intros Hs. induction pre as [|c pre IH]; [done|].
  change (String c pre +:+ s) with (String c (pre +:+ s)). cbn [JS.includes].
  rewrite IH. apply orb_true_r.
Qed.

Lemma filter_sublist {A} (f : A → bool) (l : list A) : List.filter f l `sublist_of` l.
Proof.
  induction l as [|x l IH]; simpl; [done|].
  destruct (f x); [by apply sublist_skip | by apply sublist_cons].
Qed.

Lemma filter_all_length {A} (f : A → bool) (l : list A) :
  length (List.filter f l) = length l → ∀ x, x ∈ l → f x = true.
Proof.
  induction l as [|y l IH]; intros Hlen x Hx; [by apply elem_of_nil in Hx|].
  simpl in Hlen. pose proof (filter_length_le f l) as Hle.
  destruct (f y) eqn:Hy; simpl in Hlen; [|lia].
  apply elem_of_cons in Hx as [->|Hx]; [done|]. apply IH; [lia | done].
Qed.

(** Whether [generateCorrectedResponse] keeps a tool call. *)
Definition kept (toolCall : ToolCall) : bool :=
  negb (existsb (λ issue, JS.includes (vi_message issue) (tc_name toolCall))
          (List.filter (λ i,
             JS.includes (vi_location i) "tool_call"
             && (is_type tool_not_available i || is_type unsafe_operation i))
             default_issues)).

Lemma kept_available toolCall :
  toolCall ∈ toolCalls response → kept toolCall = true →
  tc_name toolCall ∈ availableTools context.
Proof.
  intros Hin Hkept.
  destruct (decide (tc_name toolCall ∈ availableTools context)) as [|Hnot]; [done|].
  exfalso. apply negb_true_iff, not_true_iff_false in Hkept. apply Hkept.
  apply existsb_exists.
  exists (tool_not_available_issue (tc_name toolCall) (availableTools context)). split.
  - apply filter_In. split; [|done]. apply list_elem_of_In.
    rewrite default_issues_app. apply elem_of_app. left.
    unfold run_rule. cbn [validate ToolAvailabilityRule].
    apply elem_of_flat_map_if. exists toolCall. split; [done|]. split; [|done].
    apply negb_true_iff, not_true_iff_false. by rewrite PlannerFacts.arr_includes_In.
  - cbn [vi_message tool_not_available_issue]. apply (includes_app "Tool '"), includes_here.
Qed.

Lemma unsafe_issue_present :
  issue_ground unsafe_operation →
  ∃ i, i ∈ default_issues ∧ unsafe_kind i.
Proof.
  intros (Hsafe & Hany & Hno).
  pose proof (safety_issues_spec (toolCalls response)) as Hspec.
  destruct (safety_issues toString (toolCalls response)) as [l|m] eqn:Hrun.
  - destruct Hspec as (_ & Hkind & Hl). apply Hl in Hany.
    destruct l as [|i r]; [done|]. exists i. split; [|apply Hkind; left].
    rewrite default_issues_app, !elem_of_app. right; right; left.
    unfold run_rule. cbn [validate SafetyCheckRule]. rewrite Hsafe. simpl. rewrite Hrun. left.
  - by destruct Hspec as [_ ?].
Qed.

Lemma kept_not_shell toolCall :
  issue_ground unsafe_operation → kept toolCall = true → tc_name toolCall ≠ "shell".
Proof.
  intros (i & Hi & Htype & _ & Hloc & Hmsg)%unsafe_issue_present Hkept Hname.
  apply negb_true_iff, not_true_iff_false in Hkept. apply Hkept.
  apply existsb_exists. exists i. split.
  - apply filter_In. split; [by apply list_elem_of_In|].
    rewrite Hloc. apply andb_true_iff. split; [done|].
    apply orb_true_iff. right. by apply is_type_spec.
  - by rewrite Hmsg, Hname.
Qed.

Lemma dropped_ground toolCall :
  kept toolCall = false →
  issue_ground tool_not_available ∨ issue_ground unsafe_operation.
Proof.
  intros Hdrop. apply negb_false_iff, existsb_exists in Hdrop as (i & Hi & _).
  apply filter_In in Hi as [Hi Hkind]. apply list_elem_of_In in Hi.
  apply andb_true_iff in Hkind as [_ [Ht|Ht]%orb_true_iff]; apply is_type_spec in Ht.
  - left. apply default_issues_types. by exists i.
  - right. apply default_issues_types. by exists i.
Qed.

Lemma default_correctedResponse :
  match correctedResponse (validateResponse (newResponseValidator toFixed2 toString)
                             response context constraints) with
  | Some corrected =>
      (issue_ground tool_not_available ∨ issue_ground unsafe_operation) ∧
      toolCalls corrected `sublist_of` toolCalls response ∧
      length (toolCalls corrected) < length (toolCalls response) ∧
      (∀ toolCall, toolCall ∈ toolCalls corrected →
         tc_name toolCall ∈ availableTools context ∧
         (issue_ground unsafe_operation → tc_name toolCall ≠ "shell")) ∧
      content corrected =
        content response +:+ String "010" (String "010" "")
          +:+ "[Note: Some tool calls were removed due to validation issues]" ∧
      reasoning corrected = reasoning response ∧
      confidence corrected = confidence response ∧
      timestamp corrected = timestamp response
  | None =>
      ¬ issue_ground tool_not_available ∧ ¬ issue_ground unsafe_operation
  end.
Proof.
  change (correctedResponse _) with
    (generateCorrectedResponse response default_issues context).
  unfold generateCorrectedResponse. fold kept.
  destruct (length (List.filter kept (toolCalls response)) =? length (toolCalls response))
    eqn:Hlen; simpl.
  - apply Nat.eqb_eq in Hlen. pose proof (filter_all_length _ _ Hlen) as Hall. split.
    + intros (toolCall & Hin & Hnot). apply Hnot, kept_available; [done | by apply Hall].
    + intros Hg. pose proof Hg as (_ & (toolCall & Hin & Hname & _) & _).
      by apply (kept_not_shell toolCall Hg); [apply Hall|].
  - apply Nat.eqb_neq in Hlen. pose proof (filter_length_le kept (toolCalls response)) as Hle.
    split; [|split; [apply filter_sublist|split; [lia|split; [|done]]]].
    + destruct (forallb kept (toolCalls response)) eqn:Hkept.
      * exfalso. apply Hlen. f_equal. apply forallb_filter_id. done.
      * apply not_true_iff_false in Hkept.
        destruct (decide (Forall (λ c, kept c = true) (toolCalls response))) as [Hf|Hf].
        { destruct Hkept. apply forallb_forall. intros c Hc.
          apply (proj1 (Forall_forall _ _) Hf). by apply list_elem_of_In. }
        apply not_Forall_Exists in Hf; [|intros c; apply _].
        apply Exists_exists in Hf as (c & _ & Hc). apply (dropped_ground c).
        by apply not_true_iff_false.
    + intros toolCall Hin. apply list_elem_of_In, filter_In in Hin as [Hin Hk].
      apply list_elem_of_In in Hin. split; [by apply kept_available|].
      intros Hg. by apply kept_not_shell.
Qed.

End default_rules.






(** X24.  The corrected response of [validateResponse] with the
    constructor's rules.  There is one exactly when a tool call is
    unavailable or an unsafe operation is reported.  Its tool calls are a
    proper sublist of the original ones in which every tool is available
    and, when an unsafe operation is reported, no call is a [shell] call
    (the harmless ones are dropped with the dangerous one); the note is
    appended to the content and the rest is unchanged. *)
Theorem validateResponse_correctedResponse
    (toFixed2 toString : float → string) (response : AIResponse)
    (context : PromptContext) (constraints : ValidationConstraints) :
  let ground := issue_ground response context constraints in
  match correctedResponse (validateResponse (newResponseValidator toFixed2 toString)
                             response context constraints) with
  | Some corrected =>
      (ground tool_not_available ∨ ground unsafe_operation) ∧
      toolCalls corrected `sublist_of` toolCalls response ∧
      length (toolCalls corrected) < length (toolCalls response) ∧
      (∀ toolCall, toolCall ∈ toolCalls corrected →
         tc_name toolCall ∈ availableTools context ∧
         (ground unsafe_operation → tc_name toolCall ≠ "shell")) ∧
      content corrected =
        content response +:+ String "010" (String "010" "")
          +:+ "[Note: Some tool calls were removed due to validation issues]" ∧
      reasoning corrected = reasoning response ∧
      confidence corrected = confidence response ∧
      timestamp corrected = timestamp response
  | None => ¬ ground tool_not_available ∧ ¬ ground unsafe_operation
  end.
Proof. apply default_correctedResponse. Qed.

(** A dangerous command that passes: the second [shell] call, whose
    command is a number, makes the safety rule throw, and the "rm -rf" of
    the first call is reported by no issue. *)
Definition call_shell (command : JsValue) : ToolCall :=
  {| tc_name := "shell"; tc_parameters := {[ "command" := command ]};
     tc_id := None; tc_reasoning := None |}.

Example validateResponse_rm_rf_allowed :
  let result := validateResponse (newResponseValidator show_number show_number)
                  (response_of [call_shell (VStr "rm -rf /"); call_shell (VNum 5)])
                  context_ls_shell (constraints_with false) in
  map vi_type (issues result) = [factual_error] ∧
  allowExecution result = true ∧ isValid result = true ∧ correctedResponse result = None.
Proof. by vm_compute. Qed.

(** ... and a harmless one that is removed, together with the dangerous
    one. *)
Example validateResponse_harmless_shell_removed :
  let result := validateResponse (newResponseValidator show_number show_number)
                  (response_of [call_shell (VStr "rm -rf /"); call_shell (VStr "ls")])
                  context_ls_shell (constraints_with false) in
  map vi_type (issues result) = [unsafe_operation] ∧
  (toolCalls <$> correctedResponse result) = Some [].
Proof. by vm_compute. Qed.

(** *** [validateReasoning] *)

Section reasoning.
Variable toFixed2 : float → string.
Variable toString : float → string.
Variable constraints : ValidationConstraints.







End reasoning.


(** *** The rule list *)

Lemma remove_first_None ruleName rules :
  remove_first ruleName rules = None ↔ ∀ rule, rule ∈ rules → rule_name rule ≠ ruleName.
Proof.
  induction rules as [|rule rest IH]; simpl.
  - split; [by intros _ ? ?%elem_of_nil | done].
  - destruct (String.eqb (rule_name rule) ruleName) eqn:Hname.
    + apply String.eqb_eq in Hname. split; [done|]. intros H.
      by destruct (H rule ltac:(left)).
    + apply String.eqb_neq in Hname. rewrite fmap_None, IH. split.
      * intros H r [->|Hr]%elem_of_cons; [done | by apply H].
      * intros H r Hr. apply H. by right.
Qed.

Lemma remove_first_Some ruleName rules rules' :
  remove_first ruleName rules = Some rules' ↔
  ∃ before rule after,
    rules = before ++ rule :: after ∧ rules' = before ++ after ∧
    rule_name rule = ruleName ∧ ∀ r, r ∈ before → rule_name r ≠ ruleName.
Proof.
  revert rules'. induction rules as [|rule rest IH]; intros rules'; simpl.
  - split; [done|]. intros (before & ? & ? & H & _). by destruct before.
  - destruct (String.eqb (rule_name rule) ruleName) eqn:Hname.
    + apply String.eqb_eq in Hname. split.
      * intros [= <-]. exists [], rule, rest. split; [done|]. split; [done|].
        split; [done|]. by intros ? ?%elem_of_nil.
      * intros ([|first before] & r & after & Heq & -> & Hr & Hbefore); simplify_eq/=.
        { done. }
        by destruct (Hbefore first ltac:(left)).
    + apply String.eqb_neq in Hname. rewrite fmap_Some. split.
      * intros (l & (before & r & after & -> & -> & Hr & Hbefore)%IH & ->).
        exists (rule :: before), r, after. split; [done|]. split; [done|]. split; [done|].
        intros x [->|Hx]%elem_of_cons; [done | by apply Hbefore].
      * intros ([|first before] & r & after & Heq & -> & Hr & Hbefore); simplify_eq/=.
        exists (before ++ after). split; [|done]. apply IH.
        exists before, r, after. split; [done|]. split; [done|]. split; [done|].
        intros x Hx. apply Hbefore. by right.
Qed.

(** X26.  [addValidationRule] appends the rule: the issues of
    [validateResponse] are those of the old rules followed by the issues
    of the new one, which are a single medium [factual_error] when the
    rule throws.  [removeValidationRule] removes the first rule of the
    given name and answers [true], or answers [false] and changes
    nothing when no rule has that name; right after an
    [addValidationRule] with a name no old rule has, it undoes it. *)
Theorem addValidationRule_removeValidationRule
    (self : ResponseValidator) (rule : ValidationRule) (ruleName : string)
    (response : AIResponse) (context : PromptContext) (constraints : ValidationConstraints) :
  issues (validateResponse (addValidationRule self rule) response context constraints)
    = issues (validateResponse self response context constraints)
      ++ run_rule rule response context constraints ∧
  (∀ m, validate rule response context constraints = Throws m →
     ∃ i, run_rule rule response context constraints = [i] ∧
          vi_type i = factual_error ∧ vi_severity i = medium ∧
          vi_message i = "Validation rule '" +:+ rule_name rule +:+ "' failed: " +:+ m) ∧
  (∀ l, validate rule response context constraints = Returns l →
        run_rule rule response context constraints = l) ∧
  match removeValidationRule self ruleName with
  | (self', true) =>
      ∃ before removed after,
        getValidationRules self = before ++ removed :: after ∧
        getValidationRules self' = before ++ after ∧
        rule_name removed = ruleName ∧
        ∀ r, r ∈ before → rule_name r ≠ ruleName
  | (self', false) =>
      self' = self ∧ ∀ r, r ∈ getValidationRules self → rule_name r ≠ ruleName
  end ∧
  ((∀ r, r ∈ getValidationRules self → rule_name r ≠ rule_name rule) →
   getValidationRules (removeValidationRule (addValidationRule self rule) (rule_name rule)).1
     = getValidationRules self ∧
   (removeValidationRule (addValidationRule self rule) (rule_name rule)).2 = true).
Proof.
  split; [|split; [|split; [|split]]].
  - unfold validateResponse, addValidationRule. cbn [issues validationRules].
    rewrite flat_map_app. cbn [flat_map]. by rewrite app_nil_r.
  - intros m Hm. unfold run_rule. rewrite Hm. by eexists.
  - intros l Hl. unfold run_rule. by rewrite Hl.
  - unfold removeValidationRule, getValidationRules.
    destruct (remove_first ruleName (validationRules self)) as [rules'|] eqn:Hrm.
    + by apply remove_first_Some in Hrm.
    + split; [done | by apply remove_first_None].
  - intros Hfresh. unfold removeValidationRule, getValidationRules, addValidationRule.
    cbn [validationRules].
    assert (Hrm : remove_first (rule_name rule) (validationRules self ++ [rule])
                  = Some (validationRules self)).
    { apply remove_first_Some. exists (validationRules self), rule, [].
      by rewrite app_nil_r. }
    by rewrite Hrm.
Qed.

(** X27.  The block on unavailable tools rests on the rule
    [ToolAvailability] alone: once it is removed from the constructor's
    rules, no issue is critical, an unavailable tool call is still
    reported as [hallucination_detected], and execution is allowed
    exactly when no unsafe operation is reported and the score is at
    least 0.6. *)
Theorem removeValidationRule_ToolAvailability
    (toFixed2 toString : float → string) (response : AIResponse)
    (context : PromptContext) (constraints : ValidationConstraints) :
  let self := (removeValidationRule (newResponseValidator toFixed2 toString)
                 "ToolAvailability").1 in
  let result := validateResponse self response context constraints in
  let ground := issue_ground response context constraints in
  (removeValidationRule (newResponseValidator toFixed2 toString) "ToolAvailability").2
    = true ∧
  map rule_name (getValidationRules self) =
    ["ParameterValidation"; "SafetyCheck"; "ReasoningValidation"; "ConfidenceValidation";
     "ConstraintCompliance"; "HallucinationDetection"; "LogicalConsistency"] ∧
  (∀ i, i ∈ issues result → vi_severity i ≠ critical) ∧
  (ground tool_not_available ↔
   ∃ i, i ∈ issues result ∧ vi_type i = hallucination_detected) ∧
  (allowExecution result = true ↔
   ¬ ground unsafe_operation ∧ PrimFloat.leb 0.6 (score result) = true).
Proof.
  intros self result ground.
  assert (Hissues : issues result =
    run_rule ParameterValidationRule response context constraints ++
    run_rule (SafetyCheckRule toString) response context constraints ++
    run_rule ReasoningValidationRule response context constraints ++
    run_rule (ConfidenceValidationRule toFixed2 toString) response context constraints ++
    run_rule ConstraintComplianceRule response context constraints ++
    run_rule HallucinationDetectionRule response context constraints ++
    run_rule LogicalConsistencyRule response context constraints).
  { subst result self. unfold validateResponse. cbn [issues].
    change (validationRules _) with
      [ParameterValidationRule; SafetyCheckRule toString; ReasoningValidationRule;
       ConfidenceValidationRule toFixed2 toString; ConstraintComplianceRule;
       HallucinationDetectionRule; LogicalConsistencyRule].
    cbn [flat_map]. by rewrite app_nil_r. }
  assert (Hsub : ∀ i, i ∈ issues result →
            i ∈ default_issues toFixed2 toString response context constraints).
  { intros i. rewrite Hissues, default_issues_app, !elem_of_app. tauto. }
  assert (Hcrit : ∀ i, i ∈ issues result → vi_severity i ≠ critical).
  { intros i Hi.
    rewrite (default_issues_severity _ _ _ _ _ i (Hsub i Hi)).
    rewrite Hissues, !elem_of_app in Hi.
    destruct (SafetyCheckRule_raises toString response context constraints)
      as [[[Hs _] _]|[[Hs _] _]];
      destruct Hi as [H|[H|[H|[H|[H|[H|H]]]]]];
      first [ apply Hs in H
            | apply ParameterValidationRule_raises in H
            | apply ReasoningValidationRule_raises in H
            | apply ConfidenceValidationRule_raises in H
            | apply ConstraintComplianceRule_raises in H
            | apply HallucinationDetectionRule_raises in H
            | apply LogicalConsistencyRule_raises in H ];
      destruct H as [-> _]; done. }
  assert (Hunsafe : (∃ i, i ∈ issues result ∧ vi_type i = unsafe_operation) ↔
                    ground unsafe_operation).
  { split.
    - intros (i & Hi & Ht). apply (default_issues_types toFixed2 toString).
      exists i. split; [by apply Hsub | done].
    - intros Hg.
      destruct (SafetyCheckRule_raises toString response context constraints)
        as [[Hs _]|[_ Hno]]; [|done].
      apply (raises_type _ _ _ unsafe_operation) in Hs.
      destruct (proj2 Hs (conj eq_refl Hg)) as (i & Hi & Ht). exists i. split; [|done].
      rewrite Hissues, !elem_of_app. tauto. }
  split; [done|]. split; [done|]. split; [done|]. split; [|split].
  - pose proof (raises_type _ _ _ hallucination_detected
                  (HallucinationDetectionRule_raises response context constraints)) as Hh.
    split.
    + intros Hg. destruct (proj2 Hh (conj eq_refl Hg)) as (i & Hi & Ht).
      exists i. split; [|done]. rewrite Hissues, !elem_of_app. tauto.
    + intros (i & Hi & Ht).
      change (issue_ground response context constraints hallucination_detected).
      apply (default_issues_types toFixed2 toString).
      exists i. split; [by apply Hsub | done].
  - intros Hallow. change (allowExecution result) with
      (shouldAllowExecution (issues result) (score result) constraints) in Hallow.
    assert (Hno : ¬ ground unsafe_operation).
    { intros Hg. pose proof Hg as [Hsafe _]. apply Hunsafe in Hg.
      by rewrite shouldAllowExecution_unsafe in Hallow. }
    split; [done|]. rewrite <- Hallow. symmetry. apply shouldAllowExecution_score; [done|].
    right. intros i Hi Ht. apply Hno, Hunsafe. by exists i.
  - intros [Hno Hscore]. change (allowExecution result) with
      (shouldAllowExecution (issues result) (score result) constraints).
    rewrite <- Hscore. apply shouldAllowExecution_score; [done|].
    right. intros i Hi Ht. apply Hno, Hunsafe. by exists i.
Qed.

(** *** [validateToolCalls] *)

Section tool_calls.
Variable stringify : gmap string JsValue → string.
Variable entries : gmap string JsValue → list (string * JsValue).
Variable not_a_function : string → string.
Variable availableTools : list Tool.
Variable context : PromptContext.
Variable constraints : ValidationConstraints.



Lemma validateToolParameters_kinds tool params i :
  i ∈ validateToolParameters entries tool params →
  (vi_type i = invalid_parameters ∧ vi_severity i = critical) ∨
  (vi_type i = parameter_mismatch ∧ vi_severity i = high).
Proof.
  unfold validateToolParameters.
  destruct (schema tool) as [ts|]; [|by intros ?%elem_of_nil].
  destruct (parameters ts) as [ps|]; [|by intros ?%elem_of_nil].
  intros [Hi|Hi]%elem_of_app.
  - apply elem_of_flat_map_if in Hi as (param & _ & _ & ->). by left.
  - destruct (properties ps) as [props|]; [|by apply elem_of_nil in Hi].
    apply list_elem_of_In, in_flat_map in Hi as ([k v] & _ & Hi).
    destruct (props !! k) as [[[expected|]]|]; [|done..].
    destruct (JS.truthy_str expected && _); [|done].
    destruct Hi as [<-|[]]. by right.
Qed.





End tool_calls.




(** X30.  [validateToolParameters] reports nothing for a tool without
    parameter schema.  Otherwise it reports a critical
    [invalid_parameters] exactly when a required name is neither a
    parameter of the call nor a property every object inherits (a
    required [toString] is never missing), and a high
    [parameter_mismatch] exactly when a parameter of the call has a
    schema with a non-empty type that its value does not have; [null]
    and arrays are no objects, NaN is no number, and a type the
    validator does not know accepts every value. *)
Theorem validateToolParameters_issue_types
    (entries : gmap string JsValue → list (string * JsValue))
    (tool : Tool) (params : gmap string JsValue) :
  let found := validateToolParameters entries tool params in
  (∀ i, i ∈ found →
     (vi_type i = invalid_parameters ∧ vi_severity i = critical) ∨
     (vi_type i = parameter_mismatch ∧ vi_severity i = high)) ∧
  ((∃ i, i ∈ found ∧ vi_type i = invalid_parameters) ↔
   ∃ toolSchema paramsSchema param,
     schema tool = Some toolSchema ∧ parameters toolSchema = Some paramsSchema ∧
     param ∈ default [] (required paramsSchema) ∧ in_object param params = false) ∧
  ((∃ i, i ∈ found ∧ vi_type i = parameter_mismatch) ↔
   ∃ toolSchema paramsSchema props paramName paramValue expectedType,
     schema tool = Some toolSchema ∧ parameters toolSchema = Some paramsSchema ∧
     properties paramsSchema = Some props ∧
     (paramName, paramValue) ∈ entries params ∧
     props !! paramName = Some {| prm_type := Some expectedType |} ∧
     expectedType ≠ "" ∧
     isValidParameterType (typeof paramValue) expectedType paramValue = false) ∧
  (∀ param, in_object param params = false →
     params !! param = None ∧ param ≠ "toString" ∧ param ≠ "constructor") ∧
  (∀ value,
     (isValidParameterType (typeof value) "object" value = true ↔ value = VObj) ∧
     (isValidParameterType (typeof value) "array" value = true ↔
      ∃ items, value = VArr items) ∧
     (isValidParameterType (typeof value) "number" value = true ↔
      ∃ x, value = VNum x ∧ JS.is_nan x = false) ∧
     isValidParameterType (typeof value) "integer" value = true).
Proof.
  intros found. split; [apply validateToolParameters_kinds|]. subst found.
  unfold validateToolParameters. split; [|split; [|split]].
  - destruct (schema tool) as [ts|].
    2: { split; [by intros (? & ?%elem_of_nil & _) | by intros (? & ? & ? & ? & _)]. }
    destruct (parameters ts) as [ps|] eqn:Hps.
    2: { split; [by intros (? & ?%elem_of_nil & _)|].
         intros (? & ? & ? & [= <-] & ? & _). congruence. }
    rewrite exists_elem_of_app. split.
    + intros [(i & (param & Hin & Hc & ->)%elem_of_flat_map_if & _)|(i & Hi & Ht)].
      * exists ts, ps, param. by rewrite negb_true_iff in Hc.
      * destruct (properties ps) as [props|]; [|by apply elem_of_nil in Hi].
        apply list_elem_of_In, in_flat_map in Hi as ([k v] & _ & Hi).
        destruct (props !! k) as [[[expected|]]|]; [|done..].
        destruct (JS.truthy_str expected && _); [|done].
        destruct Hi as [<-|[]]. done.
    + intros (ts' & ps' & param & [= <-] & Hp & Hin & Hc).
      assert (ps' = ps) as -> by congruence. left.
      eexists. split; [|shelve]. apply elem_of_flat_map_if. exists param.
      split; [done|]. split; [by rewrite Hc | done]. Unshelve. done.
  - destruct (schema tool) as [ts|].
    2: { split; [by intros (? & ?%elem_of_nil & _)|]. by intros (? & ? & ? & ? & ? & ? & ? & _). }
    destruct (parameters ts) as [ps|] eqn:Hps.
    2: { split; [by intros (? & ?%elem_of_nil & _)|].
         intros (? & ? & ? & ? & ? & ? & [= <-] & ? & _). congruence. }
    rewrite exists_elem_of_app. split.
    + intros [(i & (param & Hin & Hc & ->)%elem_of_flat_map_if & Ht)|(i & Hi & Ht)]; [done|].
      destruct (properties ps) as [props|] eqn:Hprops; [|by apply elem_of_nil in Hi].
      apply list_elem_of_In, in_flat_map in Hi as ([k v] & Hkv & Hi).
      destruct (props !! k) as [[[expected|]]|] eqn:Hk; [|done..].
      destruct (JS.truthy_str expected && _) eqn:Hc; [|done].
      apply andb_true_iff in Hc as [Htruthy Hvalid]. apply negb_true_iff in Hvalid.
      exists ts, ps, props, k, v, expected. apply list_elem_of_In in Hkv.
      do 5 (split; [done|]). split; [|done]. intros ->. done.
    + intros (ts' & ps' & props & k & v & expected & [= <-] & Hp & Hprops & Hkv & Hk & Hne
              & Hvalid).
      assert (ps' = ps) as -> by congruence. rewrite Hprops.
      right. eexists. split; [|shelve]. apply list_elem_of_In, in_flat_map.
      exists (k, v). split; [by apply list_elem_of_In|]. rewrite Hk, Hvalid.
      assert (JS.truthy_str expected = true) as -> by (by destruct expected).
      left. reflexivity. Unshelve. done.
  - intros param Hin. unfold in_object in Hin. apply orb_false_iff in Hin as [Hown Hproto].
    apply bool_decide_eq_false in Hown. split.
    + destruct (params !! param) eqn:Hp; [|done]. destruct Hown. by eexists.
    + split; intros ->; by vm_compute in Hproto.
  - intros value. split; [|split; [|split]].
    + destruct value; split; try done; by intros [=].
    + destruct value; split; try done; try (by intros (? & [=])). intros _. by eexists.
    + destruct value as [| | |x| | |]; split; try done; try (by intros (? & [=] & _)).
      * unfold isValidParameterType. cbn. intros H. exists x. split; [done|].
        by destruct (JS.is_nan x).
      * intros (y & [= <-] & Hy). unfold isValidParameterType. cbn. by rewrite Hy.
    + by destruct value.
Qed.

(** The two safety checks differ: [sudo] is flagged by
    [isUnsafeOperation] and passes [validateResponse]. *)
Example validateToolCalls_flags_sudo :
  (∃ found,
     validateToolCalls (λ _, "{}") map_to_list (λ _, "TypeError")
       [{| tool_name := "shell"; schema := None |}]
       [call_shell (VStr "sudo reboot")] context_ls_shell (constraints_with false)
     = Returns found ∧
     map vi_type found = [unsafe_operation]) ∧
  issues (validateResponse (newResponseValidator show_number show_number)
            (response_of [call_shell (VStr "sudo reboot")]) context_ls_shell
            (constraints_with false)) = [].
Proof. split; [eexists; split; [vm_compute; reflexivity | done] | by vm_compute]. Qed.

End ValidatorMore.

(** ** Facts about the prompt system *)

Module PromptSystemMore.
Import Validator PromptSystem ValidatorFacts.






End PromptSystemMore.
